(** * The HTTP client of fasthttp (client.go)

    A shallow embedding of the connection pool, the request executor,
    the retry layer, the deadline harness and the redirect follower of
    [client.go], with the properties the specification states about them;
    and of the idle reaper, the address cursor, Get and Post by URL and
    the [Client] for many hosts with its cleaner, with further properties
    of the code.

    Conventions.
    - Go's [int], [int64] and [time.Duration] are [Z] with the 64-bit
      wrap-around written out ([wrap64]); [uint32] is [Z] modulo 2^32.
    - A [time.Time] is the number of nanoseconds since the epoch.
    - A Go [error] is an [option error]; [None] is [nil].
    - Everything the outside world decides (the clock, the dialer, the
      transport, the message parser, the scheduler's choice in a [select])
      is read from a record of observations that the functions take as an
      argument.  The mutable state of a [HostClient] is passed explicitly.
    - A [sync.Pool] may return nothing at any time; the model always takes
      the allocation branch of the pooled getters, so a pooled value is a
      fresh one. *)

From Stdlib Require Import ZArith List Bool String Ascii Lia.
Import ListNotations.
Open Scope Z_scope.

(** ** Machine integers and time *)

Module GoInt.

Definition minInt64 : Z := - 2 ^ 63.
Definition maxInt64 : Z := 2 ^ 63 - 1.

(** Two's-complement wrap-around of a 64-bit signed result. *)
Definition wrap64 (z : Z) : Z := (z + 2 ^ 63) mod 2 ^ 64 - 2 ^ 63.

(** Conversion to [uint32]. *)
Definition uint32 (z : Z) : Z := z mod 2 ^ 32.

Definition in_int64 (z : Z) : Prop := minInt64 <= z <= maxInt64.

End GoInt.

Module GoTime.

Import GoInt.

Definition Time := Z.
Definition Duration := Z.

Definition Millisecond : Duration := 1000000.
Definition Second : Duration := 1000000000.

(** [t.Sub(u)]: the difference, saturated to the range of a Duration. *)
Definition Sub (t u : Time) : Duration :=
  let d := t - u in
  if d <? minInt64 then minInt64
  else if maxInt64 <? d then maxInt64
  else d.

(** [t.Add(d)]. *)
Definition Add (t : Time) (d : Duration) : Time := t + d.

(** [time.Since(t)] is [time.Now().Sub(t)]; [now] is the clock reading. *)
Definition Since (now t : Time) : Duration := Sub now t.

(** [t.Unix()]: whole seconds since the epoch. *)
Definition Unix (t : Time) : Z := t / Second.

End GoTime.

Import GoInt GoTime.

(** ** Errors *)

(** The sentinels of client.go, [io.EOF], and the errors of the external
    collaborators (dialer, transport, message layer), told apart by a code. *)
Inductive error : Type :=
| ErrNoFreeConns
| ErrTimeout
| ErrConnectionClosed
| io_EOF
| errMissingLocation
| errTooManyRedirects
| ErrExternal (code : nat).

Definition error_eqb (a b : error) : bool :=
  match a, b with
  | ErrNoFreeConns, ErrNoFreeConns => true
  | ErrTimeout, ErrTimeout => true
  | ErrConnectionClosed, ErrConnectionClosed => true
  | io_EOF, io_EOF => true
  | errMissingLocation, errMissingLocation => true
  | errTooManyRedirects, errTooManyRedirects => true
  | ErrExternal m, ErrExternal n => Nat.eqb m n
  | _, _ => false
  end.

(** [err == e] on Go error values. *)
Definition err_is (err : option error) (e : error) : bool :=
  match err with
  | Some a => error_eqb a e
  | None => false
  end.

(** ** Connections, messages and the per-host client *)

(** A [net.Conn] interface value: [None] is nil, [Some i] the i-th live
    transport connection. *)
Definition net_Conn := option nat.

Record clientConn : Type := mkClientConn {
  cc_c : net_Conn;
  createdTime : Time;
  lastUseTime : Time
}.

Definition net_Conn_eqb (a b : net_Conn) : bool :=
  match a, b with
  | Some m, Some n => Nat.eqb m n
  | None, None => true
  | _, _ => false
  end.

Definition clientConn_eqb (a b : clientConn) : bool :=
  net_Conn_eqb (cc_c a) (cc_c b)
  && (createdTime a =? createdTime b)
  && (lastUseTime a =? lastUseTime b).

Record HostClient : Type := mkHostClient {
  (* configuration *)
  Addr : string;
  Name : string;
  hasDial : bool;                 (* c.Dial != nil *)
  DialDualStack : bool;
  IsTLS : bool;
  MaxConns : Z;
  MaxConnDuration : Duration;
  MaxIdleConnDuration : Duration;
  ReadTimeout : Duration;
  WriteTimeout : Duration;
  MaxResponseBodySize : Z;
  DisableHeaderNamesNormalizing : bool;
  (* state *)
  clientName : option string;
  hc_lastUseTime : Z;             (* uint32 *)
  connsCount : Z;
  conns : list clientConn;
  addrs : list string;            (* [] is the nil slice *)
  addrIdx : Z                     (* uint32 *)
}.

Definition set_connsCount (c : HostClient) (n : Z) : HostClient :=
  mkHostClient (Addr c) (Name c) (hasDial c) (DialDualStack c) (IsTLS c)
    (MaxConns c) (MaxConnDuration c) (MaxIdleConnDuration c) (ReadTimeout c)
    (WriteTimeout c) (MaxResponseBodySize c) (DisableHeaderNamesNormalizing c)
    (clientName c) (hc_lastUseTime c) n (conns c) (addrs c) (addrIdx c).

Definition set_conns (c : HostClient) (l : list clientConn) : HostClient :=
  mkHostClient (Addr c) (Name c) (hasDial c) (DialDualStack c) (IsTLS c)
    (MaxConns c) (MaxConnDuration c) (MaxIdleConnDuration c) (ReadTimeout c)
    (WriteTimeout c) (MaxResponseBodySize c) (DisableHeaderNamesNormalizing c)
    (clientName c) (hc_lastUseTime c) (connsCount c) l (addrs c) (addrIdx c).

Definition set_lastUseTime (c : HostClient) (n : Z) : HostClient :=
  mkHostClient (Addr c) (Name c) (hasDial c) (DialDualStack c) (IsTLS c)
    (MaxConns c) (MaxConnDuration c) (MaxIdleConnDuration c) (ReadTimeout c)
    (WriteTimeout c) (MaxResponseBodySize c) (DisableHeaderNamesNormalizing c)
    (clientName c) n (connsCount c) (conns c) (addrs c) (addrIdx c).

Definition set_clientName (c : HostClient) (n : option string) : HostClient :=
  mkHostClient (Addr c) (Name c) (hasDial c) (DialDualStack c) (IsTLS c)
    (MaxConns c) (MaxConnDuration c) (MaxIdleConnDuration c) (ReadTimeout c)
    (WriteTimeout c) (MaxResponseBodySize c) (DisableHeaderNamesNormalizing c)
    n (hc_lastUseTime c) (connsCount c) (conns c) (addrs c) (addrIdx c).

Definition set_addrs (c : HostClient) (l : list string) (i : Z) : HostClient :=
  mkHostClient (Addr c) (Name c) (hasDial c) (DialDualStack c) (IsTLS c)
    (MaxConns c) (MaxConnDuration c) (MaxIdleConnDuration c) (ReadTimeout c)
    (WriteTimeout c) (MaxResponseBodySize c) (DisableHeaderNamesNormalizing c)
    (clientName c) (hc_lastUseTime c) (connsCount c) (conns c) l i.

(** What the executor does to the outside world, newest event first. *)
Inductive event : Type :=
| EvDial (addr : string)                       (* dial(addr) *)
| EvStartCleaner                               (* go c.connsCleaner() *)
| EvSetWriteDeadline (conn : net_Conn) (t : Time)
| EvWrite (conn : net_Conn) (connectionClose : bool) (userAgent : string)
                                               (* req.Write(bw), the request as serialized *)
| EvFlush (conn : net_Conn)
| EvSetReadDeadline (conn : net_Conn) (t : Time)
| EvReadLimitBody (conn : net_Conn) (skipBody : bool) (maxBodySize : Z)
| EvConnClose (conn : net_Conn)                (* cc.c.Close() *)
| EvAcquireResponse                            (* AcquireResponse() *)
| EvReleaseResponse.                           (* ReleaseResponse(resp) *)

(** The client, the trace of its actions, and the number of exchanges
    ([HostClient.do] calls) started so far. *)
Record World : Type := mkWorld {
  w_hc : HostClient;
  w_trace : list event;
  w_attempt : nat
}.

(** ** A small state monad over the world *)

Definition M (A : Type) : Type := World -> A * World.

Definition ret {A : Type} (a : A) : M A := fun w => (a, w).

Definition bind {A B : Type} (m : M A) (k : A -> M B) : M B :=
  fun w => let (a, w1) := m w in k a w1.

Notation "x <- m ;; k" := (bind m (fun x => k))
  (at level 61, m at next level, right associativity).
Notation "m ;;; k" := (bind m (fun _ => k))
  (at level 61, right associativity).

Definition get_hc : M HostClient := fun w => (w_hc w, w).

Definition modify_hc (f : HostClient -> HostClient) : M unit :=
  fun w => (tt, mkWorld (f (w_hc w)) (w_trace w) (w_attempt w)).

Definition emit (e : event) : M unit :=
  fun w => (tt, mkWorld (w_hc w) (e :: w_trace w) (w_attempt w)).

(** ** Request and response messages

    The message layer (http.go, header.go) is an external collaborator of
    client.go; only the fields and predicates the client touches are kept. *)

(** Modelled from the spec: the request message (http.go is not part of the
    sources), "method, target URI, headers (including Host), and body
    bytes", with the two headers the client reads. *)
Record Request : Type := mkRequest {
  req_method : string;
  req_requestURI : string;
  req_host : string;
  req_parsedURI : bool;
  req_connectionClose : bool;
  req_userAgent : string;
  req_body : string
}.

(** Modelled from the spec: the response message (http.go is not part of
    the sources), "status code, headers, body bytes, and a SkipBody flag",
    with the headers the client reads. *)
Record Response : Type := mkResponse {
  resp_statusCode : Z;
  resp_location : string;        (* the Location header, empty when absent *)
  resp_connectionClose : bool;
  resp_disableNormalizing : bool;
  SkipBody : bool;
  resp_body : string
}.

(** Modelled from the spec: the method predicates of the request header
    (header.go is not part of the sources); the spec names them IsGet,
    IsHead and IsPut, predicates on the request method. *)
Definition IsGet (req : Request) : bool := String.eqb (req_method req) "GET".

(** Modelled from the spec: see [IsGet]. *)
Definition IsHead (req : Request) : bool := String.eqb (req_method req) "HEAD".

(** Modelled from the spec: see [IsGet]. *)
Definition IsPut (req : Request) : bool := String.eqb (req_method req) "PUT".

(** Modelled from the spec: [req.ConnectionClose()], whether the request
    carries Connection: close. *)
Definition ConnectionClose (req : Request) : bool := req_connectionClose req.

Definition set_req_connectionClose (req : Request) (b : bool) : Request :=
  mkRequest (req_method req) (req_requestURI req) (req_host req)
    (req_parsedURI req) b (req_userAgent req) (req_body req).

Definition set_req_userAgent (req : Request) (ua : string) : Request :=
  mkRequest (req_method req) (req_requestURI req) (req_host req)
    (req_parsedURI req) (req_connectionClose req) ua (req_body req).

Definition set_req_body (req : Request) (b : string) : Request :=
  mkRequest (req_method req) (req_requestURI req) (req_host req)
    (req_parsedURI req) (req_connectionClose req) (req_userAgent req) b.

(** Modelled from the spec: [req.SetConnectionClose()]. *)
Definition SetConnectionClose (req : Request) : Request :=
  set_req_connectionClose req true.

(** Modelled from the spec: [req.Header.ResetConnectionClose()]. *)
Definition ResetConnectionClose (req : Request) : Request :=
  set_req_connectionClose req false.

(** Modelled from the spec: [req.SetRequestURI(url)] once lines 714-715
    have dropped the parsed URI and the Host header, "so they are
    recomputed". *)
Definition SetRequestURI_fresh (req : Request) (url : string) : Request :=
  mkRequest (req_method req) url EmptyString false
    (req_connectionClose req) (req_userAgent req) (req_body req).

(** A zero [Request] / [Response], what the pooled getters hand out. *)
Definition emptyRequest : Request :=
  mkRequest EmptyString EmptyString EmptyString false false EmptyString EmptyString.

Definition emptyResponse : Response :=
  mkResponse 0 EmptyString false false false EmptyString.

Definition set_SkipBody (r : Response) (b : bool) : Response :=
  mkResponse (resp_statusCode r) (resp_location r) (resp_connectionClose r)
    (resp_disableNormalizing r) b (resp_body r).

Definition set_resp_body (r : Response) (b : string) : Response :=
  mkResponse (resp_statusCode r) (resp_location r) (resp_connectionClose r)
    (resp_disableNormalizing r) (SkipBody r) b.

(** Modelled from the spec: [resp.Header.DisableNormalizing()], which
    passes on "disable header normalization". *)
Definition DisableNormalizing (r : Response) : Response :=
  mkResponse (resp_statusCode r) (resp_location r) (resp_connectionClose r)
    true (SkipBody r) (resp_body r).

(** Modelled from the spec: [req.copyToSkipBody(dst)], everything but the
    body goes to [dst]. *)
Definition req_copyToSkipBody (req dst : Request) : Request :=
  set_req_body req (req_body dst).

(** Modelled from the spec: [resp.copyToSkipBody(dst)]. *)
Definition resp_copyToSkipBody (resp dst : Response) : Response :=
  set_resp_body resp (resp_body dst).

(** Modelled from the spec: [swapRequestBody(a, b)], the body buffers
    change places. *)
Definition swapRequestBody (a b : Request) : Request * Request :=
  (set_req_body a (req_body b), set_req_body b (req_body a)).

(** Modelled from the spec: [swapResponseBody(a, b)]. *)
Definition swapResponseBody (a b : Response) : Response * Response :=
  (set_resp_body a (resp_body b), set_resp_body b (resp_body a)).

(** ** Observations of the outside world *)

(** What the world answers during one [dialHostHard]. *)
Record dial_io : Type := mkDialIO {
  dio_start : Time;                          (* time.Now(), line 1277 *)
  dio_dial : nat -> string -> nat + error;   (* the i-th dial(addr): a connection or an error *)
  dio_after : nat -> Time;                   (* time.Now() in time.Since(deadline), line 1283,
                                                after the i-th attempt failed *)
  dio_created : Time                         (* time.Now() in acquireClientConn *)
}.

(** What the world answers during one exchange ([HostClient.do]). *)
Record exchange_io : Type := mkExchangeIO {
  x_now_start : Time;                        (* line 966 *)
  x_dial : dial_io;                          (* the dial of acquireConn, if any *)
  x_now_write : Time;                        (* line 975 *)
  x_setWriteDeadline : option error;         (* conn.SetWriteDeadline *)
  x_now_age : Time;                          (* time.Since(cc.createdTime), line 982 *)
  x_write : option error;                    (* req.Write(bw) *)
  x_flush : option error;                    (* bw.Flush() *)
  x_now_read : Time;                         (* line 1018 *)
  x_setReadDeadline : option error;          (* conn.SetReadDeadline *)
  x_read : Response -> Z -> option error * Response;
                                             (* resp.ReadLimitBody(br, max) on its receiver *)
  x_now_release : Time                       (* time.Now() in releaseConn *)
}.

(** What the world answers during one round of the deadline harness. *)
Record deadline_io : Type := mkDeadlineIO {
  h_now_check : Time;                        (* time.Since(deadline), line 871 *)
  h_timer_wins : bool;                       (* the case of the select that fires *)
  h_rand : Z;                                (* rand.Intn(40) *)
  h_now_sleep : Time                         (* time.Now(), line 857 *)
}.

(** What the deadline harness does besides calling the doer. *)
Inductive hevent : Type :=
| HSpawn                                     (* go func() { ch <- c.Do(...) }() *)
| HSleep (d : Duration).                     (* time.Sleep(d) *)

(** ** Constants *)

Definition DefaultMaxConnsPerHost : Z := 512.

Definition maxRedirectsCount : Z := 16.

(** Modelled from the spec: the three redirect statuses (status.go is not
    part of the sources); the spec gives them as 301, 302 and 303. *)
Definition StatusMovedPermanently : Z := 301.

(** Modelled from the spec: see [StatusMovedPermanently]. *)
Definition StatusFound : Z := 302.

(** Modelled from the spec: see [StatusMovedPermanently]. *)
Definition StatusSeeOther : Z := 303.

(** The zero [time.Time] (January 1, year 1), seen from the epoch. *)
Definition zeroTime : Time := - 62135596800 * Second.

(** ** Helpers on strings and slices *)

(** [strings.Split(s, ",")]. *)
Fixpoint split_comma (s : string) : list string :=
  match s with
  | EmptyString => [EmptyString]
  | String ch rest =>
      match split_comma rest with
      | [] => [String ch EmptyString]
      | w :: ws =>
          if Ascii.eqb ch ","%char then EmptyString :: w :: ws
          else String ch w :: ws
      end
  end.

(** [strings.Index(s, ":") >= 0]. *)
Fixpoint has_colon (s : string) : bool :=
  match s with
  | EmptyString => false
  | String ch rest => Ascii.eqb ch ":"%char || has_colon rest
  end.

Definition addMissingPort (addr : string) (isTLS : bool) : string :=
  if has_colon addr then addr
  else if isTLS then (addr ++ ":443")%string
  else (addr ++ ":80")%string.

(** The tail of a slice and what is before it: [s[len(s)-1]], [s[:len(s)-1]]. *)
Fixpoint pop_tail {A : Type} (l : list A) : option (list A * A) :=
  match l with
  | [] => None
  | x :: l' =>
      match pop_tail l' with
      | None => Some ([], x)
      | Some (front, y) => Some (x :: front, y)
      end
  end.

Definition len {A : Type} (l : list A) : Z := Z.of_nat (List.length l).

(** ** The connection pool *)

Section Client.

(** Constants and collaborators that live outside client.go. *)
Variable DefaultDialTimeout : Duration.            (* tcpdialer.go *)
Variable defaultUserAgent : string.                (* the message layer *)
Variable startTimeUnix : Z.                        (* time.Now().Unix() at start-up *)
Variable uri_resolve : string -> string -> string. (* URI.Update, URI.UpdateBytes, URI.String *)

(** The cap that acquireConn enforces (lines 1088-1091). *)
Definition maxConns_of (c : HostClient) : Z :=
  if MaxConns c <=? 0 then DefaultMaxConnsPerHost else MaxConns c.

(** What the critical section of acquireConn decides. *)
Record acquired : Type := mkAcquired {
  acq_cc : option clientConn;
  acq_createConn : bool;
  acq_startCleaner : bool
}.

(** Lines 1085-1104, the part of acquireConn under [connsLock]. *)
Definition acquireConn_locked (c : HostClient) : acquired * HostClient :=
  match pop_tail (conns c) with
  | None =>
      let maxConns := maxConns_of c in
      if connsCount c <? maxConns then
        let c1 := set_connsCount c (wrap64 (connsCount c + 1)) in
        (mkAcquired None true (connsCount c1 =? 1), c1)
      else (mkAcquired None false false, c)
  | Some (front, cc) => (mkAcquired (Some cc) false false, set_conns c front)
  end.

Definition decConnsCount (c : HostClient) : HostClient :=
  set_connsCount c (wrap64 (connsCount c - 1)).

Definition nextAddr : M string := fun w =>
  let c := w_hc w in
  let addrs1 := match addrs c with
                | [] => split_comma (Addr c)
                | _ => addrs c
                end in
  let n := len addrs1 in
  if 1 <? n then
    let addr := nth (Z.to_nat (addrIdx c mod uint32 n)) addrs1 EmptyString in
    (addr, mkWorld (set_addrs c addrs1 (uint32 (addrIdx c + 1)))
                   (w_trace w) (w_attempt w))
  else
    (nth 0 addrs1 EmptyString,
     mkWorld (set_addrs c addrs1 (addrIdx c)) (w_trace w) (w_attempt w)).

(** [dialHost]; the i-th dial of the enclosing dialHostHard.  A DialFunc
    that returns neither a connection nor an error panics in the source;
    the type of [dio_dial] leaves that out.  [tls.Client] wraps the same
    transport. *)
Definition dialHost (d : dial_io) (i : nat) : M (nat + error) :=
  c <- get_hc ;;
  addr <- nextAddr ;;
  let addr := if hasDial c then addr else addMissingPort addr (IsTLS c) in
  emit (EvDial addr) ;;;
  ret (dio_dial d i addr).

(** Lines 1273-1276. *)
Definition dialTimeout (c : HostClient) : Duration :=
  let timeout := wrap64 (ReadTimeout c + WriteTimeout c) in
  if timeout <=? 0 then DefaultDialTimeout else timeout.

(** The loop of lines 1278-1288: [n] attempts are left, [i] were made,
    [err] is the last error. *)
Fixpoint dialHostHard_loop (d : dial_io) (deadline : Time) (n i : nat)
    (err : option error) : M (net_Conn * option error) :=
  match n with
  | O => ret (None, err)
  | S n' =>
      r <- dialHost d i ;;
      match r with
      | inl conn => ret (Some conn, None)
      | inr e =>
          if 0 <=? Since (dio_after d i) deadline then ret (None, Some e)
          else dialHostHard_loop d deadline n' (S i) (Some e)
      end
  end.

Definition dialHostHard (d : dial_io) : M (net_Conn * option error) :=
  c <- get_hc ;;
  let n := List.length (addrs c) in
  let n := if Nat.eqb n 0 then 1%nat else n in
  let deadline := Add (dio_start d) (dialTimeout c) in
  dialHostHard_loop d deadline n 0 None.

Definition acquireClientConn (conn : net_Conn) (now : Time) : clientConn :=
  mkClientConn conn now zeroTime.

Definition acquireConn (d : dial_io) : M (clientConn + error) :=
  c <- get_hc ;;
  let (a, c1) := acquireConn_locked c in
  modify_hc (fun _ => c1) ;;;
  match acq_cc a with
  | Some cc => ret (inl cc)
  | None =>
      if negb (acq_createConn a) then ret (inr ErrNoFreeConns)
      else
        r <- dialHostHard d ;;
        match snd r with
        | Some err => modify_hc decConnsCount ;;; ret (inr err)
        | None =>
            let cc := acquireClientConn (fst r) (dio_created d) in
            (if acq_startCleaner a then emit EvStartCleaner else ret tt) ;;;
            ret (inl cc)
        end
  end.

Definition closeConn (cc : clientConn) : M unit :=
  modify_hc decConnsCount ;;;
  emit (EvConnClose (cc_c cc)).

Definition releaseConn (now : Time) (cc : clientConn) : M unit :=
  modify_hc (fun c =>
    set_conns c (conns c ++ [mkClientConn (cc_c cc) (createdTime cc) now])).

(** ** The request executor *)

(** [getClientName], lines 1319-1332, on the client alone. *)
Definition getClientName_hc (c : HostClient) : string * HostClient :=
  match clientName c with
  | None =>
      let n := if String.eqb (Name c) EmptyString then defaultUserAgent
               else Name c in
      (n, set_clientName c (Some n))
  | Some n => (n, c)
  end.

Definition getClientName : M string := fun w =>
  let (n, c) := getClientName_hc (w_hc w) in
  (n, mkWorld c (w_trace w) (w_attempt w)).

(** The observations of the exchange that starts now; the exchange counter
    of the world moves on. *)
Definition next_exchange (env : nat -> exchange_io) : M exchange_io := fun w =>
  (env (w_attempt w), mkWorld (w_hc w) (w_trace w) (S (w_attempt w))).

(** Line 966. *)
Definition store_lastUseTime (x : exchange_io) : M unit :=
  modify_hc (fun c =>
    set_lastUseTime c (uint32 (wrap64 (Unix (x_now_start x) - startTimeUnix)))).

(** The condition of line 982. *)
Definition resetConnection_of (c : HostClient) (cc : clientConn)
    (x : exchange_io) (req : Request) : bool :=
  (0 <? MaxConnDuration c)
  && (MaxConnDuration c <? Since (x_now_age x) (createdTime cc))
  && negb (ConnectionClose req).

(** Line 1027. *)
Definition mustSkipBody (req : Request) : bool := negb (IsGet req) && IsHead req.

Definition releaseScratch (nilResp : bool) : M unit :=
  if nilResp then emit EvReleaseResponse else ret tt.

(** What the caller sees of the response: nothing when it passed nil. *)
Definition seen (nilResp : bool) (r : Response) : option Response :=
  if nilResp then None else Some r.

(** [HostClient.do], lines 961-1058.  The result carries the response as
    the caller finds it afterwards. *)
Definition do (env : nat -> exchange_io) (req : Request)
    (resp : option Response) : M (bool * option error * option Response) :=
  x <- next_exchange env ;;
  store_lastUseTime x ;;;
  r <- acquireConn (x_dial x) ;;
  match r with
  | inr err => ret (false, Some err, resp)
  | inl cc =>
    let conn := cc_c cc in
    c <- get_hc ;;
    err <- (if 0 <? WriteTimeout c then
              emit (EvSetWriteDeadline conn (Add (x_now_write x) (WriteTimeout c))) ;;;
              ret (x_setWriteDeadline x)
            else ret None) ;;
    match err with
    | Some e => closeConn cc ;;; ret (true, Some e, resp)
    | None =>
      let resetConnection := resetConnection_of c cc x req in
      let req1 := if resetConnection then SetConnectionClose req else req in
      let userAgentOld := req_userAgent req1 in
      req2 <- (if String.eqb userAgentOld EmptyString then
                 n <- getClientName ;; ret (set_req_userAgent req1 n)
               else ret req1) ;;
      emit (EvWrite conn (ConnectionClose req2) (req_userAgent req2)) ;;;
      let err := x_write x in
      let req3 := if String.eqb userAgentOld EmptyString
                  then set_req_userAgent req2 userAgentOld else req2 in
      let req4 := if resetConnection then ResetConnectionClose req3 else req3 in
      err <- (match err with
              | None => emit (EvFlush conn) ;;; ret (x_flush x)
              | Some _ => ret err
              end) ;;
      match err with
      | Some e => closeConn cc ;;; ret (true, Some e, resp)
      | None =>
        let nilResp := match resp with None => true | Some _ => false end in
        resp0 <- (match resp with
                  | None => emit EvAcquireResponse ;;; ret emptyResponse
                  | Some r => ret r
                  end) ;;
        err <- (if 0 <? ReadTimeout c then
                  emit (EvSetReadDeadline conn (Add (x_now_read x) (ReadTimeout c))) ;;;
                  ret (x_setReadDeadline x)
                else ret None) ;;
        match err with
        | Some e =>
            releaseScratch nilResp ;;;
            closeConn cc ;;;
            ret (true, Some e, seen nilResp resp0)
        | None =>
          let resp1 := if mustSkipBody req4 then set_SkipBody resp0 true else resp0 in
          let resp2 := if DisableHeaderNamesNormalizing c
                       then DisableNormalizing resp1 else resp1 in
          emit (EvReadLimitBody conn (SkipBody resp2) (MaxResponseBodySize c)) ;;;
          let (err, resp3) := x_read x resp2 (MaxResponseBodySize c) in
          match err with
          | Some e =>
              releaseScratch nilResp ;;;
              closeConn cc ;;;
              ret (err_is err io_EOF, Some e, seen nilResp resp3)
          | None =>
              (if resetConnection || ConnectionClose req4 || resp_connectionClose resp3
               then closeConn cc
               else releaseConn (x_now_release x) cc) ;;;
              releaseScratch nilResp ;;;
              ret (false, None, seen nilResp resp3)
          end
        end
      end
    end
  end.

Definition isIdempotent (req : Request) : bool :=
  IsGet req || IsHead req || IsPut req.

Definition is_some {A : Type} (o : option A) : bool :=
  match o with Some _ => true | None => false end.

(** [HostClient.Do], lines 946-955. *)
Definition Do (env : nat -> exchange_io) (req : Request)
    (resp : option Response) : M (option error * option Response) :=
  r <- do env req resp ;;
  let '(retry, err, resp1) := r in
  r2 <- (if is_some err && retry && isIdempotent req then
           r' <- do env req resp1 ;;
           ret (snd (fst r'), snd r')
         else ret (err, resp1)) ;;
  let (err2, resp2) := r2 in
  ret (if err_is err2 io_EOF then Some ErrConnectionClosed else err2, resp2).

(** ** The clientDoer interface *)

(** [type clientDoer interface { Do(req *Request, resp *Response) error }]:
    a doer with state [C] answers with an error, leaves the response as the
    caller finds it afterwards, and moves to a new state. *)
Class clientDoer (C : Type) : Type := {
  doer_Do : Request -> option Response -> C -> option error * option Response * C
}.

(** A [HostClient] (with the world around it) is a doer. *)
Definition HostClient_doer (env : nat -> exchange_io) : clientDoer World :=
  {| doer_Do := fun req resp w =>
       let '(err, resp1, w1) := Do env req resp w in (err, resp1, w1) |}.

(** A doer that replays a script of answers, whatever it is asked; with the
    script used up it fails. *)
Definition scripted_doer : clientDoer (list (option error * Response)) :=
  {| doer_Do := fun _ resp s =>
       match s with
       | [] => (Some (ErrExternal 0), resp, [])
       | (err, r) :: s' => (err, Some r, s')
       end |}.

(** ** The deadline harness *)

Section Doer.

Context {C : Type} {D : clientDoer C}.

(** [updateSleepTime], lines 851-868. *)
Definition updateSleepTime (h : deadline_io) (prevTime : Duration)
    (deadline : Time) : Duration :=
  let sleepTime := wrap64 (prevTime * 2) in
  let sleepTime := if sleepTime =? 0
                   then wrap64 ((10 + h_rand h) * Millisecond)
                   else sleepTime in
  let remainingTime := Sub deadline (h_now_sleep h) in
  if remainingTime <=? sleepTime then
    let sleepTime := wrap64 (remainingTime + 10 * Millisecond) in
    if sleepTime <? 0 then 10 * Millisecond else sleepTime
  else sleepTime.

(** What a call of the harness leaves: the error, the caller's request and
    response, the doer, and what the harness did. *)
Record harness_result : Type := mkHarnessResult {
  hr_err : option error;
  hr_req : Request;
  hr_resp : Response;
  hr_doer : C;
  hr_events : list hevent
}.

(** [clientDoDeadlineFreeConn], lines 870-927.  The background call is
    started before the select; when the timer fires first the call still
    runs to its end (lines 890-896), so its effect on the doer is kept and
    only its answer is dropped. *)
Definition clientDoDeadlineFreeConn (h : deadline_io) (req : Request)
    (resp : Response) (deadline : Time) (s : C) : harness_result :=
  let timeout := wrap64 (- Since (h_now_check h) deadline) in
  if timeout <=? 0 then mkHarnessResult (Some ErrTimeout) req resp s []
  else
    let reqCopy := req_copyToSkipBody req emptyRequest in
    let (req1, reqCopy1) := swapRequestBody req reqCopy in
    let respCopy := emptyResponse in
    let '(err, respOut, s1) := doer_Do reqCopy1 (Some respCopy) s in
    if h_timer_wins h
    then mkHarnessResult (Some ErrTimeout) req1 resp s1 [HSpawn]
    else
      let respCopy1 := match respOut with Some r => r | None => respCopy end in
      let resp1 := resp_copyToSkipBody respCopy1 resp in
      let resp2 := fst (swapResponseBody resp1 respCopy1) in
      mkHarnessResult err req1 resp2 s1 [HSpawn].

(** [clientDoDeadline], lines 839-849: round [i] of the loop, with
    [fuel] rounds allowed; [None] when they are used up.  [tr] is what the
    harness did in the rounds before. *)
Fixpoint clientDoDeadline_loop (hio : nat -> deadline_io) (fuel i : nat)
    (sleepTime : Duration) (req : Request) (resp : Response)
    (deadline : Time) (s : C) (tr : list hevent) : option harness_result :=
  match fuel with
  | O => None
  | S fuel' =>
      let r := clientDoDeadlineFreeConn (hio i) req resp deadline s in
      if negb (err_is (hr_err r) ErrNoFreeConns) then
        Some (mkHarnessResult (hr_err r) (hr_req r) (hr_resp r) (hr_doer r)
                (tr ++ hr_events r))
      else
        let sleepTime1 := updateSleepTime (hio i) sleepTime deadline in
        clientDoDeadline_loop hio fuel' (S i) sleepTime1 (hr_req r) (hr_resp r)
          deadline (hr_doer r) (tr ++ hr_events r ++ [HSleep sleepTime1])
  end.

Definition clientDoDeadline (hio : nat -> deadline_io) (fuel : nat)
    (req : Request) (resp : Response) (deadline : Time) (s : C)
    : option harness_result :=
  clientDoDeadline_loop hio fuel 0 0 req resp deadline s [].

(** [clientDoTimeout], lines 834-837; [now] is the reading of line 835. *)
Definition clientDoTimeout (hio : nat -> deadline_io) (fuel : nat)
    (now : Time) (req : Request) (resp : Response) (timeout : Duration)
    (s : C) : option harness_result :=
  clientDoDeadline hio fuel req resp (Add now timeout) s.

(** ** The redirect follower *)

Definition getRedirectURL (baseURL location : string) : string :=
  uri_resolve baseURL location.

(** What the follower reaches: the status code, the error, the request and
    the response as they are then, and the doer. *)
Record follow_result : Type := mkFollowResult {
  fr_statusCode : Z;
  fr_err : option error;
  fr_req : Request;
  fr_resp : Response;
  fr_doer : C
}.

(** The loop of lines 713-737, with [fuel] rounds allowed. *)
Fixpoint follow_loop (fuel : nat) (req : Request) (resp : Response)
    (url : string) (statusCode redirectsCount : Z) (s : C)
    : option follow_result :=
  match fuel with
  | O => None
  | S fuel' =>
      let req1 := SetRequestURI_fresh req url in
      let '(err, respOut, s1) := doer_Do req1 (Some resp) s in
      let resp1 := match respOut with Some r => r | None => resp end in
      match err with
      | Some e => Some (mkFollowResult statusCode (Some e) req1 resp1 s1)
      | None =>
          let statusCode := resp_statusCode resp1 in
          if negb (statusCode =? StatusMovedPermanently)
             && negb (statusCode =? StatusFound)
             && negb (statusCode =? StatusSeeOther)
          then Some (mkFollowResult statusCode None req1 resp1 s1)
          else
            let redirectsCount := wrap64 (redirectsCount + 1) in
            if maxRedirectsCount <? redirectsCount
            then Some (mkFollowResult statusCode (Some errTooManyRedirects)
                         req1 resp1 s1)
            else
              let location := resp_location resp1 in
              if String.eqb location EmptyString
              then Some (mkFollowResult statusCode (Some errMissingLocation)
                           req1 resp1 s1)
              else follow_loop fuel' req1 resp1 (getRedirectURL url location)
                     statusCode redirectsCount s1
      end
  end.

(** [doRequestFollowRedirects], lines 707-744: status code, body, error,
    and the doer afterwards.  The loop never needs more than
    [maxRedirectsCount + 1] rounds. *)
Definition doRequestFollowRedirects (req : Request) (dst : string)
    (url : string) (s : C) : option (Z * string * option error * C) :=
  let resp := set_resp_body emptyResponse dst in
  match follow_loop (S (Z.to_nat maxRedirectsCount)) req resp url 0 0 s with
  | None => None
  | Some r => Some (fr_statusCode r, resp_body (fr_resp r), fr_err r, fr_doer r)
  end.

End Doer.

(** [HostClient.DoDeadline] and [HostClient.DoTimeout]. *)
Definition DoDeadline (env : nat -> exchange_io) (hio : nat -> deadline_io)
    (fuel : nat) (req : Request) (resp : Response) (deadline : Time) (w : World) :=
  clientDoDeadline (D := HostClient_doer env) hio fuel req resp deadline w.

Definition DoTimeout (env : nat -> exchange_io) (hio : nat -> deadline_io)
    (fuel : nat) (now : Time) (req : Request) (resp : Response)
    (timeout : Duration) (w : World) :=
  clientDoTimeout (D := HostClient_doer env) hio fuel now req resp timeout w.

(** ** Sequences of pool operations *)

(** The callers of the pool: an executor takes a slot with acquireConn and
    gives it back with releaseConn or closeConn, once. *)
Inductive pool_op : Type :=
| OpAcquire (d : dial_io)
| OpRelease (now : Time) (cc : clientConn)
| OpClose (cc : clientConn).

(** Takes one occurrence of [cc] out of the slots in use. *)
Fixpoint take_held (cc : clientConn) (held : list clientConn)
    : option (list clientConn) :=
  match held with
  | [] => None
  | h :: held' =>
      if clientConn_eqb cc h then Some held'
      else match take_held cc held' with
           | Some l => Some (h :: l)
           | None => None
           end
  end.

(** One operation on the world and the slots in use; [None] when a slot
    that is not in use is given back. *)
Definition run_op (o : pool_op) (st : World * list clientConn)
    : option (World * list clientConn) :=
  let (w, held) := st in
  match o with
  | OpAcquire d =>
      match acquireConn d w with
      | (inl cc, w1) => Some (w1, cc :: held)
      | (inr _, w1) => Some (w1, held)
      end
  | OpRelease now cc =>
      match take_held cc held with
      | Some held' => Some (snd (releaseConn now cc w), held')
      | None => None
      end
  | OpClose cc =>
      match take_held cc held with
      | Some held' => Some (snd (closeConn cc w), held')
      | None => None
      end
  end.

Fixpoint run_ops (ops : list pool_op) (st : World * list clientConn)
    : option (World * list clientConn) :=
  match ops with
  | [] => Some st
  | o :: ops' =>
      match run_op o st with
      | Some st' => run_ops ops' st'
      | None => None
      end
  end.

(** ** Predicates used in the statements *)

(** A dial moves the address cursor and extends the trace, nothing else. *)
Definition dial_frame (w w' : World) : Prop :=
  (exists l i, w_hc w' = set_addrs (w_hc w) l i)
  /\ w_attempt w' = w_attempt w.

(** The slots in existence are the idle ones and the ones in use, and
    there are no more of them than the cap of the client [c0] allows. *)
Definition pool_inv (c0 : HostClient) (st : World * list clientConn) : Prop :=
  let c := w_hc (fst st) in
  MaxConns c = MaxConns c0
  /\ connsCount c = len (conns c) + len (snd st)
  /\ connsCount c <= maxConns_of c0.

(** The world in which an exchange that starts in [w] calls acquireConn. *)
Definition before_acquire (env : nat -> exchange_io) (w : World) : World :=
  snd (store_lastUseTime (env (w_attempt w)) (snd (next_exchange env w))).

(** The response that [do] hands to ReadLimitBody (lines 1011-1032): the
    caller's, or a fresh one when the caller passed nil, with SkipBody and
    the normalizing switch set as the request and the client ask. *)
Definition receiver (c : HostClient) (req : Request) (resp : option Response)
    : Response :=
  let resp0 := match resp with None => emptyResponse | Some r => r end in
  let resp1 := if mustSkipBody req then set_SkipBody resp0 true else resp0 in
  if DisableHeaderNamesNormalizing c then DisableNormalizing resp1 else resp1.

(** The response as read during the exchange [x]. *)
Definition response_read (c : HostClient) (x : exchange_io) (req : Request)
    (resp : option Response) : Response :=
  snd (x_read x (receiver c req resp) (MaxResponseBodySize c)).

(** The slot [cc], held in [w1], is closed in [w']: its transport is
    closed, it is not put on the idle list, and it is no longer counted. *)
Definition slot_closed (cc : clientConn) (w1 w' : World) : Prop :=
  (exists evs, w_trace w' = evs ++ w_trace w1
               /\ In (EvConnClose (cc_c cc)) evs)
  /\ conns (w_hc w') = conns (w_hc w1)
  /\ connsCount (w_hc w') = wrap64 (connsCount (w_hc w1) - 1).

(** The slot [cc], held in [w1], is released in [w']: it is at the tail of
    the idle list, stamped [now], still counted, and no transport is
    closed. *)
Definition slot_released (now : Time) (cc : clientConn) (w1 w' : World) : Prop :=
  (exists evs, w_trace w' = evs ++ w_trace w1
               /\ forall conn, ~ In (EvConnClose conn) evs)
  /\ conns (w_hc w') = conns (w_hc w1) ++ [mkClientConn (cc_c cc) (createdTime cc) now]
  /\ connsCount (w_hc w') = connsCount (w_hc w1).

(** The configuration of a client, which no operation changes. *)
Definition same_config (c c' : HostClient) : Prop :=
  Addr c' = Addr c /\ Name c' = Name c /\ hasDial c' = hasDial c
  /\ DialDualStack c' = DialDualStack c /\ IsTLS c' = IsTLS c
  /\ MaxConns c' = MaxConns c /\ MaxConnDuration c' = MaxConnDuration c
  /\ MaxIdleConnDuration c' = MaxIdleConnDuration c
  /\ ReadTimeout c' = ReadTimeout c /\ WriteTimeout c' = WriteTimeout c
  /\ MaxResponseBodySize c' = MaxResponseBodySize c
  /\ DisableHeaderNamesNormalizing c' = DisableHeaderNamesNormalizing c.

(** ** Tactics *)

(** The head of an application. *)
Ltac head_of t :=
  lazymatch t with
  | ?f _ => head_of f
  | _ => t
  end.

(** The scrutinee on which the evaluation of [t] is stuck. *)
Ltac blocker t :=
  lazymatch t with
  | (if ?b then _ else _) => blocker b
  | (match ?o with Some _ => _ | None => _ end) => blocker o
  | (match ?o with inl _ => _ | inr _ => _ end) => blocker o
  | (let (_, _) := ?p in _) => blocker p
  | fst ?p => blocker p
  | snd ?p => blocker p
  | _ =>
      let h := head_of t in
      lazymatch h with
      | (if _ then _ else _) => blocker h
      | (match _ with Some _ => _ | None => _ end) => blocker h
      | (match _ with inl _ => _ | inr _ => _ end) => blocker h
      | (let (_, _) := _ in _) => blocker h
      | _ => t
      end
  end.

(** The innermost test inside the term [t]. *)
Ltac innermost t :=
  lazymatch t with
  | context [if ?b then _ else _] => innermost b
  | context [match ?o with Some _ => _ | None => _ end] => innermost o
  | _ => t
  end.

(** Runs the computation on the left of [E : m w = (a, w')] in program
    order, one branch point at a time, down to its results. *)
Ltac exec_step E :=
  lazymatch type of E with
  | (_, _) = _ => fail
  | ?lhs = _ =>
      let b := blocker lhs in
      lazymatch b with
      | x_read _ _ _ => destruct b eqn:?; simpl in E
      | _ => let c := innermost b in destruct c eqn:?; simpl in E
      end
  end.

Ltac exec E := repeat exec_step E; inversion E; subst; clear E.

(** ** The paths of an exchange

    [do], once it holds a slot, ends in one of six ways.  The definitions
    below name them and say, path by path, what [do] returns and what it
    leaves behind; [do_summary] puts them together and is proved equal to
    [do] ([do_is_summary]). *)

Inductive outcome : Type :=
| FailWriteDeadline (e : error)     (* conn.SetWriteDeadline failed, line 975 *)
| FailWrite (e : error)             (* req.Write failed, line 992 *)
| FailFlush (e : error)             (* bw.Flush failed, line 1002 *)
| FailReadDeadline (e : error)      (* conn.SetReadDeadline failed, line 1018 *)
| FailRead (e : error)              (* resp.ReadLimitBody failed, line 1035 *)
| Clean.                            (* the exchange went through *)

Definition outcome_of (c : HostClient) (x : exchange_io) (req : Request)
    (resp : option Response) : outcome :=
  match (if 0 <? WriteTimeout c then x_setWriteDeadline x else None) with
  | Some e => FailWriteDeadline e
  | None =>
  match x_write x with
  | Some e => FailWrite e
  | None =>
  match x_flush x with
  | Some e => FailFlush e
  | None =>
  match (if 0 <? ReadTimeout c then x_setReadDeadline x else None) with
  | Some e => FailReadDeadline e
  | None =>
  match fst (x_read x (receiver c req resp) (MaxResponseBodySize c)) with
  | Some e => FailRead e
  | None => Clean
  end end end end end.

(** The error and the retry flag of each path. *)
Definition outcome_err (o : outcome) : option error :=
  match o with
  | FailWriteDeadline e | FailWrite e | FailFlush e
  | FailReadDeadline e | FailRead e => Some e
  | Clean => None
  end.

Definition outcome_retry (o : outcome) : bool :=
  match o with
  | FailWriteDeadline _ | FailWrite _ | FailFlush _ | FailReadDeadline _ => true
  | FailRead e => error_eqb e io_EOF
  | Clean => false
  end.

(** The disposition test of line 1048. *)
Definition mustClose (c : HostClient) (cc : clientConn) (x : exchange_io)
    (req : Request) (resp : option Response) : bool :=
  resetConnection_of c cc x req || ConnectionClose req
  || resp_connectionClose (response_read c x req resp).

(** Whether the path gets as far as serializing the request. *)
Definition reaches_write (o : outcome) : bool :=
  match o with FailWriteDeadline _ => false | _ => true end.

(** Whether the path gets as far as the response (line 1011). *)
Definition reaches_response (o : outcome) : bool :=
  match o with
  | FailWriteDeadline _ | FailWrite _ | FailFlush _ => false
  | _ => true
  end.

(** The events of an exchange on the slot [cc], newest first. *)
Definition exchange_events (c : HostClient) (cc : clientConn) (x : exchange_io)
    (req : Request) (resp : option Response) (ua : string) : list event :=
  let conn := cc_c cc in
  let o := outcome_of c x req resp in
  let nilResp := negb (is_some resp) in
  let wd := if 0 <? WriteTimeout c
            then [EvSetWriteDeadline conn (Add (x_now_write x) (WriteTimeout c))]
            else [] in
  let wr := [EvWrite conn (resetConnection_of c cc x req || ConnectionClose req) ua] in
  let fl := [EvFlush conn] in
  let acq := if nilResp then [EvAcquireResponse] else [] in
  let rel := if nilResp then [EvReleaseResponse] else [] in
  let rd := if 0 <? ReadTimeout c
            then [EvSetReadDeadline conn (Add (x_now_read x) (ReadTimeout c))]
            else [] in
  let rb := [EvReadLimitBody conn (SkipBody (receiver c req resp))
               (MaxResponseBodySize c)] in
  let cl := [EvConnClose conn] in
  match o with
  | FailWriteDeadline _ => cl ++ wd
  | FailWrite _ => cl ++ wr ++ wd
  | FailFlush _ => cl ++ fl ++ wr ++ wd
  | FailReadDeadline _ => cl ++ rel ++ rd ++ acq ++ fl ++ wr ++ wd
  | FailRead _ => cl ++ rel ++ rb ++ rd ++ acq ++ fl ++ wr ++ wd
  | Clean =>
      if mustClose c cc x req resp
      then rel ++ cl ++ rb ++ rd ++ acq ++ fl ++ wr ++ wd
      else rel ++ rb ++ rd ++ acq ++ fl ++ wr ++ wd
  end.

(** The response as the caller finds it after the exchange. *)
Definition exchange_response (c : HostClient) (x : exchange_io) (req : Request)
    (resp : option Response) : option Response :=
  match outcome_of c x req resp with
  | FailWriteDeadline _ | FailWrite _ | FailFlush _ | FailReadDeadline _ => resp
  | FailRead _ | Clean =>
      match resp with
      | None => None
      | Some _ => Some (response_read c x req resp)
      end
  end.

(** [do] from the point where it holds the slot [cc]. *)
Definition exchange_summary (x : exchange_io) (req : Request)
    (resp : option Response) (cc : clientConn) (w1 : World)
    : bool * option error * option Response * World :=
  let c := w_hc w1 in
  let o := outcome_of c x req resp in
  let named := reaches_write o && String.eqb (req_userAgent req) EmptyString in
  let ua := if named then fst (getClientName_hc c) else req_userAgent req in
  let c2 := if named then snd (getClientName_hc c) else c in
  let released := match o with
                  | Clean => negb (mustClose c cc x req resp)
                  | _ => false
                  end in
  let c3 := if released
            then set_conns c2 (conns c2 ++
                   [mkClientConn (cc_c cc) (createdTime cc) (x_now_release x)])
            else decConnsCount c2 in
  (outcome_retry o, outcome_err o, exchange_response c x req resp,
   mkWorld c3 (exchange_events c cc x req resp ua ++ w_trace w1) (w_attempt w1)).

Definition do_summary (env : nat -> exchange_io) (req : Request)
    (resp : option Response) (w : World)
    : bool * option error * option Response * World :=
  let x := env (w_attempt w) in
  match acquireConn (x_dial x) (before_acquire env w) with
  | (inr e, w1) => (false, Some e, resp, w1)
  | (inl cc, w1) => exchange_summary x req resp cc w1
  end.

(** The events about the pooled scratch response. *)
Definition is_scratch (e : event) : bool :=
  match e with
  | EvAcquireResponse | EvReleaseResponse => true
  | _ => false
  end.

(** What happens on the connection: the events of a trace without those
    about the scratch response and the calls of the message parser. *)
Definition wire_events (evs : list event) : list event :=
  filter (fun e =>
            match e with
            | EvAcquireResponse | EvReleaseResponse | EvReadLimitBody _ _ _ => false
            | _ => true
            end) evs.

(** The statuses that the follower takes for a redirect (line 722). *)
Definition is_redirect (statusCode : Z) : bool :=
  (statusCode =? StatusMovedPermanently) || (statusCode =? StatusFound)
  || (statusCode =? StatusSeeOther).

(** A redirect response that says where to go. *)
Definition redirect_with_location (r : Response) : Prop :=
  is_redirect (resp_statusCode r) = true /\ resp_location r <> EmptyString.

(** The calls that the follower makes, one after the other, when it
    starts with the request [req], the response [resp] and [url] on the
    doer in state [s]: the doer answers them with the responses [rs],
    without error, and is then in state [s'].  Each call is the one of
    line 717, on the request and the response as the round before has
    left them, for the URL that the Location of the answer before gives. *)
Inductive follows {C : Type} {D : clientDoer C}
    : Request -> Response -> string -> C -> list Response -> C -> Prop :=
| follows_nil (req : Request) (resp : Response) (url : string) (s : C) :
    follows req resp url s [] s
| follows_cons (req : Request) (resp : Response) (url : string) (s s1 s' : C)
    (r : Response) (rs : list Response) :
    doer_Do (SetRequestURI_fresh req url) (Some resp) s = (None, Some r, s1) ->
    follows (SetRequestURI_fresh req url) r
      (getRedirectURL url (resp_location r)) s1 rs s' ->
    follows req resp url s (r :: rs) s'.

(** ** Concrete inputs for the examples *)

(** A client for two addresses that allows one connection. *)
Definition ex_client : HostClient :=
  mkHostClient "a,b" "" false false false 1 0 0 0 0 0 false None 0 0 [] [] 0.

Definition ex_world : World := mkWorld ex_client [] 0.

(** A dialer that connects at once. *)
Definition ex_dial : dial_io :=
  mkDialIO 100 (fun i _ => inl (7 + i)%nat) (fun _ => 101) 102.

(** The slot that [ex_dial] yields. *)
Definition ex_cc : clientConn := mkClientConn (Some 7%nat) 102 zeroTime.

(** [ex_world] after one acquireConn: the only slot is in use. *)
Definition ex_busy : World :=
  mkWorld
    (mkHostClient "a,b" "" false false false 1 0 0 0 0 0 false None 0 1 []
       ["a"; "b"]%string 1)
    [EvStartCleaner; EvDial "a:80"] 0.

(** A server that answers 200 with a body. *)
Definition ex_read (r : Response) (maxBodySize : Z) : option error * Response :=
  (None, mkResponse 200 "" false (resp_disableNormalizing r) (SkipBody r) "hello").

(** An exchange in which everything goes well. *)
Definition ex_exchange : exchange_io :=
  mkExchangeIO 5000000000 ex_dial 1 None 2 None None 3 None ex_read 4.

Definition ex_env (n : nat) : exchange_io := ex_exchange.

(** [ex_world] at the point where the exchange [ex_exchange], started at
    second 1, holds its slot. *)
Definition ex_holding : World :=
  mkWorld
    (mkHostClient "a,b" "" false false false 1 0 0 0 0 0 false None 4 1 []
       ["a"; "b"]%string 1)
    [EvStartCleaner; EvDial "a:80"] 1.

Definition ex_get : Request :=
  mkRequest "GET" "/" "" false false "" "".

Definition ex_head : Request :=
  mkRequest "HEAD" "/" "" false false "" "".

(** A parser that fails on the body unless it is told to skip it. *)
Definition cx_read (r : Response) (maxBodySize : Z) : option error * Response :=
  if SkipBody r
  then (None, mkResponse 200 "" false (resp_disableNormalizing r) true "")
  else (Some (ErrExternal 1), r).

Definition cx_env (n : nat) : exchange_io :=
  mkExchangeIO 5000000000 ex_dial 1 None 2 None None 3 None cx_read 4.

(** A response in which an earlier use has left SkipBody set. *)
Definition cx_stale : Response := set_SkipBody emptyResponse true.

(** A client with a negative read timeout. *)
Definition cx_client : HostClient :=
  mkHostClient "a,b" "" false false false 1 0 0 (-1) 0 0 false None 0 0 [] [] 0.

(** Responses for the redirect follower. *)
Definition ex_redirect : Response := mkResponse 302 "/next" false false false "".

Definition ex_redirect_nowhere : Response := mkResponse 302 "" false false false "".

Definition ex_ok : Response := mkResponse 200 "" false false false "OK".

(** The script of a doer that answers the responses [rs] without error. *)
Definition script (rs : list Response) : list (option error * Response) :=
  map (fun r => (@None error, r)) rs.

Definition ex_post : Request :=
  mkRequest "POST" "/" "" false false "" "a=b".

(** A server that drops the first connection before it answers, and
    answers the second one. *)
Definition ex_eof_read (r : Response) (maxBodySize : Z) : option error * Response :=
  (Some io_EOF, r).

Definition ex_flaky_env (n : nat) : exchange_io :=
  match n with
  | O => mkExchangeIO 5000000000 ex_dial 1 None 2 None None 3 None ex_eof_read 4
  | S _ => ex_exchange
  end.

(** A dialer whose first attempt fails, quickly. *)
Definition ex_dial_second : dial_io :=
  mkDialIO 100
    (fun i _ => match i with O => inr (ErrExternal 9) | S _ => inl 8%nat end)
    (fun _ => 101) 102.

(** [ex_world] with the address list already split. *)
Definition ex_world_addrs : World :=
  mkWorld
    (mkHostClient "a,b" "" false false false 1 0 0 0 0 0 false None 0 0 []
       ["a"; "b"]%string 0)
    [] 0.

(** The clock of a caller of the harness: round [i] starts at [16 i] ms,
    the background call always answers before the timer. *)
Definition ex_hio (i : nat) : deadline_io :=
  mkDeadlineIO (Z.of_nat i * 16 * Millisecond) false 5
    (Z.of_nat i * 16 * Millisecond + Millisecond).

(** A server that answers the [n]-th exchange with the [n]-th response of
    a script (and with [ex_ok] when the script is used up), over
    connections that [ex_dial] makes. *)
Definition ex_server_read (a r : Response) (maxBodySize : Z)
    : option error * Response :=
  (None, mkResponse (resp_statusCode a) (resp_location a)
           (resp_connectionClose a) (resp_disableNormalizing r) (SkipBody r)
           (resp_body a)).

Definition ex_server (rs : list Response) (n : nat) : exchange_io :=
  mkExchangeIO 5000000000 ex_dial 1 None 2 None None 3 None
    (ex_server_read (nth n rs ex_ok)) 4.


(** ** The idle reaper *)

Definition DefaultMaxIdleConnDuration : Duration := 10 * Second.

(** Lines 1130-1134. *)
Definition maxIdleConnDuration_of (c : HostClient) : Duration :=
  if MaxIdleConnDuration c <=? 0 then DefaultMaxIdleConnDuration
  else MaxIdleConnDuration c.

(** The scan of lines 1141-1144: how many slots at the head of the idle
    list were last used more than [maxIdle] before [now]. *)
Fixpoint expired_prefix (now : Time) (maxIdle : Duration)
    (l : list clientConn) : nat :=
  match l with
  | [] => O
  | cc :: l' =>
      if maxIdle <? Sub now (lastUseTime cc)
      then S (expired_prefix now maxIdle l')
      else O
  end.

(** Lines 1138-1154, the part of a reaper cycle under [connsLock]: the
    slots to close, whether the reaper must stop, and the client with the
    surviving slots moved to the front. *)
Definition connsCleaner_locked (now : Time) (c : HostClient)
    : list clientConn * bool * HostClient :=
  let i := expired_prefix now (maxIdleConnDuration_of c) (conns c) in
  let mustStop := connsCount c =? Z.of_nat i in
  let scratch := firstn i (conns c) in
  let c1 := if (0 <? i)%nat then set_conns c (skipn i (conns c)) else c in
  (scratch, mustStop, c1).

(** Lines 1156-1159. *)
Fixpoint closeConns (scratch : list clientConn) : M unit :=
  match scratch with
  | [] => ret tt
  | cc :: rest => closeConn cc ;;; closeConns rest
  end.

(** One cycle of [connsCleaner] at time [now]; the result is [mustStop]. *)
Definition connsCleaner_cycle (now : Time) : M bool :=
  c <- get_hc ;;
  let '(scratch, mustStop, c1) := connsCleaner_locked now c in
  modify_hc (fun _ => c1) ;;;
  closeConns scratch ;;;
  ret mustStop.

(** [connsCleaner], lines 1126-1165, while nothing else touches the pool:
    cycle [i] runs at time [clock i]; the result is the number of cycles
    made, or [None] when [fuel] cycles were not enough. *)
Fixpoint connsCleaner (clock : nat -> Time) (fuel i : nat) : M (option nat) :=
  match fuel with
  | O => ret None
  | S fuel' =>
      mustStop <- connsCleaner_cycle (clock i) ;;
      if mustStop then ret (Some (S i))
      else connsCleaner clock fuel' (S i)
  end.

(** [HostClient.LastUseTime], lines 546-549; [time.Unix(sec, 0)] is the
    instant [sec] seconds after the epoch. *)
Definition LastUseTime (c : HostClient) : Time :=
  wrap64 (startTimeUnix + hc_lastUseTime c) * Second.

(** The idle list is in the order of last use, oldest first. *)
Fixpoint sorted_by_lastUse (l : list clientConn) : Prop :=
  match l with
  | [] => True
  | cc :: l' =>
      (forall cc', In cc' l' -> lastUseTime cc <= lastUseTime cc')
      /\ sorted_by_lastUse l'
  end.


(** The slot was last used more than [maxIdle] before [now]. *)
Definition expired (now : Time) (maxIdle : Duration) (cc : clientConn) : Prop :=
  maxIdle < Sub now (lastUseTime cc).

(** The times at which the operations [ops] release a slot, in order. *)
Fixpoint release_times (ops : list pool_op) : list Time :=
  match ops with
  | [] => []
  | OpRelease now _ :: ops' => now :: release_times ops'
  | _ :: ops' => release_times ops'
  end.

(** The clock readings [ts] do not go backwards. *)
Fixpoint nondecreasing (ts : list Time) : Prop :=
  match ts with
  | [] => True
  | t :: ts' => (forall t', In t' ts' -> t <= t') /\ nondecreasing ts'
  end.


(** A dialer that connects at every attempt. *)
Definition always_connects (d : dial_io) : Prop :=
  forall i addr, exists conn, dio_dial d i addr = inl conn.


(** The address list that nextAddr works on: [addrs], or the split of
    [Addr] while [addrs] is still nil (lines 1249-1251). *)
Definition addrs_of (c : HostClient) : list string :=
  match addrs c with
  | [] => split_comma (Addr c)
  | _ => addrs c
  end.

(** [k] calls of nextAddr in a row, and the addresses they return. *)
Fixpoint nextAddrs (k : nat) : M (list string) :=
  match k with
  | O => ret []
  | S k' =>
      a <- nextAddr ;;
      rest <- nextAddrs k' ;;
      ret (a :: rest)
  end.


(** ** The client for many hosts

    [Client] keeps one [HostClient] per host in two maps, [m] for http
    and [ms] for https (lines 309-388).  The maps hold pointers: the
    clients live in a store, and a map gives the place of a host's client
    in it, so that a client that [mCleaner] drops from its map is still
    there for the caller that holds it. *)

Variable uri_host : Request -> string.             (* req.URI().Host() *)
Variable uri_scheme : Request -> string.           (* req.URI().Scheme() *)

Definition Minute : Duration := 60 * Second.

(** The settings of [Client] that reach its host clients. *)
Record Client : Type := mkClient {
  cl_Name : string;
  cl_hasDial : bool;                               (* c.Dial != nil *)
  cl_DialDualStack : bool;
  cl_MaxConnsPerHost : Z;
  cl_MaxIdleConnDuration : Duration;
  cl_ReadTimeout : Duration;
  cl_WriteTimeout : Duration;
  cl_MaxResponseBodySize : Z;
  cl_DisableHeaderNamesNormalizing : bool
}.

(** The literal of lines 334-349; what it leaves out is zero. *)
Definition newHostClient (cl : Client) (host : string) (isTLS : bool)
    : HostClient :=
  mkHostClient (addMissingPort host isTLS) (cl_Name cl) (cl_hasDial cl)
    (cl_DialDualStack cl) isTLS (cl_MaxConnsPerHost cl) 0
    (cl_MaxIdleConnDuration cl) (cl_ReadTimeout cl) (cl_WriteTimeout cl)
    (cl_MaxResponseBodySize cl) (cl_DisableHeaderNamesNormalizing cl)
    None 0 0 [] [] 0.

(** A [map[string]*HostClient]: hosts, each with the place of its client. *)
Definition hostMap : Type := list (string * nat).

Fixpoint m_lookup (k : string) (m : hostMap) : option nat :=
  match m with
  | [] => None
  | (k', id) :: m' => if String.eqb k k' then Some id else m_lookup k m'
  end.

(** The clients, the two maps, the number of [mCleaner] goroutines that
    run on each map, and the trace and exchange counter that the host
    clients share. *)
Record ClientWorld : Type := mkClientWorld {
  cw_store : list HostClient;
  cw_m : hostMap;
  cw_ms : hostMap;
  cw_cleaners_m : nat;
  cw_cleaners_ms : nat;
  cw_trace : list event;
  cw_attempt : nat
}.

Definition emptyClientWorld : ClientWorld := mkClientWorld [] [] [] 0 0 [] 0.

Definition cw_map (isTLS : bool) (cw : ClientWorld) : hostMap :=
  if isTLS then cw_ms cw else cw_m cw.

Definition cw_cleaners (isTLS : bool) (cw : ClientWorld) : nat :=
  if isTLS then cw_cleaners_ms cw else cw_cleaners_m cw.

(** The map of one scheme and its cleaners, replaced. *)
Definition set_map (isTLS : bool) (m : hostMap) (n : nat) (cw : ClientWorld)
    : ClientWorld :=
  if isTLS
  then mkClientWorld (cw_store cw) (cw_m cw) m (cw_cleaners_m cw) n
         (cw_trace cw) (cw_attempt cw)
  else mkClientWorld (cw_store cw) m (cw_ms cw) n (cw_cleaners_ms cw)
         (cw_trace cw) (cw_attempt cw).

Definition set_store (s : list HostClient) (cw : ClientWorld) : ClientWorld :=
  mkClientWorld s (cw_m cw) (cw_ms cw) (cw_cleaners_m cw) (cw_cleaners_ms cw)
    (cw_trace cw) (cw_attempt cw).

(** Where [Client.Do] sends a request. *)
Inductive routed : Type :=
| Unsupported (scheme : string)          (* neither http nor https *)
| Routed (id : nat) (startCleaner : bool).

(** Lines 322-354, the part of [Client.Do] under [mLock], for the map of
    one scheme; with [startCleaner] the goroutine of line 357 is started. *)
Definition route_to (cl : Client) (host : string) (isTLS : bool)
    (cw : ClientWorld) : routed * ClientWorld :=
  let m := cw_map isTLS cw in
  match m_lookup host m with
  | Some id => (Routed id false, cw)
  | None =>
      let id := List.length (cw_store cw) in
      let m1 := (host, id) :: m in
      let startCleaner := len m1 =? 1 in
      (Routed id startCleaner,
       set_map isTLS m1
         (if startCleaner then S (cw_cleaners isTLS cw) else cw_cleaners isTLS cw)
         (set_store (cw_store cw ++ [newHostClient cl host isTLS]) cw))
  end.

(** [Client.Do] up to the call of [hc.Do], lines 309-358. *)
Definition Client_Do_locked (cl : Client) (req : Request) (cw : ClientWorld)
    : routed * ClientWorld :=
  let host := uri_host req in
  let scheme := uri_scheme req in
  if String.eqb scheme "https" then route_to cl host true cw
  else if negb (String.eqb scheme "http") then (Unsupported scheme, cw)
  else route_to cl host false cw.

Fixpoint store_update (id : nat) (hc : HostClient) (s : list HostClient)
    {struct s} : list HostClient :=
  match s with
  | [] => []
  | a :: s' =>
      match id with
      | O => hc :: s'
      | S id' => a :: store_update id' hc s'
      end
  end.

(** [hc.Do(req, resp)] on the client at [id]; [None] for a place that
    holds no client. *)
Definition Do_at (env : nat -> exchange_io) (id : nat) (req : Request)
    (resp : option Response) (cw : ClientWorld)
    : option (option error * option Response * ClientWorld) :=
  match nth_error (cw_store cw) id with
  | None => None
  | Some hc =>
      let '(err, resp1, w1) :=
        Do env req resp (mkWorld hc (cw_trace cw) (cw_attempt cw)) in
      Some (err, resp1,
            mkClientWorld (store_update id (w_hc w1) (cw_store cw))
              (cw_m cw) (cw_ms cw) (cw_cleaners_m cw) (cw_cleaners_ms cw)
              (w_trace w1) (w_attempt w1))
  end.

(** The errors of [Client.Do]: the one of line 318, or one of [hc.Do]. *)
Inductive client_error : Type :=
| ErrUnsupportedProtocol (scheme : string)
| ErrOfHost (e : error).

(** [Client.Do], lines 309-361. *)
Definition Client_Do (cl : Client) (env : nat -> exchange_io) (req : Request)
    (resp : option Response) (cw : ClientWorld)
    : option (option client_error * option Response * ClientWorld) :=
  match Client_Do_locked cl req cw with
  | (Unsupported scheme, cw1) =>
      Some (Some (ErrUnsupportedProtocol scheme), resp, cw1)
  | (Routed id _, cw1) =>
      match Do_at env id req resp cw1 with
      | Some (err, resp1, cw2) => Some (option_map ErrOfHost err, resp1, cw2)
      | None => None
      end
  end.

(** The test of line 374 on one entry of the map. *)
Definition stale (t : Time) (s : list HostClient) (kv : string * nat) : bool :=
  match nth_error s (snd kv) with
  | Some hc => Minute <? Sub t (LastUseTime hc)
  | None => false
  end.

(** Lines 371-381, the part of a round of [mCleaner] under [mLock]. *)
Definition mCleaner_locked (t : Time) (s : list HostClient) (m : hostMap)
    : hostMap * bool :=
  let m1 := filter (fun kv => negb (stale t s kv)) m in
  (m1, len m1 =? 0).

(** One round of an [mCleaner] that runs on the map of one scheme; [None]
    when none runs.  With [mustStop] the goroutine ends. *)
Definition mCleaner_cycle (isTLS : bool) (t : Time) (cw : ClientWorld)
    : option (bool * ClientWorld) :=
  match cw_cleaners isTLS cw with
  | O => None
  | S n =>
      let (m1, mustStop) := mCleaner_locked t (cw_store cw) (cw_map isTLS cw) in
      Some (mustStop, set_map isTLS m1 (if mustStop then n else S n) cw)
  end.

(** What goes on in a [Client]: requests are routed, exchanges run on the
    host clients, and the cleaners make their rounds, in any order. *)
Inductive client_op : Type :=
| OpRoute (req : Request)
| OpExchange (env : nat -> exchange_io) (id : nat) (req : Request)
    (resp : option Response)
| OpClean (isTLS : bool) (t : Time).

Definition run_client_op (cl : Client) (o : client_op) (cw : ClientWorld)
    : option ClientWorld :=
  match o with
  | OpRoute req => Some (snd (Client_Do_locked cl req cw))
  | OpExchange env id req resp =>
      match Do_at env id req resp cw with
      | Some r => Some (snd r)
      | None => None
      end
  | OpClean isTLS t =>
      match mCleaner_cycle isTLS t cw with
      | Some r => Some (snd r)
      | None => None
      end
  end.

Fixpoint run_client_ops (cl : Client) (ops : list client_op) (cw : ClientWorld)
    : option ClientWorld :=
  match ops with
  | [] => Some cw
  | o :: ops' =>
      match run_client_op cl o cw with
      | Some cw1 => run_client_ops cl ops' cw1
      | None => None
      end
  end.

(** On every map one cleaner runs if the map has an entry, and none
    otherwise; the hosts of a map are distinct and each entry points to a
    client of the store. *)
Definition map_inv (isTLS : bool) (cw : ClientWorld) : Prop :=
  cw_cleaners isTLS cw = (if len (cw_map isTLS cw) =? 0 then 0%nat else 1%nat)
  /\ NoDup (map fst (cw_map isTLS cw))
  /\ Forall (fun kv => (snd kv < List.length (cw_store cw))%nat) (cw_map isTLS cw).

Definition router_inv (cw : ClientWorld) : Prop :=
  map_inv false cw /\ map_inv true cw.


(** ** Get and Post by URL *)

(** Modelled from the spec: the request that [AcquireRequest] hands to
    Get by URL.  Nothing sets its method, and the method of such a request
    reads as GET (header.go is not part of the sources); the spec has Get
    as a "convenience over Do + redirect follower" that sends a GET. *)
Definition freshRequest : Request :=
  mkRequest "GET" EmptyString EmptyString false false EmptyString EmptyString.

Section URLDoer.

Context {C : Type} {D : clientDoer C}.

(** [clientGetURL], lines 593-600: the request is a fresh one, a GET;
    [None] only if the follower were to run out of rounds. *)
Definition clientGetURL (dst url : string) (s : C)
    : option (Z * string * option error * C) :=
  doRequestFollowRedirects freshRequest dst url s.

(** [clientPostURL], lines 686-698; [postArgs] is what the arguments
    serialize to, [None] for nil.  The content type is not among the
    fields of [Request] kept here. *)
Definition clientPostURL (dst url : string) (postArgs : option string) (s : C)
    : option (Z * string * option error * C) :=
  let req := mkRequest "POST" EmptyString EmptyString false false EmptyString
               EmptyString in
  let req := match postArgs with
             | Some args => set_req_body req (req_body req ++ args)
             | None => req
             end in
  doRequestFollowRedirects req dst url s.

(** What a call of the Get harness leaves. *)
Record url_result : Type := mkURLResult {
  ur_statusCode : Z;
  ur_body : string;
  ur_err : option error;
  ur_doer : C;
  ur_events : list hevent
}.

(** [clientGetURLDeadlineFreeConn], lines 624-682.  As in
    [clientDoDeadlineFreeConn] the background call runs to its end also
    when the timer fires first. *)
Definition clientGetURLDeadlineFreeConn (h : deadline_io) (dst url : string)
    (deadline : Time) (s : C) : option url_result :=
  let timeout := wrap64 (- Since (h_now_check h) deadline) in
  if timeout <=? 0 then Some (mkURLResult 0 dst (Some ErrTimeout) s [])
  else
    match doRequestFollowRedirects freshRequest dst url s with
    | None => None
    | Some (statusCode, body, err, s1) =>
        if h_timer_wins h
        then Some (mkURLResult 0 dst (Some ErrTimeout) s1 [HSpawn])
        else Some (mkURLResult statusCode body err s1 [HSpawn])
    end.

(** [clientGetURLDeadline], lines 607-616: round [i], with [fuel] rounds
    allowed. *)
Fixpoint clientGetURLDeadline_loop (hio : nat -> deadline_io) (fuel i : nat)
    (sleepTime : Duration) (dst url : string) (deadline : Time) (s : C)
    (tr : list hevent) : option url_result :=
  match fuel with
  | O => None
  | S fuel' =>
      match clientGetURLDeadlineFreeConn (hio i) dst url deadline s with
      | None => None
      | Some r =>
          if negb (err_is (ur_err r) ErrNoFreeConns) then
            Some (mkURLResult (ur_statusCode r) (ur_body r) (ur_err r)
                    (ur_doer r) (tr ++ ur_events r))
          else
            let sleepTime1 := updateSleepTime (hio i) sleepTime deadline in
            clientGetURLDeadline_loop hio fuel' (S i) sleepTime1 dst url
              deadline (ur_doer r) (tr ++ ur_events r ++ [HSleep sleepTime1])
      end
  end.

Definition clientGetURLDeadline (hio : nat -> deadline_io) (fuel : nat)
    (dst url : string) (deadline : Time) (s : C) : option url_result :=
  clientGetURLDeadline_loop hio fuel 0 0 dst url deadline s [].

(** [clientGetURLTimeout], lines 602-605; [now] is the reading of line 603. *)
Definition clientGetURLTimeout (hio : nat -> deadline_io) (fuel : nat)
    (now : Time) (dst url : string) (timeout : Duration) (s : C)
    : option url_result :=
  clientGetURLDeadline hio fuel dst url (Add now timeout) s.

End URLDoer.


(** ** Concrete inputs for the further properties *)

(** Two idle slots, last used at 0 s and at 15 s. *)
Definition ex_idle_old : clientConn := mkClientConn (Some 1%nat) 0 0.

Definition ex_idle_new : clientConn := mkClientConn (Some 2%nat) 0 (15 * Second).

(** A client with both slots idle, and one with the old slot only; the
    idle time allowed is the default, 10 s. *)
Definition ex_idle : World :=
  mkWorld
    (mkHostClient "a,b" "" false false false 0 0 0 0 0 0 false None 0 2
       [ex_idle_old; ex_idle_new] [] 0)
    [] 0.

Definition ex_stale : World :=
  mkWorld
    (mkHostClient "a,b" "" false false false 0 0 0 0 0 0 false None 0 1
       [ex_idle_old] [] 0)
    [] 0.

(** A client that allows two connections, and the slot of the second one,
    which [ex_dial_second] yields. *)
Definition ex_pool2 : World :=
  mkWorld
    (mkHostClient "a,b" "" false false false 2 0 0 0 0 0 false None 0 0 [] [] 0)
    [] 0.

Definition ex_cc8 : clientConn := mkClientConn (Some 8%nat) 102 zeroTime.

(** A dialer that never connects, and exchanges that dial with it. *)
Definition ex_dial_fails : dial_io :=
  mkDialIO 100 (fun _ _ => inr (ErrExternal 9)) (fun _ => 101) 102.

Definition ex_fail_env (n : nat) : exchange_io :=
  mkExchangeIO 5000000000 ex_dial_fails 1 None 2 None None 3 None ex_read 4.

(** A [Client] with default settings, a request for a host, and a URI
    reader that takes the host from the Host header and knows http only. *)
Definition ex_cl : Client := mkClient "" false false 0 0 0 0 0 false.

Definition ex_req_host : Request :=
  mkRequest "GET" "/" "example.com" false false "" "".

Definition ex_uri_host (req : Request) : string := req_host req.

Definition ex_uri_scheme (req : Request) : string := "http".


(** The [Client] after the request is routed, after its exchange, and
    after a round of the cleaner that came before the exchange. *)
Definition ex_routed : ClientWorld :=
  mkClientWorld [newHostClient ex_cl "example.com" false]
    [("example.com"%string, 0%nat)] [] 1 0 [] 0.

Definition ex_exchanged : ClientWorld :=
  mkClientWorld
    [mkHostClient "example.com:80" "" false false false 0 0 0 0 0 0 false
       (Some "fasthttp"%string) 4 1 [mkClientConn (Some 7%nat) 102 4]
       ["example.com:80"%string] 0]
    [("example.com"%string, 0%nat)] [] 1 0
    [EvReleaseResponse; EvReadLimitBody (Some 7%nat) false 0;
     EvAcquireResponse; EvFlush (Some 7%nat);
     EvWrite (Some 7%nat) false "fasthttp"; EvStartCleaner;
     EvDial "example.com:80"]
    1.

Definition ex_dropped : ClientWorld :=
  mkClientWorld [newHostClient ex_cl "example.com" false] [] [] 0 0 [] 0.

(** * Properties *)

Set Default Proof Using "Type".

(** ** Arithmetic and list helpers *)

Lemma wrap64_id (z : Z) : in_int64 z -> wrap64 z = z.
Proof.
  unfold in_int64, wrap64, minInt64, maxInt64. intros H.
  rewrite Z.mod_small; lia.
Qed.

Lemma pop_tail_none {A : Type} (l : list A) : pop_tail l = None -> l = [].
Proof.
  destruct l as [|x l]; simpl; [reflexivity|].
  destruct (pop_tail l) as [[front y]|]; discriminate.
Qed.

Lemma pop_tail_some {A : Type} (l front : list A) (y : A) :
  pop_tail l = Some (front, y) -> l = front ++ [y].
Proof.
  revert front y. induction l as [|x l IH]; simpl; intros front y H.
  - discriminate.
  - destruct (pop_tail l) as [[f z]|] eqn:E.
    + inversion H; subst. simpl. f_equal. apply IH. reflexivity.
    + inversion H; subst. apply pop_tail_none in E. subst. reflexivity.
Qed.

Lemma clientConn_eqb_eq (a b : clientConn) : clientConn_eqb a b = true -> a = b.
Proof.
  destruct a as [ca ta ua], b as [cb tb ub]. unfold clientConn_eqb. simpl.
  intros H. apply andb_prop in H. destruct H as [H Hu].
  apply andb_prop in H. destruct H as [Hc Ht].
  apply Z.eqb_eq in Hu, Ht. subst.
  destruct ca as [m|], cb as [n|]; simpl in Hc; try discriminate.
  - apply Nat.eqb_eq in Hc. subst. reflexivity.
  - reflexivity.
Qed.

Lemma take_held_length (cc : clientConn) (held held' : list clientConn) :
  take_held cc held = Some held' -> List.length held = S (List.length held').
Proof.
  revert held'. induction held as [|h held IH]; simpl; intros held' H.
  - discriminate.
  - destruct (clientConn_eqb cc h).
    + inversion H; subst. reflexivity.
    + destruct (take_held cc held) as [l|]; [|discriminate].
      inversion H; subst. simpl. f_equal. apply IH. reflexivity.
Qed.

(** ** What a dial leaves untouched *)

Lemma dial_frame_refl (w : World) : dial_frame w w.
Proof.
  split; [|reflexivity]. exists (addrs (w_hc w)), (addrIdx (w_hc w)).
  destruct w as [[] ? ?]; reflexivity.
Qed.

Lemma dial_frame_trans (w1 w2 w3 : World) :
  dial_frame w1 w2 -> dial_frame w2 w3 -> dial_frame w1 w3.
Proof.
  intros [[l [i H1]] A1] [[l' [i' H2]] A2]. split; [|congruence].
  exists l', i'. rewrite H2, H1. reflexivity.
Qed.

Lemma nextAddr_frame (w : World) : dial_frame w (snd (nextAddr w)).
Proof.
  unfold nextAddr.
  destruct (1 <? len _); simpl; (split; [eexists; eexists; reflexivity | reflexivity]).
Qed.

Lemma dialHost_frame (d : dial_io) (i : nat) (w : World) :
  dial_frame w (snd (dialHost d i w)).
Proof.
  unfold dialHost, bind, get_hc, emit, ret.
  pose proof (nextAddr_frame w) as H.
  destruct (nextAddr w) as [addr w1]. simpl in *.
  destruct H as [[l [j H]] A]. split; simpl; [|exact A].
  exists l, j. exact H.
Qed.

Lemma dialHostHard_loop_frame (d : dial_io) (deadline : Time) (n : nat) :
  forall i err w, dial_frame w (snd (dialHostHard_loop d deadline n i err w)).
Proof.
  induction n as [|n IH]; intros i err w; simpl.
  - apply dial_frame_refl.
  - unfold bind. pose proof (dialHost_frame d i w) as H.
    destruct (dialHost d i w) as [[conn|e] w1]; simpl in *.
    + exact H.
    + destruct (0 <=? Since (dio_after d i) deadline); simpl.
      * exact H.
      * eapply dial_frame_trans; [exact H | apply IH].
Qed.

Lemma dialHostHard_frame (d : dial_io) (w : World) :
  dial_frame w (snd (dialHostHard d w)).
Proof.
  unfold dialHostHard, bind, get_hc. apply dialHostHard_loop_frame.
Qed.

(** ** The pool *)

Lemma acquireConn_pool (d : dial_io) (w w' : World) (r : clientConn + error) :
  acquireConn d w = (r, w') ->
  let c := w_hc w in
  let c' := w_hc w' in
  MaxConns c' = MaxConns c
  /\ match r with
     | inl cc =>
         (conns c = conns c' ++ [cc] /\ connsCount c' = connsCount c)
         \/ (conns c = [] /\ conns c' = [] /\ connsCount c < maxConns_of c
             /\ connsCount c' = wrap64 (connsCount c + 1))
     | inr e =>
         conns c' = conns c
         /\ (connsCount c' = connsCount c
             \/ (conns c = [] /\ connsCount c < maxConns_of c
                 /\ connsCount c' = wrap64 (wrap64 (connsCount c + 1) - 1)))
     end.
Proof.
  unfold acquireConn, acquireConn_locked, bind, get_hc, modify_hc, ret.
  destruct (pop_tail (conns (w_hc w))) as [[front cc]|] eqn:E.
  - simpl. intros H. inversion H; subst; simpl. split; [reflexivity|].
    left. split; [apply pop_tail_some; exact E | reflexivity].
  - apply pop_tail_none in E.
    destruct (connsCount (w_hc w) <? maxConns_of (w_hc w)) eqn:Hlt; simpl.
    + apply Z.ltb_lt in Hlt.
      match goal with |- context [dialHostHard d ?w1] =>
        pose proof (dialHostHard_frame d w1) as F;
        destruct (dialHostHard d w1) as [[conn err] w2] end.
      simpl in F. destruct F as [[l [i F]] _]. simpl.
      destruct err as [e|].
      * intros H. inversion H; subst; simpl. rewrite F. simpl.
        split; [reflexivity|]. split; [reflexivity|]. right. auto.
      * unfold emit.
        destruct (wrap64 (connsCount (w_hc w) + 1) =? 1); simpl;
          intros H; inversion H; subst; simpl; rewrite F; simpl;
          (split; [reflexivity|]); right; auto.
    + intros H. inversion H; subst; simpl. auto.
Qed.

(** At the cap with nothing idle, acquireConn fails at once and leaves the
    world as it was. *)
Lemma acquireConn_at_cap (d : dial_io) (w : World) :
  conns (w_hc w) = [] ->
  maxConns_of (w_hc w) <= connsCount (w_hc w) ->
  acquireConn d w = (inr ErrNoFreeConns, w).
Proof.
  intros Hc Hcap.
  unfold acquireConn, acquireConn_locked, bind, get_hc, modify_hc, ret.
  rewrite Hc. simpl.
  destruct (connsCount (w_hc w) <? maxConns_of (w_hc w)) eqn:Hlt.
  - apply Z.ltb_lt in Hlt. lia.
  - simpl. destruct w; reflexivity.
Qed.

Lemma maxConns_of_range (c : HostClient) :
  in_int64 (MaxConns c) -> 0 < maxConns_of c <= maxInt64.
Proof.
  unfold in_int64, maxConns_of, DefaultMaxConnsPerHost, maxInt64, minInt64.
  destruct (MaxConns c <=? 0) eqn:E; [lia|]. apply Z.leb_gt in E. lia.
Qed.

Lemma maxConns_of_ext (c c' : HostClient) :
  MaxConns c = MaxConns c' -> maxConns_of c = maxConns_of c'.
Proof. unfold maxConns_of. intros ->. reflexivity. Qed.

Lemma len_app {A : Type} (l l' : list A) : len (l ++ l') = len l + len l'.
Proof. unfold len. rewrite length_app. lia. Qed.

Lemma len_nonneg {A : Type} (l : list A) : 0 <= len l.
Proof. unfold len. lia. Qed.

Lemma run_op_inv (c0 : HostClient) (o : pool_op) (st st' : World * list clientConn) :
  in_int64 (MaxConns c0) ->
  pool_inv c0 st -> run_op o st = Some st' -> pool_inv c0 st'.
Proof.
  intros Hr Hinv Hrun. destruct st as [w held].
  destruct Hinv as [Hm [Hc Hle]]. simpl in Hm, Hc, Hle.
  pose proof (maxConns_of_range c0 Hr) as Hrange.
  pose proof (len_nonneg (conns (w_hc w))) as Hn1.
  pose proof (len_nonneg held) as Hn2.
  unfold maxInt64 in Hrange.
  destruct o as [d|now cc|cc]; simpl in Hrun.
  - destruct (acquireConn d w) as [r w1] eqn:E.
    apply acquireConn_pool in E. simpl in E. destruct E as [Hm1 E].
    rewrite (maxConns_of_ext _ _ Hm) in E.
    destruct r as [cc|e]; inversion Hrun; subst; unfold pool_inv; simpl.
    + destruct E as [[E1 E2]|[E1 [E2 [E3 E4]]]].
      * rewrite E1, len_app in Hc. change (len [cc]) with 1 in Hc.
        split; [congruence|].
        change (len (cc :: held)) with (Z.of_nat (S (List.length held))).
        unfold len in *. lia.
      * rewrite E1 in Hc. rewrite E2.
        rewrite wrap64_id in E4 by (unfold in_int64, minInt64, maxInt64, len in *; simpl in *; lia).
        split; [congruence|].
        change (len (cc :: held)) with (Z.of_nat (S (List.length held))).
        unfold len in *. simpl in *. lia.
    + destruct E as [E1 [E2|[E2 [E3 E4]]]].
      * rewrite E1, E2. split; [congruence|]. lia.
      * rewrite E1.
        rewrite (wrap64_id (connsCount (w_hc w) + 1)) in E4
          by (unfold in_int64, minInt64, maxInt64, len in *; simpl in *; lia).
        rewrite wrap64_id in E4
          by (unfold in_int64, minInt64, maxInt64, len in *; simpl in *; lia).
        split; [congruence|]. lia.
  - destruct (take_held cc held) as [held'|] eqn:E; [|discriminate].
    inversion Hrun; subst. apply take_held_length in E.
    unfold pool_inv, releaseConn, modify_hc; simpl.
    rewrite len_app. change (len [_]) with 1.
    split; [exact Hm|]. unfold len in *. lia.
  - destruct (take_held cc held) as [held'|] eqn:E; [|discriminate].
    inversion Hrun; subst. apply take_held_length in E.
    unfold pool_inv, closeConn, decConnsCount, bind, modify_hc, emit; simpl.
    rewrite wrap64_id
      by (unfold in_int64, minInt64, maxInt64, len in *; simpl in *; lia).
    split; [exact Hm|]. unfold len in *. lia.
Qed.

Lemma run_ops_inv (c0 : HostClient) (ops : list pool_op) :
  in_int64 (MaxConns c0) ->
  forall st st', pool_inv c0 st -> run_ops ops st = Some st' -> pool_inv c0 st'.
Proof.
  intros Hr. induction ops as [|o ops IH]; simpl; intros st st' Hinv Hrun.
  - inversion Hrun; subst. exact Hinv.
  - destruct (run_op o st) as [st1|] eqn:E; [|discriminate].
    eapply IH; [|exact Hrun]. eapply run_op_inv; eauto.
Qed.

(** C1. Starting from a client with no connection, after any sequence of
    acquireConn, releaseConn and closeConn operations connsCount is at
    most the cap (MaxConns, or DefaultMaxConnsPerHost = 512 when MaxConns
    is not positive); and an acquireConn that finds no idle slot with
    connsCount at the cap returns ErrNoFreeConns with the world, trace
    included, exactly as it was: nothing is dialed and nothing waits. *)
Theorem pool_never_exceeds_cap (w0 w : World) (ops : list pool_op)
    (held : list clientConn) :
  in_int64 (MaxConns (w_hc w0)) ->
  connsCount (w_hc w0) = 0 ->
  conns (w_hc w0) = [] ->
  run_ops ops (w0, []) = Some (w, held) ->
  connsCount (w_hc w) <= maxConns_of (w_hc w0)
  /\ (MaxConns (w_hc w0) <= 0 -> connsCount (w_hc w) <= 512)
  /\ (0 < MaxConns (w_hc w0) -> connsCount (w_hc w) <= MaxConns (w_hc w0))
  /\ forall d : dial_io,
       conns (w_hc w) = [] ->
       connsCount (w_hc w) = maxConns_of (w_hc w0) ->
       acquireConn d w = (inr ErrNoFreeConns, w).
Proof.
  intros Hr H0 Hc Hrun.
  assert (Hinv : pool_inv (w_hc w0) (w, held)).
  { eapply run_ops_inv; [exact Hr| |exact Hrun].
    unfold pool_inv; simpl. rewrite H0, Hc.
    pose proof (maxConns_of_range _ Hr). unfold len; simpl. lia. }
  destruct Hinv as [Hm [Hcount Hle]]. simpl in Hm, Hcount, Hle.
  split; [exact Hle|].
  split.
  { intros Hneg. unfold maxConns_of, DefaultMaxConnsPerHost in Hle.
    apply Z.leb_le in Hneg. rewrite Hneg in Hle. exact Hle. }
  split.
  { intros Hpos. unfold maxConns_of in Hle.
    apply Z.leb_gt in Hpos. rewrite Hpos in Hle. exact Hle. }
  intros d Hidle Hcap. apply acquireConn_at_cap; [exact Hidle|].
  rewrite (maxConns_of_ext _ _ Hm). lia.
Qed.

(** ** dialHostHard *)

Lemma nextAddr_trace (w : World) : w_trace (snd (nextAddr w)) = w_trace w.
Proof. unfold nextAddr. destruct (1 <? len _); reflexivity. Qed.

Lemma dialHost_spec (d : dial_io) (i : nat) (w : World) :
  exists a, fst (dialHost d i w) = dio_dial d i a
            /\ w_trace (snd (dialHost d i w)) = EvDial a :: w_trace w.
Proof.
  unfold dialHost, bind, get_hc, emit, ret.
  pose proof (nextAddr_trace w) as H.
  destruct (nextAddr w) as [addr w1]. simpl in *.
  eexists. split; [reflexivity|]. rewrite H. reflexivity.
Qed.

Lemma dialHostHard_loop_spec (d : dial_io) (deadline : Time) (n : nat) :
  forall (i : nat) (err : option error) (w : World),
  exists tried : list string,
    w_trace (snd (dialHostHard_loop d deadline n i err w))
      = rev (map EvDial tried) ++ w_trace w
    /\ (List.length tried <= n)%nat
    /\ (n <> 0%nat -> tried <> [])
    /\ (forall j, (S j < List.length tried)%nat ->
          exists e, dio_dial d (i + j) (nth j tried EmptyString) = inr e
                    /\ Since (dio_after d (i + j)) deadline < 0)
    /\ match tried with
       | [] => fst (dialHostHard_loop d deadline n i err w) = (None, err)
       | _ =>
           let k := (i + (List.length tried - 1))%nat in
           match dio_dial d k (last tried EmptyString) with
           | inl conn =>
               fst (dialHostHard_loop d deadline n i err w) = (Some conn, None)
           | inr e =>
               fst (dialHostHard_loop d deadline n i err w) = (None, Some e)
               /\ (Since (dio_after d k) deadline < 0 -> List.length tried = n)
           end
       end.
Proof.
  induction n as [|n IH]; intros i err w.
  - exists []. simpl. repeat split; try lia; try congruence.
  - simpl. unfold bind.
    destruct (dialHost_spec d i w) as [a [Hr Ht]].
    destruct (dialHost d i w) as [r w1]. simpl in Hr, Ht. subst r.
    destruct (dio_dial d i a) as [conn|e] eqn:Ea.
    + exists [a]. simpl. rewrite Ht.
      repeat split; try lia; try congruence.
      replace (i + 0)%nat with i by lia. rewrite Ea. reflexivity.
    + destruct (0 <=? Since (dio_after d i) deadline) eqn:Ed.
      * apply Z.leb_le in Ed. exists [a]. simpl. rewrite Ht.
        repeat split; try lia; try congruence.
        replace (i + 0)%nat with i by lia. rewrite Ea.
        split; [reflexivity | lia].
      * apply Z.leb_gt in Ed.
        destruct (IH (S i) (Some e) w1) as [tried [T1 [T2 [T3 [T4 T5]]]]].
        destruct tried as [|b tried].
        -- exists [a]. simpl in *. rewrite T1, Ht.
           repeat split; try lia; try congruence.
           replace (i + 0)%nat with i by lia. rewrite Ea.
           split; [exact T5|]. intros _.
           destruct n as [|n]; [reflexivity|].
           exfalso. apply T3; [discriminate | reflexivity].
        -- exists (a :: b :: tried).
           split.
           { rewrite T1, Ht. simpl. rewrite <- !app_assoc. reflexivity. }
           split; [simpl in *; lia|].
           split; [discriminate|].
           split.
           { intros j Hj. destruct j as [|j].
             - exists e. replace (i + 0)%nat with i by lia. simpl. auto.
             - replace (i + S j)%nat with (S i + j)%nat by lia.
               apply T4. simpl in *. lia. }
           { change (last (a :: b :: tried) EmptyString)
               with (last (b :: tried) EmptyString).
             replace (i + (List.length (a :: b :: tried) - 1))%nat
               with (S i + (List.length (b :: tried) - 1))%nat
               by (simpl; lia).
             cbv zeta in T5.
             destruct (dio_dial d (S i + (List.length (b :: tried) - 1))
                         (last (b :: tried) EmptyString)) as [conn|e'].
             - exact T5.
             - destruct T5 as [T5 T6]. split; [exact T5|].
               intros Hs. specialize (T6 Hs). simpl in *. lia. }
Qed.

(** C8 (amended). dialHostHard makes between one and [len(addrs)] dial
    attempts, exactly one while the address list is still empty; every
    attempt before the last one failed with the deadline not yet reached,
    so a failed attempt after which the deadline has passed is the last
    one; the result is the connection of the last attempt, or its error
    when it failed, and a failed last attempt with the deadline not reached
    means that all [len(addrs)] attempts were made.  The deadline is the
    start time plus [ReadTimeout + WriteTimeout] when that sum (in 64-bit
    arithmetic) is positive and plus [DefaultDialTimeout] otherwise; for
    timeouts that are not negative and whose sum fits, the fallback is
    taken exactly when both are zero. *)
Theorem dialHostHard_attempts (d : dial_io) (w : World) :
  let c := w_hc w in
  let n := if Nat.eqb (List.length (addrs c)) 0 then 1%nat
           else List.length (addrs c) in
  let deadline := Add (dio_start d) (dialTimeout c) in
  let res := fst (dialHostHard d w) in
  let w' := snd (dialHostHard d w) in
  (exists tried : list string,
      w_trace w' = rev (map EvDial tried) ++ w_trace w
      /\ (1 <= List.length tried <= n)%nat
      /\ (addrs c = [] -> List.length tried = 1%nat)
      /\ (forall j, (S j < List.length tried)%nat ->
            exists e, dio_dial d j (nth j tried EmptyString) = inr e
                      /\ Since (dio_after d j) deadline < 0)
      /\ let k := (List.length tried - 1)%nat in
         match dio_dial d k (last tried EmptyString) with
         | inl conn => res = (Some conn, None)
         | inr e =>
             res = (None, Some e)
             /\ (Since (dio_after d k) deadline < 0 -> List.length tried = n)
         end)
  /\ (0 < wrap64 (ReadTimeout c + WriteTimeout c) ->
      dialTimeout c = wrap64 (ReadTimeout c + WriteTimeout c))
  /\ (wrap64 (ReadTimeout c + WriteTimeout c) <= 0 ->
      dialTimeout c = DefaultDialTimeout)
  /\ (0 <= ReadTimeout c -> 0 <= WriteTimeout c ->
      ReadTimeout c + WriteTimeout c <= maxInt64 ->
      (ReadTimeout c = 0 /\ WriteTimeout c = 0 ->
       dialTimeout c = DefaultDialTimeout)
      /\ (~ (ReadTimeout c = 0 /\ WriteTimeout c = 0) ->
          dialTimeout c = ReadTimeout c + WriteTimeout c)).
Proof.
  intros c n deadline res w'. split.
  - unfold res, w', dialHostHard, bind, get_hc. fold c. fold n. fold deadline.
    destruct (dialHostHard_loop_spec d deadline n 0 None w)
      as [tried [T1 [T2 [T3 [T4 T5]]]]].
    assert (Hn : n <> 0%nat).
    { unfold n. destruct (Nat.eqb (List.length (addrs c)) 0) eqn:E;
        [discriminate | apply Nat.eqb_neq in E; exact E]. }
    specialize (T3 Hn).
    exists tried. split; [exact T1|].
    split; [destruct tried; [congruence | simpl in *; lia]|].
    split.
    { intros Ha. unfold n in T2. rewrite Ha in T2. simpl in T2.
      destruct tried; [congruence | simpl in *; lia]. }
    split; [exact T4|].
    destruct tried as [|a tried]; [congruence|]. exact T5.
  - unfold dialTimeout. split; [|split].
    + intros H. apply Z.leb_gt in H. rewrite H. reflexivity.
    + intros H. apply Z.leb_le in H. rewrite H. reflexivity.
    + intros H1 H2 H3.
      rewrite wrap64_id by (unfold in_int64, minInt64, maxInt64 in *; lia).
      split.
      * intros [-> ->]. reflexivity.
      * intros H.
        destruct (ReadTimeout c + WriteTimeout c <=? 0) eqn:E;
          [apply Z.leb_le in E; exfalso; apply H; lia | reflexivity].
Qed.

(** ** The executor *)

Lemma slot_closed_not_released (now : Time) (cc : clientConn) (w1 w' : World) :
  slot_closed cc w1 w' -> ~ slot_released now cc w1 w'.
Proof.
  intros [_ [Hc _]] [_ [Hr _]]. rewrite Hc in Hr.
  apply (f_equal (@List.length clientConn)) in Hr.
  rewrite length_app in Hr. simpl in Hr. lia.
Qed.

(** [do] and its path summary are the same function. *)
Lemma do_is_summary (env : nat -> exchange_io) (req : Request)
    (resp : option Response) (w : World) :
  do env req resp w = do_summary env req resp w.
Proof.
  unfold do_summary, before_acquire, next_exchange, store_lastUseTime, modify_hc.
  simpl.
  destruct (do env req resp w) as [[[retry err] resp'] w'] eqn:E.
  unfold do, bind, next_exchange, store_lastUseTime, modify_hc in E. simpl in E.
  destruct (acquireConn _ _) as [[cc|e] w1] eqn:Hacq.
  2: { unfold ret in E. inversion E; subst. reflexivity. }
  unfold closeConn, releaseConn, releaseScratch, seen, getClientName, get_hc,
    modify_hc, emit, ret, bind, decConnsCount, ConnectionClose, mustSkipBody,
    IsGet, IsHead, orb, andb, negb in E.
  simpl in E.
  exec E.
  all: unfold exchange_summary, exchange_events, exchange_response, outcome_of,
         mustClose, response_read, receiver, mustSkipBody, IsGet, IsHead,
         ConnectionClose, decConnsCount, is_some, orb, andb, negb;
       simpl.
  all: repeat match goal with H : ?c = _ |- context [?c] => rewrite H; simpl end.
  all: reflexivity.
Qed.

Lemma getClientName_hc_frame (c : HostClient) :
  exists n, snd (getClientName_hc c) = set_clientName c n.
Proof.
  unfold getClientName_hc. destruct (clientName c) as [n|] eqn:E; simpl.
  - exists (Some n). destruct c; simpl in *. subst. reflexivity.
  - eexists. reflexivity.
Qed.

(** The client after an exchange on the slot [cc]: released or closed. *)
Lemma exchange_summary_pool (x : exchange_io) (req : Request)
    (resp : option Response) (cc : clientConn) (w1 : World) :
  let c := w_hc w1 in
  let o := outcome_of c x req resp in
  let c' := w_hc (snd (exchange_summary x req resp cc w1)) in
  let released := match o with
                  | Clean => negb (mustClose c cc x req resp)
                  | _ => false
                  end in
  (released = true ->
   conns c' = conns c ++ [mkClientConn (cc_c cc) (createdTime cc) (x_now_release x)]
   /\ connsCount c' = connsCount c)
  /\ (released = false ->
      conns c' = conns c /\ connsCount c' = wrap64 (connsCount c - 1)).
Proof.
  intros c o c' released. unfold c', exchange_summary. simpl.
  fold c. fold o. fold released.
  destruct (getClientName_hc_frame c) as [n Hn].
  destruct released; (split; [intros H | intros H]; try discriminate);
    destruct (reaches_write o && String.eqb (req_userAgent req) EmptyString);
    try rewrite Hn; simpl; auto.
Qed.

Lemma exchange_events_close (c : HostClient) (cc : clientConn) (x : exchange_io)
    (req : Request) (resp : option Response) (ua : string) :
  (outcome_of c x req resp <> Clean \/ mustClose c cc x req resp = true) ->
  In (EvConnClose (cc_c cc)) (exchange_events c cc x req resp ua).
Proof.
  unfold exchange_events. intros H.
  destruct (outcome_of c x req resp); simpl; auto.
  destruct H as [H|H]; [congruence|]. rewrite H.
  destruct (negb (is_some resp)); simpl; auto.
Qed.

Lemma exchange_events_no_close (c : HostClient) (cc : clientConn) (x : exchange_io)
    (req : Request) (resp : option Response) (ua : string) :
  outcome_of c x req resp = Clean ->
  mustClose c cc x req resp = false ->
  forall conn, ~ In (EvConnClose conn) (exchange_events c cc x req resp ua).
Proof.
  unfold exchange_events. intros Ho Hm conn. rewrite Ho, Hm.
  destruct (negb (is_some resp)), (0 <? ReadTimeout c), (0 <? WriteTimeout c);
    simpl; intros H;
    repeat match goal with
           | H : _ \/ _ |- _ => destruct H as [H|H]
           | H : False |- _ => destruct H
           | H : _ = EvConnClose _ |- _ => discriminate H
           end.
Qed.

(** C3. Once [do] holds a slot, every path that ends in an error (the
    write deadline, the serialization or the flush, the read deadline, the
    reading of the response) closes the slot and does not release it; after
    an exchange without error the slot is closed if and only if
    resetConnection was set or the request or the response carries
    Connection: close, and it is released to the idle list otherwise. *)
Theorem do_connection_disposition (env : nat -> exchange_io) (req : Request)
    (resp : option Response) (w w1 : World) (cc : clientConn) :
  let x := env (w_attempt w) in
  acquireConn (x_dial x) (before_acquire env w) = (inl cc, w1) ->
  let c := w_hc w1 in
  let err := snd (fst (fst (do env req resp w))) in
  let w' := snd (do env req resp w) in
  let close := resetConnection_of c cc x req || ConnectionClose req
               || resp_connectionClose (response_read c x req resp) in
  err = outcome_err (outcome_of c x req resp)
  /\ (err <> None ->
      slot_closed cc w1 w' /\ ~ slot_released (x_now_release x) cc w1 w')
  /\ (err = None ->
      (slot_closed cc w1 w' <-> close = true)
      /\ (slot_released (x_now_release x) cc w1 w' <-> close = false)).
Proof.
  intros x Hacq c err w' close.
  assert (Hsum : do env req resp w = exchange_summary x req resp cc w1).
  { rewrite do_is_summary. unfold do_summary. fold x. rewrite Hacq. reflexivity. }
  unfold err, w'. rewrite Hsum. clear err w'.
  pose proof (exchange_summary_pool x req resp cc w1) as Hpool.
  cbv zeta in Hpool. fold c in Hpool. destruct Hpool as [Hrel Hcl].
  change close with (mustClose c cc x req resp). clear close.
  assert (Hclosed : outcome_of c x req resp <> Clean
                    \/ mustClose c cc x req resp = true ->
                    slot_closed cc w1 (snd (exchange_summary x req resp cc w1))).
  { intros H. unfold slot_closed. split.
    - eexists. split; [reflexivity|]. apply exchange_events_close. exact H.
    - apply Hcl. destruct H as [H|H].
      + destruct (outcome_of c x req resp); try reflexivity. congruence.
      + rewrite H. destruct (outcome_of c x req resp); reflexivity. }
  assert (Hreleased : outcome_of c x req resp = Clean ->
                      mustClose c cc x req resp = false ->
                      slot_released (x_now_release x) cc w1
                        (snd (exchange_summary x req resp cc w1))).
  { intros Ho Hm. unfold slot_released. split.
    - eexists. split; [reflexivity|]. apply exchange_events_no_close; assumption.
    - apply Hrel. rewrite Ho, Hm. reflexivity. }
  split; [reflexivity|]. simpl.
  split.
  - intros Herr.
    assert (Ho : outcome_of c x req resp <> Clean).
    { intros Ho. apply Herr. fold c. rewrite Ho. reflexivity. }
    split; [apply Hclosed; left; exact Ho|].
    apply slot_closed_not_released. apply Hclosed. left. exact Ho.
  - intros Herr.
    assert (Ho : outcome_of c x req resp = Clean).
    { fold c in Herr. destruct (outcome_of c x req resp); simpl in Herr;
        try discriminate. reflexivity. }
    destruct (mustClose c cc x req resp) eqn:Hm.
    + split; split; intros H; try reflexivity; try discriminate.
      * apply Hclosed. right. reflexivity.
      * exfalso. eapply slot_closed_not_released; [|exact H].
        apply Hclosed. right. reflexivity.
    + split; split; intros H; try reflexivity; try discriminate.
      * exfalso. eapply slot_closed_not_released; [exact H|].
        apply Hreleased; [exact Ho | reflexivity].
      * apply Hreleased; [exact Ho | reflexivity].
Qed.

Lemma acquireConn_attempt (d : dial_io) (w : World) :
  w_attempt (snd (acquireConn d w)) = w_attempt w.
Proof.
  unfold acquireConn, bind, get_hc, modify_hc, ret.
  destruct (acquireConn_locked (w_hc w)) as [a c1]. simpl.
  destruct (acq_cc a); simpl; [reflexivity|].
  destruct (acq_createConn a); simpl; [|reflexivity].
  match goal with |- context [dialHostHard d ?w1] =>
    pose proof (dialHostHard_frame d w1) as F;
    destruct (dialHostHard d w1) as [[conn err] w2] end.
  destruct F as [_ F]. simpl in *.
  destruct err; simpl; [exact F|].
  unfold emit. destruct (acq_startCleaner a); simpl; exact F.
Qed.

(** Every call of [do] is one exchange. *)
Lemma do_attempt (env : nat -> exchange_io) (req : Request)
    (resp : option Response) (w : World) :
  w_attempt (snd (do env req resp w)) = S (w_attempt w).
Proof.
  rewrite do_is_summary. unfold do_summary.
  pose proof (acquireConn_attempt (x_dial (env (w_attempt w)))
                (before_acquire env w)) as H.
  destruct (acquireConn _ _) as [[cc|e] w1]; simpl in *; exact H.
Qed.

Lemma error_eqb_eq (a b : error) : error_eqb a b = true <-> a = b.
Proof.
  split.
  - destruct a, b; simpl; intros H; try discriminate; try reflexivity.
    apply Nat.eqb_eq in H. subst. reflexivity.
  - intros ->. destruct b; simpl; try reflexivity. apply Nat.eqb_refl.
Qed.

Lemma err_is_eq (err : option error) (e : error) :
  err_is err e = true <-> err = Some e.
Proof.
  destruct err as [a|]; simpl.
  - rewrite error_eqb_eq. split; [intros ->; reflexivity | intros H; inversion H; reflexivity].
  - split; discriminate.
Qed.

Lemma isIdempotent_methods (req : Request) :
  isIdempotent req = true
  <-> (req_method req = "GET" \/ req_method req = "HEAD"
       \/ req_method req = "PUT")%string.
Proof.
  unfold isIdempotent, IsGet, IsHead, IsPut.
  rewrite !orb_true_iff, !String.eqb_eq.
  split; [intros [[H|H]|H] | intros [H|[H|H]]]; auto.
Qed.

(** C2. [Do] runs the exchange once or twice; twice exactly when the first
    attempt returned an error flagged retryable and the method is GET,
    HEAD or PUT, and then the second attempt is [do] again on what the
    first one left; with any other method (POST, say) the exchange is not
    retried, and there is never a third attempt. *)
Theorem Do_retries_once (env : nat -> exchange_io) (req : Request)
    (resp : option Response) (w : World) :
  let first := do env req resp w in
  let retry := fst (fst (fst first)) in
  let err := snd (fst (fst first)) in
  let w' := snd (Do env req resp w) in
  let attempts := (w_attempt w' - w_attempt w)%nat in
  (attempts = 1 \/ attempts = 2)%nat
  /\ (attempts = 2%nat <->
      err <> None /\ retry = true
      /\ (req_method req = "GET" \/ req_method req = "HEAD"
          \/ req_method req = "PUT")%string)
  /\ (req_method req <> "GET"%string -> req_method req <> "HEAD"%string ->
      req_method req <> "PUT"%string -> attempts = 1%nat)
  /\ (attempts = 1%nat -> w' = snd first)
  /\ (attempts = 2%nat -> w' = snd (do env req (snd (fst first)) (snd first))).
Proof.
  cbv zeta. unfold Do, bind, ret.
  pose proof (do_attempt env req resp w) as H1.
  destruct (do env req resp w) as [[[rt er] resp1] w1] eqn:E1. simpl in *.
  rewrite <- isIdempotent_methods.
  destruct (is_some er && rt && isIdempotent req) eqn:C.
  - pose proof (do_attempt env req resp1 w1) as H2.
    destruct (do env req resp1 w1) as [[[rt2 er2] resp2] w2]. simpl in *.
    apply andb_prop in C. destruct C as [C C3].
    apply andb_prop in C. destruct C as [C1 C2].
    destruct er as [e|]; [|discriminate].
    split; [right; lia|].
    split; [split; [intros _; repeat split; [discriminate | exact C2 | exact C3] | intros _; lia]|].
    split; [intros G H I; exfalso; apply isIdempotent_methods in C3;
            destruct C3 as [C3|[C3|C3]]; contradiction|].
    split; [intros; lia | reflexivity].
  - simpl. split; [left; lia|].
    split; [split; [intros; lia|]|].
    { intros [Ha [Hb Hc]]. destruct er; [|congruence].
      simpl in C. rewrite Hb, Hc in C. discriminate. }
    split; [intros; lia|].
    split; [reflexivity | intros; lia].
Qed.

(** C7. The error of the last attempt that [Do] makes (the second one when
    the exchange is retried, the first and only one otherwise) comes back
    as it is, except end-of-stream, which comes back as
    ErrConnectionClosed: [Do] never returns the raw io.EOF. *)
Theorem Do_surfaces_connection_closed (env : nat -> exchange_io)
    (req : Request) (resp : option Response) (w : World) :
  let first := do env req resp w in
  let retry1 := fst (fst (fst first)) in
  let err1 := snd (fst (fst first)) in
  let second := do env req (snd (fst first)) (snd first) in
  let err2 := snd (fst (fst second)) in
  let retried := is_some err1 && retry1 && isIdempotent req in
  let last_err := if retried then err2 else err1 in
  let result := fst (fst (Do env req resp w)) in
  (last_err = Some io_EOF -> result = Some ErrConnectionClosed)
  /\ (last_err <> Some io_EOF -> result = last_err)
  /\ result <> Some io_EOF
  /\ (isIdempotent req = false -> err1 = Some io_EOF ->
      result = Some ErrConnectionClosed)
  /\ (isIdempotent req = true -> retry1 = true -> err1 <> None ->
      err2 = Some io_EOF -> result = Some ErrConnectionClosed).
Proof.
  intros first retry1 err1 second err2 retried last_err result.
  assert (Hres : result = if err_is last_err io_EOF
                          then Some ErrConnectionClosed else last_err).
  { unfold result, last_err, retried, err2, second, err1, retry1, first,
      Do, bind, ret.
    destruct (do env req resp w) as [[[rt er] resp1] w1]. simpl.
    destruct (is_some er && rt && isIdempotent req).
    - destruct (do env req resp1 w1) as [[[rt2 er2] resp2] w2]. reflexivity.
    - reflexivity. }
  assert (H1 : last_err = Some io_EOF -> result = Some ErrConnectionClosed).
  { intros H. rewrite Hres. apply err_is_eq in H. rewrite H. reflexivity. }
  assert (H2 : last_err <> Some io_EOF -> result = last_err).
  { intros H. rewrite Hres. destruct (err_is last_err io_EOF) eqn:E;
      [apply err_is_eq in E; contradiction | reflexivity]. }
  split; [exact H1|]. split; [exact H2|]. split.
  - rewrite Hres. destruct (err_is last_err io_EOF) eqn:E; [discriminate|].
    intros H. apply err_is_eq in H. congruence.
  - split.
    + intros Hi He. apply H1. unfold last_err, retried. rewrite Hi.
      rewrite andb_false_r. exact He.
    + intros Hi Hr Hn He. apply H1. unfold last_err, retried.
      rewrite Hi, Hr. destruct err1; [simpl; exact He | congruence].
Qed.

Lemma mustSkipBody_IsHead (req : Request) : mustSkipBody req = IsHead req.
Proof.
  unfold mustSkipBody, IsGet, IsHead.
  destruct (String.eqb_spec (req_method req) "HEAD") as [E|E].
  - rewrite E. reflexivity.
  - apply andb_false_r.
Qed.

Lemma receiver_SkipBody (c : HostClient) (req : Request) (resp : option Response) :
  mustSkipBody req = true -> SkipBody (receiver c req resp) = true.
Proof.
  unfold receiver. intros ->.
  destruct (DisableHeaderNamesNormalizing c); reflexivity.
Qed.

Lemma exchange_events_read (c : HostClient) (cc : clientConn) (x : exchange_io)
    (req : Request) (resp : option Response) (ua : string)
    (conn : net_Conn) (b : bool) (m : Z) :
  In (EvReadLimitBody conn b m) (exchange_events c cc x req resp ua) ->
  b = SkipBody (receiver c req resp).
Proof.
  unfold exchange_events.
  destruct (outcome_of c x req resp), (negb (is_some resp)),
    (0 <? ReadTimeout c), (0 <? WriteTimeout c);
    try destruct (mustClose c cc x req resp);
    simpl; intros H;
    repeat match goal with
           | H : _ \/ _ |- _ => destruct H as [H|H]
           | H : False |- _ => destruct H
           | H : _ = EvReadLimitBody _ _ _ |- _ => inversion H; clear H
           end; reflexivity.
Qed.

Lemma exchange_events_reads (c : HostClient) (cc : clientConn) (x : exchange_io)
    (req : Request) (resp : option Response) (ua : string) :
  (outcome_of c x req resp = Clean
   \/ exists e, outcome_of c x req resp = FailRead e) ->
  In (EvReadLimitBody (cc_c cc) (SkipBody (receiver c req resp))
        (MaxResponseBodySize c))
     (exchange_events c cc x req resp ua).
Proof.
  unfold exchange_events. intros [H|[e H]]; rewrite H;
    destruct (negb (is_some resp)); try destruct (mustClose c cc x req resp);
    simpl; auto.
Qed.

(** C9. The test of line 1027, IsHead and not IsGet, is the same as
    IsHead, that is, the method is HEAD; and for a request whose method is
    HEAD the response that [do] hands to ReadLimitBody has SkipBody set:
    every read of the exchange is made with the flag already on, and an
    exchange that gets to the response does read it that way. *)
Theorem do_head_sets_SkipBody (env : nat -> exchange_io) (req : Request)
    (resp : option Response) (w w1 : World) (cc : clientConn) :
  let x := env (w_attempt w) in
  req_method req = "HEAD"%string ->
  acquireConn (x_dial x) (before_acquire env w) = (inl cc, w1) ->
  let c := w_hc w1 in
  let w' := snd (do env req resp w) in
  (forall r : Request, (negb (IsGet r) && IsHead r) = IsHead r)
  /\ (forall r : Request, IsHead r = true <-> req_method r = "HEAD"%string)
  /\ SkipBody (receiver c req resp) = true
  /\ (forall evs, w_trace w' = evs ++ w_trace w1 ->
        (forall conn b m, In (EvReadLimitBody conn b m) evs -> b = true)
        /\ (outcome_of c x req resp = Clean
            \/ (exists e, outcome_of c x req resp = FailRead e) ->
            In (EvReadLimitBody (cc_c cc) true (MaxResponseBodySize c)) evs)).
Proof.
  intros x Hhead Hacq c w'.
  assert (Hskip : SkipBody (receiver c req resp) = true).
  { apply receiver_SkipBody. rewrite mustSkipBody_IsHead.
    unfold IsHead. rewrite Hhead. reflexivity. }
  split; [exact mustSkipBody_IsHead|].
  split; [intros r; unfold IsHead; apply String.eqb_eq|].
  split; [exact Hskip|].
  intros evs Hevs.
  assert (Hsum : do env req resp w = exchange_summary x req resp cc w1).
  { rewrite do_is_summary. unfold do_summary. fold x. rewrite Hacq. reflexivity. }
  unfold w' in Hevs. rewrite Hsum in Hevs. simpl in Hevs.
  apply app_inv_tail in Hevs. subst evs. fold c. split.
  - intros conn b m H. apply exchange_events_read in H. congruence.
  - intros H. rewrite <- Hskip. apply exchange_events_reads. exact H.
Qed.

Lemma acquireConn_config (d : dial_io) (w : World) :
  same_config (w_hc w) (w_hc (snd (acquireConn d w))).
Proof.
  unfold acquireConn, acquireConn_locked, bind, get_hc, modify_hc, ret.
  destruct (pop_tail (conns (w_hc w))) as [[front cc]|]; simpl.
  - unfold same_config; simpl; repeat split; reflexivity.
  - destruct (connsCount (w_hc w) <? maxConns_of (w_hc w)); simpl.
    + match goal with |- context [dialHostHard d ?w1] =>
        pose proof (dialHostHard_frame d w1) as F;
        destruct (dialHostHard d w1) as [[conn err] w2] end.
      destruct F as [[l [i F]] _]. simpl in *.
      destruct err; simpl.
      * rewrite F. unfold same_config; simpl; repeat split; reflexivity.
      * unfold emit.
        destruct (wrap64 (connsCount (w_hc w) + 1) =? 1); simpl; rewrite F;
          unfold same_config; simpl; repeat split; reflexivity.
    + unfold same_config; simpl; repeat split; reflexivity.
Qed.

Lemma before_acquire_config (env : nat -> exchange_io) (w : World) :
  same_config (w_hc w) (w_hc (before_acquire env w)).
Proof. unfold same_config; simpl; repeat split; reflexivity. Qed.

Lemma same_config_receiver (c c' : HostClient) (req : Request)
    (resp : option Response) :
  same_config c c' -> receiver c' req resp = receiver c req resp.
Proof.
  unfold same_config, receiver. intros H.
  repeat match type of H with _ /\ _ => destruct H as [? H] end.
  rewrite H. reflexivity.
Qed.

Lemma same_config_MaxResponseBodySize (c c' : HostClient) :
  same_config c c' -> MaxResponseBodySize c' = MaxResponseBodySize c.
Proof.
  unfold same_config. intros H.
  repeat match type of H with _ /\ _ => destruct H as [? H] end.
  assumption.
Qed.

Lemma same_config_trans (c1 c2 c3 : HostClient) :
  same_config c1 c2 -> same_config c2 c3 -> same_config c1 c3.
Proof.
  unfold same_config. intros H1 H2.
  repeat match goal with H : _ /\ _ |- _ => destruct H end.
  repeat split; congruence.
Qed.

(** With a parser that makes the same of both receivers, the exchange on a
    scratch response and the exchange on the caller's response differ in
    the scratch events only. *)
Lemma exchange_nil_vs_supplied (x : exchange_io) (req : Request) (r : Response)
    (cc : clientConn) (w1 : World) :
  let c := w_hc w1 in
  x_read x (receiver c req (Some r)) (MaxResponseBodySize c)
    = x_read x (receiver c req None) (MaxResponseBodySize c) ->
  let s1 := exchange_summary x req None cc w1 in
  let s2 := exchange_summary x req (Some r) cc w1 in
  fst (fst s1) = fst (fst s2)
  /\ snd (fst s1) = None
  /\ w_hc (snd s1) = w_hc (snd s2)
  /\ w_attempt (snd s1) = w_attempt (snd s2)
  /\ exists evs1 evs2,
       w_trace (snd s1) = evs1 ++ w_trace w1
       /\ w_trace (snd s2) = evs2 ++ w_trace w1
       /\ wire_events evs1 = wire_events evs2
       /\ filter is_scratch evs2 = []
       /\ (filter is_scratch evs1 = []
           \/ filter is_scratch evs1 = [EvReleaseResponse; EvAcquireResponse]).
Proof.
  intros c H s1 s2.
  assert (Ho : outcome_of c x req (Some r) = outcome_of c x req None).
  { unfold outcome_of. rewrite H. reflexivity. }
  assert (Hr : response_read c x req (Some r) = response_read c x req None).
  { unfold response_read. rewrite H. reflexivity. }
  assert (Hm : mustClose c cc x req (Some r) = mustClose c cc x req None).
  { unfold mustClose. rewrite Hr. reflexivity. }
  unfold s1, s2, exchange_summary. fold c. rewrite Ho, Hm. simpl.
  split; [reflexivity|].
  split; [unfold exchange_response; destruct (outcome_of c x req None); reflexivity|].
  split; [reflexivity|].
  split; [reflexivity|].
  eexists. eexists. split; [reflexivity|]. split; [reflexivity|].
  unfold exchange_events. rewrite Ho, Hm.
  destruct (outcome_of c x req None), (mustClose c cc x req None),
    (0 <? ReadTimeout c), (0 <? WriteTimeout c); simpl; auto.
Qed.

(** C10 (amended). [do] accepts a nil response: it then takes a scratch
    response from the pool once the request is written, releases it on
    every path from there on, and hands nothing back; and when
    ReadLimitBody makes the same of the scratch response as of a response
    [r] (as it does of a freshly acquired one), the call returns the same
    retry flag and error, leaves the same client and does the same to the
    connection as the call with [r]. *)
Theorem do_nil_response (env : nat -> exchange_io) (req : Request)
    (r : Response) (w : World) :
  let x := env (w_attempt w) in
  let c := w_hc w in
  x_read x (receiver c req (Some r)) (MaxResponseBodySize c)
    = x_read x (receiver c req None) (MaxResponseBodySize c) ->
  let d1 := do env req None w in
  let d2 := do env req (Some r) w in
  let w1 := snd (acquireConn (x_dial x) (before_acquire env w)) in
  fst (fst d1) = fst (fst d2)
  /\ snd (fst d1) = None
  /\ w_hc (snd d1) = w_hc (snd d2)
  /\ w_attempt (snd d1) = w_attempt (snd d2)
  /\ exists evs1 evs2,
       w_trace (snd d1) = evs1 ++ w_trace w1
       /\ w_trace (snd d2) = evs2 ++ w_trace w1
       /\ wire_events evs1 = wire_events evs2
       /\ filter is_scratch evs2 = []
       /\ (filter is_scratch evs1 = []
           \/ filter is_scratch evs1 = [EvReleaseResponse; EvAcquireResponse]).
Proof.
  intros x c H d1 d2 w1.
  unfold d1, d2. rewrite !do_is_summary. unfold do_summary. fold x.
  pose proof (acquireConn_config (x_dial x) (before_acquire env w)) as Hc.
  pose proof (before_acquire_config env w) as Hb.
  pose proof (same_config_trans _ _ _ Hb Hc) as Hcfg. fold c in Hcfg.
  unfold w1.
  destruct (acquireConn (x_dial x) (before_acquire env w)) as [[cc|e] w2].
  - simpl in Hcfg. apply exchange_nil_vs_supplied.
    simpl. rewrite !(same_config_receiver _ _ _ _ Hcfg).
    rewrite (same_config_MaxResponseBodySize _ _ Hcfg).
    exact H.
  - simpl. repeat split; try reflexivity.
    exists [], []. simpl. repeat split; auto.
Qed.

(** ** The deadline harness *)

Section DoerProperties.

Context {C : Type} {D : clientDoer C}.

Lemma Since_nonneg (now t : Time) : t <= now -> 0 <= Since now t <= maxInt64.
Proof.
  unfold Since, Sub, minInt64, maxInt64. intros H.
  destruct (now - t <? - 2 ^ 63) eqn:E1; [apply Z.ltb_lt in E1; lia|].
  destruct (2 ^ 63 - 1 <? now - t) eqn:E2.
  - lia.
  - apply Z.ltb_ge in E2. lia.
Qed.

(** With the deadline reached, the inner call gives ErrTimeout at once:
    no background call, nothing changed. *)
Lemma clientDoDeadlineFreeConn_expired (h : deadline_io) (req : Request)
    (resp : Response) (deadline : Time) (s : C) :
  deadline <= h_now_check h ->
  clientDoDeadlineFreeConn h req resp deadline s
    = mkHarnessResult (Some ErrTimeout) req resp s [].
Proof.
  intros H. unfold clientDoDeadlineFreeConn.
  pose proof (Since_nonneg _ _ H) as Hs.
  rewrite wrap64_id by (unfold in_int64, minInt64, maxInt64 in *; lia).
  destruct (- Since (h_now_check h) deadline <=? 0) eqn:E;
    [reflexivity | apply Z.leb_gt in E; lia].
Qed.

Lemma clientDoDeadline_loop_err (hio : nat -> deadline_io) (deadline : Time)
    (fuel : nat) :
  forall i sleepTime req resp s tr r,
    clientDoDeadline_loop hio fuel i sleepTime req resp deadline s tr = Some r ->
    hr_err r <> Some ErrNoFreeConns.
Proof.
  induction fuel as [|fuel IH]; simpl; intros i sl req resp s tr r H.
  - discriminate.
  - destruct (negb (err_is (hr_err (clientDoDeadlineFreeConn (hio i) req resp deadline s))
                      ErrNoFreeConns)) eqn:E.
    + inversion H; subst; simpl. intros He. apply err_is_eq in He.
      rewrite He in E. discriminate.
    + eapply IH. exact H.
Qed.

Lemma clientDoDeadline_loop_ends (hio : nat -> deadline_io) (deadline : Time)
    (n : nat) :
  forall fuel i sleepTime req resp s tr,
    deadline <= h_now_check (hio (i + n)%nat) ->
    (n < fuel)%nat ->
    exists r, clientDoDeadline_loop hio fuel i sleepTime req resp deadline s tr
              = Some r.
Proof.
  induction n as [|n IH]; intros fuel i sl req resp s tr Hd Hf;
    (destruct fuel as [|fuel]; [lia|]); simpl.
  - replace (i + 0)%nat with i in Hd by lia.
    rewrite (clientDoDeadlineFreeConn_expired _ _ _ _ _ Hd). simpl.
    eexists. reflexivity.
  - destruct (negb (err_is (hr_err (clientDoDeadlineFreeConn (hio i) req resp deadline s))
                      ErrNoFreeConns)).
    + eexists. reflexivity.
    + apply IH; [|lia]. replace (S i + n)%nat with (i + S n)%nat by lia. exact Hd.
Qed.

(** C4. The deadline harness does not hand ErrNoFreeConns to its caller.
    With the deadline at or before the current time the inner call returns
    ErrTimeout at once, without starting the background call and without
    touching anything.  A round whose inner call returns ErrNoFreeConns is
    followed, after a sleep of updateSleepTime, by another round; any
    other answer ends the loop and is returned.  So whatever DoDeadline or
    DoTimeout return is not ErrNoFreeConns; and the loop does return, at
    the latest in the first round that finds the deadline reached. *)
Theorem clientDoDeadline_never_ErrNoFreeConns (hio : nat -> deadline_io)
    (req : Request) (resp : Response) (deadline : Time) (s : C) :
  (forall h req resp s,
      deadline <= h_now_check h ->
      clientDoDeadlineFreeConn h req resp deadline s
        = mkHarnessResult (Some ErrTimeout) req resp s [])
  /\ (forall fuel i sleepTime req resp s tr,
        let r := clientDoDeadlineFreeConn (hio i) req resp deadline s in
        let sleepTime1 := updateSleepTime (hio i) sleepTime deadline in
        (hr_err r = Some ErrNoFreeConns ->
         clientDoDeadline_loop hio (S fuel) i sleepTime req resp deadline s tr
           = clientDoDeadline_loop hio fuel (S i) sleepTime1 (hr_req r) (hr_resp r)
               deadline (hr_doer r) (tr ++ hr_events r ++ [HSleep sleepTime1]))
        /\ (hr_err r <> Some ErrNoFreeConns ->
            clientDoDeadline_loop hio (S fuel) i sleepTime req resp deadline s tr
              = Some (mkHarnessResult (hr_err r) (hr_req r) (hr_resp r) (hr_doer r)
                        (tr ++ hr_events r))))
  /\ (forall fuel r,
        clientDoDeadline hio fuel req resp deadline s = Some r ->
        hr_err r <> Some ErrNoFreeConns)
  /\ (forall fuel now timeout r,
        clientDoTimeout hio fuel now req resp timeout s = Some r ->
        hr_err r <> Some ErrNoFreeConns)
  /\ (forall n fuel,
        deadline <= h_now_check (hio n) -> (n < fuel)%nat ->
        exists r, clientDoDeadline hio fuel req resp deadline s = Some r).
Proof.
  split; [intros; apply clientDoDeadlineFreeConn_expired; assumption|].
  split.
  { intros fuel i sl rq rs st tr r sl1. simpl. fold r. fold sl1. split.
    - intros H. apply err_is_eq in H. rewrite H. reflexivity.
    - intros H. destruct (err_is (hr_err r) ErrNoFreeConns) eqn:E;
        [apply err_is_eq in E; contradiction | reflexivity]. }
  split; [intros fuel r H; eapply clientDoDeadline_loop_err; exact H|].
  split; [intros fuel now timeout r H; eapply clientDoDeadline_loop_err; exact H|].
  intros n fuel Hd Hf. apply clientDoDeadline_loop_ends with (n := n); assumption.
Qed.

End DoerProperties.

(** ** The redirect follower *)

Section FollowerProperties.

Context {C : Type} {D : clientDoer C}.

Lemma is_redirect_statuses (st : Z) :
  is_redirect st = true <-> st = 301 \/ st = 302 \/ st = 303.
Proof.
  unfold is_redirect, StatusMovedPermanently, StatusFound, StatusSeeOther.
  rewrite !orb_true_iff, !Z.eqb_eq.
  split; [intros [[H|H]|H] | intros [H|[H|H]]]; auto.
Qed.

Lemma not_redirect_test (st : Z) :
  negb (st =? StatusMovedPermanently) && negb (st =? StatusFound)
  && negb (st =? StatusSeeOther) = negb (is_redirect st).
Proof.
  unfold is_redirect.
  destruct (st =? StatusMovedPermanently), (st =? StatusFound),
    (st =? StatusSeeOther); reflexivity.
Qed.

(** One round of the loop on an answer without error. *)
Lemma follow_loop_round (fuel : nat) (req : Request) (resp r : Response)
    (url : string) (statusCode redirectsCount : Z) (s s1 : C) :
  doer_Do (SetRequestURI_fresh req url) (Some resp) s = (None, Some r, s1) ->
  0 <= redirectsCount <= maxRedirectsCount ->
  let req1 := SetRequestURI_fresh req url in
  let st := resp_statusCode r in
  follow_loop (S fuel) req resp url statusCode redirectsCount s
  = if negb (is_redirect st) then Some (mkFollowResult st None req1 r s1)
    else if redirectsCount =? maxRedirectsCount
    then Some (mkFollowResult st (Some errTooManyRedirects) req1 r s1)
    else if String.eqb (resp_location r) EmptyString
    then Some (mkFollowResult st (Some errMissingLocation) req1 r s1)
    else follow_loop fuel req1 r (getRedirectURL url (resp_location r)) st
           (redirectsCount + 1) s1.
Proof.
  intros Hdo Hrc req1 st. cbn [follow_loop]. rewrite Hdo. fold req1. fold st.
  rewrite not_redirect_test.
  destruct (negb (is_redirect st)); [reflexivity|].
  unfold maxRedirectsCount in *.
  rewrite wrap64_id by (unfold in_int64, minInt64, maxInt64; lia).
  destruct (redirectsCount =? 16) eqn:E.
  - apply Z.eqb_eq in E. subst.
    replace (16 <? 16 + 1) with true by (symmetry; apply Z.ltb_lt; lia).
    reflexivity.
  - apply Z.eqb_neq in E.
    replace (16 <? redirectsCount + 1) with false
      by (symmetry; apply Z.ltb_ge; lia).
    reflexivity.
Qed.

(** The end of a chain of redirects: after the redirects [redirs], each
    with a Location, the answer [final] ends the loop in one of three
    ways. *)
Lemma follow_loop_chain (final : Response) (s' : C) (redirs : list Response) :
  forall fuel req resp url statusCode redirectsCount s,
    Forall redirect_with_location redirs ->
    follows req resp url s (redirs ++ [final]) s' ->
    0 <= redirectsCount ->
    redirectsCount + len redirs <= maxRedirectsCount ->
    (List.length redirs < fuel)%nat ->
    let st := resp_statusCode final in
    let round := follow_loop fuel req resp url statusCode redirectsCount s in
    exists rq,
      (is_redirect st = false ->
       round = Some (mkFollowResult st None rq final s'))
      /\ (is_redirect st = true ->
          redirectsCount + len redirs = maxRedirectsCount ->
          round = Some (mkFollowResult st (Some errTooManyRedirects) rq final s'))
      /\ (is_redirect st = true ->
          redirectsCount + len redirs < maxRedirectsCount ->
          resp_location final = EmptyString ->
          round = Some (mkFollowResult st (Some errMissingLocation) rq final s')).
Proof.
  induction redirs as [|r redirs IH];
    intros fuel req resp url st rc s Hall Hs Hrc Hle Hf;
    (destruct fuel as [|fuel]; [simpl in Hf; lia|]).
  - simpl in Hs. inversion Hs as [|rq0 rs0 u0 s0 s1 s2 r0 rs Hdo Hrest]; subst.
    inversion Hrest; subst.
    unfold len in Hle; simpl in Hle.
    cbv zeta.
    rewrite (follow_loop_round fuel req resp final url st rc s s')
      by (auto; lia).
    exists (SetRequestURI_fresh req url).
    split; [intros H; rewrite H; reflexivity|].
    split.
    + intros H E. unfold len in E; simpl in E. rewrite H. simpl.
      replace (rc =? maxRedirectsCount) with true
        by (symmetry; apply Z.eqb_eq; lia).
      reflexivity.
    + intros H E L. unfold len in E; simpl in E. rewrite H. simpl.
      replace (rc =? maxRedirectsCount) with false
        by (symmetry; apply Z.eqb_neq; lia).
      rewrite L. reflexivity.
  - simpl in Hs. inversion Hs as [|rq0 rs0 u0 s0 s1 s2 r0 rs Hdo Hrest]; subst.
    inversion Hall as [|r0 rs [Hred Hloc] Hall']; subst.
    unfold len in Hle. simpl List.length in Hle.
    cbv zeta.
    rewrite (follow_loop_round fuel req resp r url st rc s s1)
      by (auto; lia).
    rewrite Hred. simpl negb. cbv iota.
    destruct (rc =? maxRedirectsCount) eqn:E; [apply Z.eqb_eq in E; lia|].
    destruct (String.eqb_spec (resp_location r) EmptyString) as [El|El];
      [contradiction|].
    destruct (IH fuel (SetRequestURI_fresh req url) r
                (getRedirectURL url (resp_location r)) (resp_statusCode r)
                (rc + 1) s1 Hall' Hrest) as [rq [H1 [H2 H3]]].
    + lia.
    + unfold len. lia.
    + simpl in Hf. lia.
    + exists rq. unfold len in *. simpl List.length.
      split; [exact H1|]. split.
      * intros H Ec. apply H2; [exact H | lia].
      * intros H Ec L. apply H3; [exact H | lia | exact L].
Qed.

Lemma follow_loop_too_many (redirs : list Response) :
  forall fuel req resp url statusCode redirectsCount s s',
    Forall redirect_with_location redirs ->
    follows req resp url s redirs s' ->
    0 <= redirectsCount <= maxRedirectsCount ->
    redirectsCount + len redirs = maxRedirectsCount + 1 ->
    (List.length redirs <= fuel)%nat ->
    exists rq,
      follow_loop fuel req resp url statusCode redirectsCount s
      = Some (mkFollowResult (resp_statusCode (last redirs resp))
                (Some errTooManyRedirects) rq (last redirs resp) s').
Proof.
  induction redirs as [|r redirs IH];
    intros fuel req resp url st rc s s' Hall Hs Hrc Hle Hf.
  - exfalso. unfold len, maxRedirectsCount in *. simpl in Hle. lia.
  - destruct fuel as [|fuel]; [simpl in Hf; lia|].
    inversion Hs as [|rq0 rs0 u0 s0 s1 s2 r0 rs Hdo Hrest]; subst.
    inversion Hall as [|r0 rs [Hred Hloc] Hall']; subst.
    unfold len in Hle. simpl List.length in Hle.
    rewrite (follow_loop_round fuel req resp r url st rc s s1) by auto.
    rewrite Hred. simpl negb. cbv iota.
    destruct (rc =? maxRedirectsCount) eqn:E; unfold maxRedirectsCount in *.
    + apply Z.eqb_eq in E. destruct redirs as [|r' redirs].
      * inversion Hrest; subst. simpl. eexists. reflexivity.
      * exfalso. simpl List.length in Hle. lia.
    + apply Z.eqb_neq in E.
      destruct (String.eqb_spec (resp_location r) EmptyString) as [El|El];
        [contradiction|].
      destruct redirs as [|r' redirs].
      * exfalso. simpl in Hle. lia.
      * destruct (IH fuel (SetRequestURI_fresh req url) r
                    (getRedirectURL url (resp_location r)) (resp_statusCode r)
                    (rc + 1) s1 s') as [rq Hrq]; auto; try lia.
        { unfold len. simpl List.length in *. lia. }
        { simpl in Hf. simpl. lia. }
        exists rq. rewrite Hrq.
        change (last (r :: r' :: redirs) resp) with (last (r' :: redirs) resp).
        replace (last (r' :: redirs) r) with (last (r' :: redirs) resp);
          [reflexivity|].
        clear. revert r'. induction redirs as [|a l IHl]; intros r';
          [reflexivity|]. simpl in *. apply IHl.
Qed.

Lemma follows_prefix (rs1 rs2 : list Response) :
  forall req resp url s s',
    follows req resp url s (rs1 ++ rs2) s' ->
    exists s1, follows req resp url s rs1 s1.
Proof.
  induction rs1 as [|r rs1 IH]; simpl; intros req resp url s s' H.
  - exists s. constructor.
  - inversion H as [|rq0 rs0 u0 s0 s1 s2 r0 rs Hdo Hrest]; subst.
    destruct (IH _ _ _ _ _ Hrest) as [s3 H1].
    exists s3. econstructor; eauto.
Qed.

Lemma Forall_last {A : Type} (P : A -> Prop) (l : list A) (d : A) :
  Forall P l -> l <> [] -> P (last l d).
Proof.
  induction l as [|a l IH]; intros H Hn; [congruence|].
  inversion H; subst. destruct l as [|b l]; [assumption|].
  change (last (a :: b :: l) d) with (last (b :: l) d).
  apply IH; [assumption | discriminate].
Qed.

Lemma Forall_firstn_keep {A : Type} (P : A -> Prop) (n : nat) (l : list A) :
  Forall P l -> Forall P (firstn n l).
Proof.
  revert l. induction n as [|n IH]; intros l H; simpl; [constructor|].
  destruct l as [|a l]; [constructor|].
  inversion H; subst. constructor; [assumption | apply IH; assumption].
Qed.

(** C5. When the doer answers the calls of the follower with [k]
    redirects, each with a Location, and then with a response that is not
    a redirect, the follower returns that last response (status code,
    body, no error) if [k <= 16], and errTooManyRedirects if [k >= 17],
    having then made 17 calls.  In both cases the loop ends within its 17
    rounds. *)
Theorem follow_redirects_bounded (req : Request) (dst url : string)
    (s s' : C) (redirs : list Response) (final : Response) :
  Forall redirect_with_location redirs ->
  is_redirect (resp_statusCode final) = false ->
  follows req (set_resp_body emptyResponse dst) url s (redirs ++ [final]) s' ->
  ((List.length redirs <= 16)%nat ->
   doRequestFollowRedirects req dst url s
   = Some (resp_statusCode final, resp_body final, None, s'))
  /\ ((17 <= List.length redirs)%nat ->
      exists st body s17,
        doRequestFollowRedirects req dst url s
        = Some (st, body, Some errTooManyRedirects, s17)
        /\ is_redirect st = true
        /\ follows req (set_resp_body emptyResponse dst) url s
             (firstn 17 redirs) s17).
Proof.
  intros Hall Hfin Hs. unfold doRequestFollowRedirects. split.
  - intros Hk.
    destruct (follow_loop_chain final s' redirs (S (Z.to_nat maxRedirectsCount))
                req (set_resp_body emptyResponse dst) url 0 0 s Hall Hs)
      as [rq [Hrq _]]; try lia.
    + unfold len, maxRedirectsCount. lia.
    + unfold maxRedirectsCount. simpl. lia.
    + rewrite (Hrq Hfin). reflexivity.
  - intros Hk.
    rewrite <- (firstn_skipn 17 redirs), <- app_assoc in Hs.
    apply follows_prefix in Hs. destruct Hs as [s17 Hs17].
    assert (Hlen : List.length (firstn 17 redirs) = 17%nat)
      by (rewrite length_firstn; lia).
    assert (Hall17 : Forall redirect_with_location (firstn 17 redirs))
      by (apply Forall_firstn_keep; exact Hall).
    destruct (follow_loop_too_many (firstn 17 redirs)
                (S (Z.to_nat maxRedirectsCount))
                req (set_resp_body emptyResponse dst) url 0 0 s s17)
      as [rq Hrq]; auto.
    + unfold maxRedirectsCount. lia.
    + unfold len, maxRedirectsCount. lia.
    + rewrite Hlen. unfold maxRedirectsCount. simpl Z.to_nat. lia.
    + rewrite Hrq. simpl. eexists. eexists. eexists.
      split; [reflexivity|]. split; [|exact Hs17].
      apply (Forall_last _ _ (set_resp_body emptyResponse dst)) in Hall17.
      * destruct Hall17 as [H _]. exact H.
      * intros E. rewrite E in Hlen. discriminate.
Qed.

(** C6 (amended). The follower takes exactly 301, 302 and 303 for
    redirects.  After any number [k <= 16] of redirects with a Location,
    a response with any other status (307 and 308 too) ends the loop and
    is returned without error.  A redirect that is the 17th in a row
    ([k = 16]) ends the loop with errTooManyRedirects, whatever its
    Location; any earlier redirect ([k < 16]) whose Location is empty or
    absent ends it with errMissingLocation. *)
Theorem follow_redirect_classification (req : Request) (dst url : string)
    (s s' : C) (redirs : list Response) (r : Response) :
  Forall redirect_with_location redirs ->
  follows req (set_resp_body emptyResponse dst) url s (redirs ++ [r]) s' ->
  (List.length redirs <= 16)%nat ->
  let st := resp_statusCode r in
  let result := doRequestFollowRedirects req dst url s in
  (forall n, is_redirect n = true <-> n = 301 \/ n = 302 \/ n = 303)
  /\ is_redirect 307 = false /\ is_redirect 308 = false
  /\ (is_redirect st = false ->
      result = Some (st, resp_body r, None, s'))
  /\ (is_redirect st = true -> List.length redirs = 16%nat ->
      result = Some (st, resp_body r, Some errTooManyRedirects, s'))
  /\ (is_redirect st = true -> (List.length redirs < 16)%nat ->
      resp_location r = EmptyString ->
      result = Some (st, resp_body r, Some errMissingLocation, s')).
Proof.
  intros Hall Hs Hk st result.
  split; [exact is_redirect_statuses|].
  split; [reflexivity|]. split; [reflexivity|].
  unfold result, doRequestFollowRedirects.
  destruct (follow_loop_chain r s' redirs (S (Z.to_nat maxRedirectsCount))
              req (set_resp_body emptyResponse dst) url 0 0 s Hall Hs)
    as [rq [H1 [H2 H3]]]; try lia.
  - unfold len, maxRedirectsCount. lia.
  - unfold maxRedirectsCount. simpl. lia.
  - fold st in H1, H2, H3. split; [|split].
    + intros H. rewrite (H1 H). reflexivity.
    + intros H E. rewrite (H2 H); [reflexivity|].
      unfold len, maxRedirectsCount. lia.
    + intros H E L. rewrite (H3 H); [reflexivity | | exact L].
      unfold len, maxRedirectsCount. lia.
Qed.

End FollowerProperties.


(** * Further properties of the code *)

(** ** The idle reaper *)

Lemma Sub_antitone (now a b : Time) : a <= b -> Sub now b <= Sub now a.
Proof.
  unfold Sub, minInt64, maxInt64. intros H.
  destruct (now - b <? - 2 ^ 63) eqn:E1; destruct (now - a <? - 2 ^ 63) eqn:E2;
    try apply Z.ltb_lt in E1; try apply Z.ltb_lt in E2;
    try apply Z.ltb_ge in E1; try apply Z.ltb_ge in E2;
    destruct (2 ^ 63 - 1 <? now - b) eqn:E3;
    destruct (2 ^ 63 - 1 <? now - a) eqn:E4;
    try apply Z.ltb_lt in E3; try apply Z.ltb_lt in E4;
    try apply Z.ltb_ge in E3; try apply Z.ltb_ge in E4; lia.
Qed.

Lemma expired_prefix_le (now : Time) (maxIdle : Duration) (l : list clientConn) :
  (expired_prefix now maxIdle l <= List.length l)%nat.
Proof.
  induction l as [|cc l IH]; simpl; [lia|].
  destruct (maxIdle <? Sub now (lastUseTime cc)); simpl; lia.
Qed.

Lemma expired_prefix_all (now : Time) (maxIdle : Duration) (l : list clientConn) :
  Forall (expired now maxIdle) (firstn (expired_prefix now maxIdle l) l).
Proof.
  induction l as [|cc l IH]; simpl; [constructor|].
  destruct (maxIdle <? Sub now (lastUseTime cc)) eqn:E; simpl; [|constructor].
  constructor; [apply Z.ltb_lt; exact E | exact IH].
Qed.

Lemma expired_prefix_next (now : Time) (maxIdle : Duration) (l : list clientConn) :
  match skipn (expired_prefix now maxIdle l) l with
  | [] => True
  | cc :: _ => ~ expired now maxIdle cc
  end.
Proof.
  induction l as [|cc l IH]; simpl; [exact I|].
  destruct (maxIdle <? Sub now (lastUseTime cc)) eqn:E; simpl; [exact IH|].
  unfold expired. apply Z.ltb_ge in E. lia.
Qed.

Lemma sorted_skipn (n : nat) (l : list clientConn) :
  sorted_by_lastUse l -> sorted_by_lastUse (skipn n l).
Proof.
  revert l. induction n as [|n IH]; intros l H; [exact H|].
  destruct l as [|cc l]; [exact I|]. simpl. apply IH. apply H.
Qed.

Lemma sorted_none_expired (now : Time) (maxIdle : Duration) (l : list clientConn) :
  sorted_by_lastUse l ->
  match l with [] => True | cc :: _ => ~ expired now maxIdle cc end ->
  Forall (fun cc => ~ expired now maxIdle cc) l.
Proof.
  destruct l as [|cc l]; intros Hs Hh; [constructor|].
  constructor; [exact Hh|].
  destruct Hs as [Hle _]. apply Forall_forall. intros cc' Hin.
  unfold expired in *. pose proof (Sub_antitone now _ _ (Hle cc' Hin)). lia.
Qed.

Lemma closeConns_spec (scratch : list clientConn) :
  forall w,
    w_trace (snd (closeConns scratch w))
      = rev (map (fun cc => EvConnClose (cc_c cc)) scratch) ++ w_trace w
    /\ conns (w_hc (snd (closeConns scratch w))) = conns (w_hc w)
    /\ w_attempt (snd (closeConns scratch w)) = w_attempt w
    /\ (len scratch <= connsCount (w_hc w) <= maxInt64 ->
        0 <= connsCount (w_hc w) - len scratch ->
        connsCount (w_hc (snd (closeConns scratch w)))
          = connsCount (w_hc w) - len scratch).
Proof.
  induction scratch as [|cc rest IH]; intros w; simpl.
  - unfold len; simpl. repeat split; try reflexivity. intros; lia.
  - unfold bind. 
    destruct (closeConn cc w) as [u w1] eqn:E.
    unfold closeConn, bind, modify_hc, emit, decConnsCount in E.
    inversion E; subst; clear E.
    destruct (IH {| w_hc := set_connsCount (w_hc w) (wrap64 (connsCount (w_hc w) - 1));
                    w_trace := EvConnClose (cc_c cc) :: w_trace w;
                    w_attempt := w_attempt w |}) as [T [Cn [At Cnt]]].
    simpl in *. rewrite T, Cn, At.
    split; [rewrite <- app_assoc; reflexivity|].
    split; [reflexivity|]. split; [reflexivity|].
    intros H1 H2.
    assert (Hlen : len (cc :: rest) = len rest + 1)
      by (unfold len; simpl List.length; lia).
    rewrite Hlen in *.
    pose proof (len_nonneg rest) as Hn.
    assert (Hw : wrap64 (connsCount (w_hc w) - 1) = connsCount (w_hc w) - 1)
      by (apply wrap64_id; unfold in_int64, minInt64, maxInt64 in *; lia).
    rewrite Cnt; rewrite ?Hw; lia.
Qed.


Lemma connsCleaner_cycle_unfold (now : Time) (w : World) :
  let c := w_hc w in
  let i := expired_prefix now (maxIdleConnDuration_of c) (conns c) in
  connsCleaner_cycle now w
  = (connsCount c =? Z.of_nat i,
     snd (closeConns (firstn i (conns c))
            (mkWorld (set_conns c (skipn i (conns c))) (w_trace w) (w_attempt w)))).
Proof.
  intros c i. unfold connsCleaner_cycle, connsCleaner_locked, bind, get_hc,
    modify_hc, ret. fold c. fold i.
  destruct (0 <? i)%nat eqn:E.
  - destruct (closeConns _ _) as [u w1]. reflexivity.
  - apply Nat.ltb_ge in E. assert (i = 0%nat) by lia.
    replace (expired_prefix now (maxIdleConnDuration_of c) (conns c)) with i
      by reflexivity.
    rewrite H. simpl. unfold ret. destruct w as [[] ? ?]; reflexivity.
Qed.

(** A cycle in terms of the number [i] of expired slots at the head. *)
Lemma connsCleaner_cycle_state (now : Time) (w : World) :
  len (conns (w_hc w)) <= connsCount (w_hc w) <= maxInt64 ->
  let c := w_hc w in
  let i := expired_prefix now (maxIdleConnDuration_of c) (conns c) in
  let w' := snd (connsCleaner_cycle now w) in
  fst (connsCleaner_cycle now w) = (connsCount c =? Z.of_nat i)
  /\ conns (w_hc w') = skipn i (conns c)
  /\ w_trace w'
     = rev (map (fun cc => EvConnClose (cc_c cc)) (firstn i (conns c))) ++ w_trace w
  /\ connsCount (w_hc w') = connsCount c - Z.of_nat i
  /\ Z.of_nat i <= len (conns c).
Proof.
  intros Hinv c i w'. unfold w'. rewrite connsCleaner_cycle_unfold.
  fold c. fold i. simpl fst. simpl snd.
  destruct (closeConns_spec (firstn i (conns c))
              (mkWorld (set_conns c (skipn i (conns c))) (w_trace w) (w_attempt w)))
    as [T [Cn [_ Cnt]]].
  simpl in T, Cn, Cnt.
  assert (Hi : Z.of_nat i <= len (conns c)).
  { pose proof (expired_prefix_le now (maxIdleConnDuration_of c) (conns c)) as H.
    fold i in H. unfold len. lia. }
  assert (Hl : len (firstn i (conns c)) = Z.of_nat i).
  { unfold len in *. rewrite length_firstn. lia. }
  rewrite Hl in Cnt. fold c in Hinv.
  split; [reflexivity|]. split; [exact Cn|]. split; [exact T|].
  split; [apply Cnt; lia | exact Hi].
Qed.

(** X1. A cycle of the idle reaper evicts the longest run of slots at the
    head of the idle list that were last used more than the idle limit
    ago (MaxIdleConnDuration, or 10 s when that is not positive): the
    evicted slots followed by the kept ones are the old idle list, every
    evicted slot is expired and the first kept one is not; the transport
    of each evicted slot is closed, oldest first, and connsCount goes down
    by their number. *)
Theorem connsCleaner_cycle_evicts (now : Time) (w : World) :
  len (conns (w_hc w)) <= connsCount (w_hc w) <= maxInt64 ->
  let c := w_hc w in
  let maxIdle := maxIdleConnDuration_of c in
  let w' := snd (connsCleaner_cycle now w) in
  exists evicted : list clientConn,
    conns c = evicted ++ conns (w_hc w')
    /\ Forall (expired now maxIdle) evicted
    /\ match conns (w_hc w') with
       | [] => True
       | cc :: _ => ~ expired now maxIdle cc
       end
    /\ w_trace w' = rev (map (fun cc => EvConnClose (cc_c cc)) evicted) ++ w_trace w
    /\ connsCount (w_hc w') = connsCount c - len evicted.
Proof.
  intros Hinv c maxIdle w'.
  destruct (connsCleaner_cycle_state now w Hinv) as [_ [Cn [T [Cnt Hi]]]].
  fold c in Cn, T, Cnt, Hi. fold maxIdle in Cn, T, Cnt, Hi. fold w' in Cn, T, Cnt.
  set (i := expired_prefix now maxIdle (conns c)) in *.
  exists (firstn i (conns c)). rewrite Cn.
  split; [symmetry; apply firstn_skipn|].
  split; [apply expired_prefix_all|].
  split; [apply expired_prefix_next|].
  split; [exact T|].
  rewrite Cnt. f_equal. unfold len in *. rewrite length_firstn. lia.
Qed.

(** X2. When the idle list is in the order of last use, a cycle of the
    reaper leaves no expired slot behind, and what it keeps is still in
    that order. *)
Theorem connsCleaner_cycle_sorted (now : Time) (w : World) :
  sorted_by_lastUse (conns (w_hc w)) ->
  let maxIdle := maxIdleConnDuration_of (w_hc w) in
  let w' := snd (connsCleaner_cycle now w) in
  sorted_by_lastUse (conns (w_hc w'))
  /\ Forall (fun cc => Sub now (lastUseTime cc) <= maxIdle) (conns (w_hc w')).
Proof.
  intros Hs maxIdle w'. unfold w'. rewrite connsCleaner_cycle_unfold.
  fold maxIdle. simpl snd.
  set (i := expired_prefix now maxIdle (conns (w_hc w))).
  destruct (closeConns_spec (firstn i (conns (w_hc w)))
              (mkWorld (set_conns (w_hc w) (skipn i (conns (w_hc w))))
                 (w_trace w) (w_attempt w)))
    as [_ [Cn _]].
  simpl in Cn. rewrite Cn.
  pose proof (sorted_skipn i _ Hs) as Hs'.
  split; [exact Hs'|].
  pose proof (sorted_none_expired now maxIdle _ Hs'
                (expired_prefix_next now maxIdle (conns (w_hc w)))) as H.
  eapply Forall_impl; [|exact H].
  intros cc Hcc. unfold expired in Hcc. simpl in Hcc. lia.
Qed.

(** X3. With no more idle slots than connections, a cycle of the reaper
    tells the reaper to stop exactly when it leaves no connection at all:
    connsCount is then 0 and the idle list is empty; otherwise some
    connection is left and the reaper goes on. *)
Theorem connsCleaner_cycle_stops (now : Time) (w : World) :
  len (conns (w_hc w)) <= connsCount (w_hc w) <= maxInt64 ->
  let mustStop := fst (connsCleaner_cycle now w) in
  let w' := snd (connsCleaner_cycle now w) in
  (mustStop = true <-> connsCount (w_hc w') = 0)
  /\ (mustStop = true -> conns (w_hc w') = [])
  /\ (mustStop = false -> 0 < connsCount (w_hc w')).
Proof.
  intros Hinv mustStop w'.
  destruct (connsCleaner_cycle_state now w Hinv) as [Hm [Cn [_ [Cnt Hi]]]].
  fold mustStop in Hm. fold w' in Cn, Cnt.
  set (i := expired_prefix now (maxIdleConnDuration_of (w_hc w)) (conns (w_hc w))) in *.
  split; [|split].
  - rewrite Hm, Z.eqb_eq. lia.
  - rewrite Hm, Z.eqb_eq. intros E. rewrite Cn.
    apply skipn_all2. unfold len in *. lia.
  - rewrite Hm, Z.eqb_neq. lia.
Qed.


Lemma closeConns_maxIdle (l : list clientConn) :
  forall w, maxIdleConnDuration_of (w_hc (snd (closeConns l w)))
            = maxIdleConnDuration_of (w_hc w).
Proof.
  induction l as [|cc l IH]; intros w; [reflexivity|].
  simpl. unfold bind, closeConn, modify_hc, emit, bind. simpl.
  rewrite IH. reflexivity.
Qed.

Lemma connsCleaner_cycle_maxIdle (now : Time) (w : World) :
  maxIdleConnDuration_of (w_hc (snd (connsCleaner_cycle now w)))
  = maxIdleConnDuration_of (w_hc w).
Proof.
  rewrite connsCleaner_cycle_unfold. simpl snd. rewrite closeConns_maxIdle.
  reflexivity.
Qed.

(** The reaper alone on a pool without slots in use. *)
Lemma connsCleaner_drains (clock : nat -> Time) (n : nat) :
  forall (i : nat) (w : World),
    connsCount (w_hc w) = len (conns (w_hc w)) ->
    connsCount (w_hc w) <= maxInt64 ->
    Forall (expired (clock (i + n)%nat) (maxIdleConnDuration_of (w_hc w)))
      (conns (w_hc w)) ->
    exists k, (i < k <= i + S n)%nat
      /\ fst (connsCleaner clock (S n) i w) = Some k
      /\ conns (w_hc (snd (connsCleaner clock (S n) i w))) = []
      /\ connsCount (w_hc (snd (connsCleaner clock (S n) i w))) = 0.
Proof.
  induction n as [|n IH]; intros i w Hc Hmax Hall.
  - replace (i + 0)%nat with i in Hall by lia.
    cbn [connsCleaner]. unfold bind.
    assert (Hinv : len (conns (w_hc w)) <= connsCount (w_hc w) <= maxInt64) by lia.
    destruct (connsCleaner_cycle_state (clock i) w Hinv) as [Hm [Cn [_ [Cnt Hi]]]].
    set (j := expired_prefix (clock i) (maxIdleConnDuration_of (w_hc w))
                (conns (w_hc w))) in *.
    assert (Hj : j = List.length (conns (w_hc w))).
    { unfold j. clear - Hall. induction (conns (w_hc w)) as [|cc l IHl]; simpl.
      - reflexivity.
      - inversion Hall as [|x y Hx Hy]; subst. unfold expired in Hx.
        apply Z.ltb_lt in Hx. rewrite Hx. f_equal. apply IHl. exact Hy. }
    destruct (connsCleaner_cycle (clock i) w) as [ms w1]. simpl in *.
    assert (Hms : ms = true).
    { rewrite Hm. apply Z.eqb_eq. unfold len in Hc. lia. }
    rewrite Hms. unfold ret. simpl. exists (S i).
    split; [lia|]. split; [reflexivity|].
    split; [rewrite Cn; apply skipn_all2; lia|].
    rewrite Cnt. unfold len in Hc. lia.
  - cbn [connsCleaner]. unfold bind.
    assert (Hinv : len (conns (w_hc w)) <= connsCount (w_hc w) <= maxInt64) by lia.
    destruct (connsCleaner_cycle_state (clock i) w Hinv) as [Hm [Cn [_ [Cnt Hi]]]].
    set (j := expired_prefix (clock i) (maxIdleConnDuration_of (w_hc w))
                (conns (w_hc w))) in *.
    pose proof (connsCleaner_cycle_maxIdle (clock i) w) as Hcfg.
    destruct (connsCleaner_cycle (clock i) w) as [ms w1]. simpl in *.
    destruct ms.
    + unfold ret. simpl. exists (S i). split; [lia|]. split; [reflexivity|].
      symmetry in Hm. apply Z.eqb_eq in Hm.
      split; [rewrite Cn; apply skipn_all2; unfold len in *; lia|].
      rewrite Cnt. lia.
    + destruct (IH (S i) w1) as [k [Hk [R1 [R2 R3]]]].
      * rewrite Cn, Cnt, Hc. unfold len. rewrite length_skipn.
        unfold len in Hi. lia.
      * rewrite Cnt. lia.
      * rewrite Hcfg, Cn. replace (S i + n)%nat with (i + S n)%nat by lia.
        rewrite <- (firstn_skipn j (conns (w_hc w))) in Hall.
        apply Forall_app in Hall. apply Hall.
      * exists k. split; [lia|]. auto.
Qed.

(** X4. Left alone with a pool in which no slot is in use, the reaper ends:
    if at its cycle number [n] every idle slot is expired, it stops in that
    cycle at the latest, with the idle list empty and connsCount 0. *)
Theorem connsCleaner_stops_on_idle_pool (clock : nat -> Time) (n : nat)
    (w : World) :
  connsCount (w_hc w) = len (conns (w_hc w)) ->
  connsCount (w_hc w) <= maxInt64 ->
  Forall (expired (clock n) (maxIdleConnDuration_of (w_hc w))) (conns (w_hc w)) ->
  exists k, (0 < k <= S n)%nat
    /\ fst (connsCleaner clock (S n) 0 w) = Some k
    /\ conns (w_hc (snd (connsCleaner clock (S n) 0 w))) = []
    /\ connsCount (w_hc (snd (connsCleaner clock (S n) 0 w))) = 0.
Proof.
  intros Hc Hmax Hall.
  destruct (connsCleaner_drains clock n 0 w Hc Hmax Hall) as [k [Hk H]].
  exists k. split; [lia | exact H].
Qed.


(** ** More on the pool *)

Lemma sorted_app_last (l : list clientConn) (cc : clientConn) :
  sorted_by_lastUse l ->
  (forall cc', In cc' l -> lastUseTime cc' <= lastUseTime cc) ->
  sorted_by_lastUse (l ++ [cc]).
Proof.
  induction l as [|a l IH]; simpl; intros Hs Hle.
  - split; [intros cc' []|exact I].
  - destruct Hs as [Ha Hs]. split.
    + intros cc' Hin. apply in_app_or in Hin. destruct Hin as [Hin|[<-|[]]].
      * apply Ha. exact Hin.
      * apply Hle. left. reflexivity.
    + apply IH; [exact Hs|]. intros cc' Hin. apply Hle. right. exact Hin.
Qed.

Lemma sorted_app_front (l l' : list clientConn) :
  sorted_by_lastUse (l ++ l') -> sorted_by_lastUse l.
Proof.
  induction l as [|a l IH]; simpl; intros Hs; [exact I|].
  destruct Hs as [Ha Hs]. split.
  - intros cc' Hin. apply Ha. apply in_or_app. left. exact Hin.
  - apply IH. exact Hs.
Qed.

Lemma run_ops_sorted (ops : list pool_op) :
  forall st st',
    sorted_by_lastUse (conns (w_hc (fst st))) ->
    (forall cc t, In cc (conns (w_hc (fst st))) -> In t (release_times ops) ->
                  lastUseTime cc <= t) ->
    nondecreasing (release_times ops) ->
    run_ops ops st = Some st' ->
    sorted_by_lastUse (conns (w_hc (fst st'))).
Proof.
  induction ops as [|o ops IH]; intros st st' Hs Hle Hnd Hrun; simpl in Hrun.
  - inversion Hrun; subst. exact Hs.
  - destruct (run_op o st) as [st1|] eqn:E; [|discriminate].
    destruct st as [w held]. simpl in Hs, Hle.
    destruct o as [d|now cc|cc]; simpl in E, Hle, Hnd.
    + destruct (acquireConn d w) as [r w1] eqn:Ea.
      apply acquireConn_pool in Ea. simpl in Ea. destruct Ea as [_ Ea].
      assert (Hsub : forall x, In x (conns (w_hc w1)) -> In x (conns (w_hc w))).
      { destruct r as [c1|e].
        - destruct Ea as [[E1 _]|[_ [E2 _]]].
          + rewrite E1. intros x Hx. apply in_or_app. left. exact Hx.
          + rewrite E2. intros x [].
        - destruct Ea as [E1 _]. rewrite E1. auto. }
      assert (Hs1 : sorted_by_lastUse (conns (w_hc w1))).
      { destruct r as [c1|e].
        - destruct Ea as [[E1 _]|[_ [E2 _]]].
          + rewrite E1 in Hs. eapply sorted_app_front. exact Hs.
          + rewrite E2. exact I.
        - destruct Ea as [E1 _]. rewrite E1. exact Hs. }
      destruct r as [c1|e]; inversion E; subst;
        (eapply IH; [| | exact Hnd | exact Hrun]; simpl; auto).
    + destruct (take_held cc held) as [held'|]; [|discriminate].
      inversion E; subst. destruct Hnd as [Hnow Hnd].
      eapply IH; [| | exact Hnd | exact Hrun];
        unfold releaseConn, modify_hc; simpl.
      * apply sorted_app_last; [exact Hs|]. simpl.
        intros cc' Hin. apply Hle; [exact Hin | left; reflexivity].
      * intros x t Hx Ht. apply in_app_or in Hx. destruct Hx as [Hx|[<-|[]]].
        -- apply Hle; [exact Hx | right; exact Ht].
        -- simpl. apply Hnow. exact Ht.
    + destruct (take_held cc held) as [held'|]; [|discriminate].
      inversion E; subst.
      eapply IH; [| | exact Hnd | exact Hrun];
        unfold closeConn, bind, modify_hc, emit, decConnsCount; simpl; auto.
Qed.

(** X5. releaseConn stamps the slot before it takes the lock and appends
    it.  If the slots are appended in the order of their stamps (no
    release appends a slot with an earlier stamp than one appended before
    it, as when releases do not overlap), the idle list stays in the
    order of last use, oldest first, through every sequence of
    acquireConn, releaseConn and closeConn that starts with an empty idle
    list: the order that the prefix scan of the reaper relies on. *)
Theorem pool_keeps_last_use_order (w0 w : World) (ops : list pool_op)
    (held : list clientConn) :
  conns (w_hc w0) = [] ->
  nondecreasing (release_times ops) ->
  run_ops ops (w0, []) = Some (w, held) ->
  sorted_by_lastUse (conns (w_hc w)).
Proof.
  intros Hc Hnd Hrun.
  apply (run_ops_sorted ops (w0, []) (w, held)); simpl; auto.
  - rewrite Hc. exact I.
  - rewrite Hc. intros cc t [].
Qed.

(** X6. The pool hands out the slot that was released last: acquireConn
    right after releaseConn returns that very slot, stamped with the time
    of its release, without dialing, and the idle list and connsCount are
    as before the release. *)
Theorem acquireConn_after_releaseConn (d : dial_io) (now : Time)
    (cc : clientConn) (w : World) :
  let w1 := snd (releaseConn now cc w) in
  acquireConn d w1 = (inl (mkClientConn (cc_c cc) (createdTime cc) now), w).
Proof.
  intros w1. unfold w1, releaseConn, modify_hc. simpl.
  unfold acquireConn, acquireConn_locked, bind, get_hc, modify_hc, ret. simpl.
  assert (H : pop_tail (conns (w_hc w) ++
                        [mkClientConn (cc_c cc) (createdTime cc) now])
              = Some (conns (w_hc w),
                      mkClientConn (cc_c cc) (createdTime cc) now)).
  { induction (conns (w_hc w)) as [|a l IH]; simpl; [reflexivity|].
    rewrite IH. reflexivity. }
  rewrite H. simpl. destruct w as [[] ? ?]; reflexivity.
Qed.


(** acquireConn when nothing is idle and the cap is not reached. *)
Lemma acquireConn_create (d : dial_io) (w : World) :
  conns (w_hc w) = [] ->
  connsCount (w_hc w) < maxConns_of (w_hc w) ->
  let n1 := wrap64 (connsCount (w_hc w) + 1) in
  let w1 := mkWorld (set_connsCount (w_hc w) n1) (w_trace w) (w_attempt w) in
  let r := fst (dialHostHard d w1) in
  let w2 := snd (dialHostHard d w1) in
  acquireConn d w
  = match snd r with
    | Some err =>
        (inr err, mkWorld (decConnsCount (w_hc w2)) (w_trace w2) (w_attempt w2))
    | None =>
        (inl (acquireClientConn (fst r) (dio_created d)),
         if n1 =? 1
         then mkWorld (w_hc w2) (EvStartCleaner :: w_trace w2) (w_attempt w2)
         else w2)
    end.
Proof.
  intros Hc Hlt n1 w1 r w2.
  unfold acquireConn, acquireConn_locked, bind, get_hc, modify_hc, ret.
  rewrite Hc. simpl. apply Z.ltb_lt in Hlt. rewrite Hlt. simpl.
  fold n1. fold w1. unfold r, w2.
  destruct (dialHostHard d w1) as [[conn err] w3]. simpl.
  destruct err as [e|]; [reflexivity|].
  unfold emit. destruct (n1 =? 1); [reflexivity|].
  destruct w3; reflexivity.
Qed.

Lemma dialHostHard_connects (d : dial_io) (w : World) :
  always_connects d ->
  exists conn addr,
    fst (dialHostHard d w) = (Some conn, None)
    /\ w_trace (snd (dialHostHard d w)) = EvDial addr :: w_trace w.
Proof.
  intros Hd. unfold dialHostHard, bind, get_hc.
  set (n := if Nat.eqb (List.length (addrs (w_hc w))) 0 then 1%nat
            else List.length (addrs (w_hc w))).
  assert (Hn : exists n', n = S n').
  { unfold n. destruct (List.length (addrs (w_hc w))) as [|k]; simpl; eauto. }
  destruct Hn as [n' ->]. cbn [dialHostHard_loop]. unfold bind.
  destruct (dialHost_spec d 0 w) as [a [Hr Ht]].
  destruct (dialHost d 0 w) as [r w1]. simpl in Hr, Ht. subst r.
  destruct (Hd 0%nat a) as [conn Hc]. rewrite Hc. unfold ret. simpl.
  exists conn, a. split; [reflexivity | exact Ht].
Qed.

Lemma dialHostHard_pool (d : dial_io) (w : World) :
  conns (w_hc (snd (dialHostHard d w))) = conns (w_hc w)
  /\ connsCount (w_hc (snd (dialHostHard d w))) = connsCount (w_hc w)
  /\ hc_lastUseTime (w_hc (snd (dialHostHard d w))) = hc_lastUseTime (w_hc w)
  /\ clientName (w_hc (snd (dialHostHard d w))) = clientName (w_hc w)
  /\ w_attempt (snd (dialHostHard d w)) = w_attempt w.
Proof.
  destruct (dialHostHard_frame d w) as [[l [i F]] A].
  rewrite F. simpl. auto.
Qed.

(** X7. An acquireConn that fails leaves the pool as it was: whether the
    cap is reached or the dial fails, the idle list and connsCount are
    unchanged afterwards, so a failed dial does not use up a slot. *)
Theorem acquireConn_failure_keeps_pool (d : dial_io) (w w' : World) (e : error) :
  in_int64 (connsCount (w_hc w)) ->
  in_int64 (MaxConns (w_hc w)) ->
  acquireConn d w = (inr e, w') ->
  conns (w_hc w') = conns (w_hc w)
  /\ connsCount (w_hc w') = connsCount (w_hc w)
  /\ w_attempt w' = w_attempt w.
Proof.
  intros Hn Hm Ha.
  pose proof (acquireConn_attempt d w) as Hat. rewrite Ha in Hat. simpl in Hat.
  apply acquireConn_pool in Ha. simpl in Ha.
  destruct Ha as [_ [Hc [Hk|[_ [Hlt Hk]]]]].
  - auto.
  - split; [exact Hc|]. split; [|exact Hat]. rewrite Hk.
    pose proof (maxConns_of_range _ Hm) as Hr.
    unfold in_int64, minInt64, maxInt64 in *.
    rewrite (wrap64_id (connsCount (w_hc w) + 1))
      by (unfold in_int64, minInt64, maxInt64; lia).
    rewrite wrap64_id by (unfold in_int64, minInt64, maxInt64; lia).
    lia.
Qed.

(** X8. The reaper decides to stop while it still holds the pool lock and
    closes what it evicted only afterwards.  If every connection is idle
    and expired, connsCount is below the cap, the dialer connects, and
    acquireConn runs between the decision and the closes, then
    acquireConn finds connsCount at least 1, dials and starts no reaper,
    and the reaper still stops: in the end one connection exists, held by
    the caller of acquireConn, and no reaper is running.  (At the cap
    acquireConn returns ErrNoFreeConns instead.) *)
Theorem reaper_stops_before_late_connection (now : Time) (d : dial_io)
    (w : World) :
  conns (w_hc w) <> [] ->
  connsCount (w_hc w) = len (conns (w_hc w)) ->
  connsCount (w_hc w) < maxConns_of (w_hc w) ->
  in_int64 (MaxConns (w_hc w)) ->
  Forall (expired now (maxIdleConnDuration_of (w_hc w))) (conns (w_hc w)) ->
  always_connects d ->
  let locked := connsCleaner_locked now (w_hc w) in
  let scratch := fst (fst locked) in
  let mustStop := snd (fst locked) in
  let w1 := mkWorld (snd locked) (w_trace w) (w_attempt w) in
  let r := acquireConn d w1 in
  let w3 := snd (closeConns scratch (snd r)) in
  mustStop = true
  /\ scratch = conns (w_hc w)
  /\ (exists cc, fst r = inl cc)
  /\ (exists addr, w_trace (snd r) = EvDial addr :: w_trace w)
  /\ connsCount (w_hc w3) = 1
  /\ conns (w_hc w3) = [].
Proof.
  intros Hne Hc Hlt Hm Hall Hd locked scratch mustStop w1 r w3.
  pose proof (maxConns_of_range _ Hm) as Hr. unfold maxInt64 in Hr.
  pose proof (len_nonneg (conns (w_hc w))) as Hl.
  assert (Hi : expired_prefix now (maxIdleConnDuration_of (w_hc w)) (conns (w_hc w))
               = List.length (conns (w_hc w))).
  { clear - Hall. induction (conns (w_hc w)) as [|cc l IHl]; simpl.
    - reflexivity.
    - inversion Hall as [|x y Hx Hy]; subst. unfold expired in Hx.
      apply Z.ltb_lt in Hx. rewrite Hx. f_equal. apply IHl. exact Hy. }
  assert (Hpos : (0 < List.length (conns (w_hc w)))%nat).
  { destruct (conns (w_hc w)); [congruence | simpl; lia]. }
  assert (Hlocked : locked = (conns (w_hc w), true, set_conns (w_hc w) [])).
  { unfold locked, connsCleaner_locked. rewrite Hi.
    rewrite firstn_all, skipn_all.
    apply Nat.ltb_lt in Hpos. rewrite Hpos.
    replace (connsCount (w_hc w) =? Z.of_nat (List.length (conns (w_hc w))))
      with true by (symmetry; apply Z.eqb_eq; exact Hc).
    reflexivity. }
  unfold scratch, mustStop. unfold w3, r, scratch, w1. rewrite Hlocked. simpl.
  split; [reflexivity|]. split; [reflexivity|].
  set (w1' := mkWorld (set_conns (w_hc w) []) (w_trace w) (w_attempt w)).
  assert (Hc1 : conns (w_hc w1') = []) by reflexivity.
  assert (Hlt1 : connsCount (w_hc w1') < maxConns_of (w_hc w1')) by exact Hlt.
  assert (Hw : wrap64 (connsCount (w_hc w) + 1) = connsCount (w_hc w) + 1)
    by (apply wrap64_id; unfold in_int64, minInt64, maxInt64; lia).
  rewrite (acquireConn_create d w1' Hc1 Hlt1). cbv zeta.
  change (connsCount (w_hc w1')) with (connsCount (w_hc w)). rewrite Hw.
  replace (connsCount (w_hc w) + 1 =? 1) with false
    by (symmetry; apply Z.eqb_neq; unfold len in *; lia).
  match goal with
  | |- context [dialHostHard d ?W] =>
      destruct (dialHostHard_connects d W Hd) as [conn [addr [Hres Htr]]];
      destruct (dialHostHard_pool d W) as [Pc [Pn _]];
      destruct (dialHostHard d W) as [res w4]
  end.
  simpl in Hres, Htr, Pc, Pn. subst res. simpl.
  split; [eexists; reflexivity|].
  split; [exists addr; exact Htr|].
  destruct (closeConns_spec (conns (w_hc w)) w4) as [_ [Cn [_ Cnt]]].
  rewrite Cn, Pc. split; [|reflexivity].
  rewrite Cnt; rewrite Pn; unfold maxInt64; lia.
Qed.


(** ** Addresses *)

Lemma has_colon_app (a b : string) :
  has_colon (a ++ b) = has_colon a || has_colon b.
Proof.
  induction a as [|ch a IH]; simpl; [reflexivity|].
  rewrite IH. apply orb_assoc.
Qed.

(** X9. addMissingPort always yields an address with a port separator: an
    address that has one is left alone, any other gets ":443" under TLS
    and ":80" otherwise; so applying it again, with either setting,
    changes nothing. *)
Theorem addMissingPort_adds_port_once (addr : string) (isTLS isTLS' : bool) :
  has_colon (addMissingPort addr isTLS) = true
  /\ addMissingPort (addMissingPort addr isTLS) isTLS' = addMissingPort addr isTLS
  /\ (has_colon addr = true -> addMissingPort addr isTLS = addr)
  /\ (has_colon addr = false ->
      addMissingPort addr isTLS
      = (addr ++ (if isTLS then ":443" else ":80"))%string).
Proof.
  assert (H : has_colon (addMissingPort addr isTLS) = true).
  { unfold addMissingPort. destruct (has_colon addr) eqn:E; [exact E|].
    destruct isTLS; rewrite has_colon_app; simpl; apply orb_true_r. }
  split; [exact H|]. split.
  - unfold addMissingPort at 1. rewrite H. reflexivity.
  - unfold addMissingPort. split; intros E; rewrite E; [reflexivity|].
    destruct isTLS; reflexivity.
Qed.

Lemma nextAddr_hasDial (w : World) :
  hasDial (w_hc (snd (nextAddr w))) = hasDial (w_hc w)
  /\ IsTLS (w_hc (snd (nextAddr w))) = IsTLS (w_hc w).
Proof. unfold nextAddr. destruct (1 <? len _); simpl; auto. Qed.

Lemma dialHost_port (d : dial_io) (i : nat) (w : World) :
  hasDial (w_hc w) = false ->
  hasDial (w_hc (snd (dialHost d i w))) = false
  /\ exists a, w_trace (snd (dialHost d i w)) = EvDial a :: w_trace w
               /\ has_colon a = true.
Proof.
  intros H. unfold dialHost, bind, get_hc, emit, ret. rewrite H.
  pose proof (nextAddr_trace w) as Ht. pose proof (nextAddr_hasDial w) as [Hd _].
  destruct (nextAddr w) as [addr w1]. simpl in *.
  split; [congruence|]. eexists. split; [rewrite Ht; reflexivity|].
  unfold addMissingPort. destruct (has_colon addr) eqn:E; [exact E|].
  destruct (IsTLS (w_hc w)); rewrite has_colon_app; simpl; apply orb_true_r.
Qed.

Lemma dialHostHard_loop_port (d : dial_io) (deadline : Time) (n : nat) :
  forall i err w,
    hasDial (w_hc w) = false ->
    exists evs, w_trace (snd (dialHostHard_loop d deadline n i err w))
                = evs ++ w_trace w
                /\ forall e, In e evs -> exists a, e = EvDial a /\ has_colon a = true.
Proof.
  induction n as [|n IH]; intros i err w H; simpl.
  - exists []. split; [reflexivity | intros e []].
  - unfold bind. destruct (dialHost_port d i w H) as [H1 [a [Ht Ha]]].
    destruct (dialHost d i w) as [[conn|e] w1]; simpl in *.
    + exists [EvDial a]. split; [exact Ht|].
      intros e0 [<-|[]]. eauto.
    + destruct (0 <=? Since (dio_after d i) deadline); simpl.
      * exists [EvDial a]. split; [exact Ht|]. intros e0 [<-|[]]. eauto.
      * destruct (IH (S i) (Some e) w1 H1) as [evs [T P]].
        exists (evs ++ [EvDial a]). split.
        -- rewrite T, Ht, <- app_assoc. reflexivity.
        -- intros e0 Hin. apply in_app_or in Hin. destruct Hin as [Hin|[<-|[]]];
             [apply P; exact Hin | eauto].
Qed.

(** X10. With the default dialer (no Dial callback set), every address
    that acquireConn dials has a port: the separator is there, added by
    addMissingPort when the configured address lacks it. *)
Theorem acquireConn_dials_with_port (d : dial_io) (w : World) :
  hasDial (w_hc w) = false ->
  forall evs addr,
    w_trace (snd (acquireConn d w)) = evs ++ w_trace w ->
    In (EvDial addr) evs -> has_colon addr = true.
Proof.
  intros H evs addr Ht Hin.
  assert (G : exists evs', w_trace (snd (acquireConn d w)) = evs' ++ w_trace w
                           /\ forall e, In e evs' ->
                                e = EvStartCleaner
                                \/ exists a, e = EvDial a /\ has_colon a = true).
  { unfold acquireConn, acquireConn_locked, bind, get_hc, modify_hc, ret.
    destruct (pop_tail (conns (w_hc w))) as [[front cc]|]; simpl.
    - exists []. split; [reflexivity | intros e []].
    - destruct (connsCount (w_hc w) <? maxConns_of (w_hc w)); simpl.
      + unfold dialHostHard, bind, get_hc.
        match goal with
        | |- context [dialHostHard_loop d ?dl ?n 0 None ?w1] =>
            destruct (dialHostHard_loop_port d dl n 0%nat None w1 H) as [evs' [T P]];
            destruct (dialHostHard_loop d dl n 0 None w1) as [[conn err] w2]
        end.
        simpl in T. simpl. destruct err; simpl.
        * exists evs'. split; [exact T|]. intros ev Hin'. right. apply P. exact Hin'.
        * unfold emit.
          destruct (wrap64 (connsCount (w_hc w) + 1) =? 1); simpl.
          -- exists (EvStartCleaner :: evs'). split; [rewrite T; reflexivity|].
             intros ev [<-|Hin']; [left; reflexivity | right; apply P; exact Hin'].
          -- exists evs'. split; [exact T|]. intros ev Hin'. right. apply P. exact Hin'.
      + exists []. split; [reflexivity | intros e []]. }
  destruct G as [evs' [T P]]. rewrite T in Ht. apply app_inv_tail in Ht. subst evs'.
  destruct (P _ Hin) as [E|[a [E Ha]]]; [discriminate|].
  inversion E; subst. exact Ha.
Qed.


Lemma map_nth_rotate {A : Type} (l : list A) (d : A) (r : nat) :
  (r < List.length l)%nat ->
  map (fun j => nth ((r + j) mod List.length l) l d) (seq 0 (List.length l))
  = skipn r l ++ firstn r l.
Proof.
  intros Hr. set (n := List.length l).
  assert (Hls : List.length (skipn r l) = (n - r)%nat) by apply length_skipn.
  assert (Hlf : List.length (firstn r l) = r).
  { rewrite length_firstn. fold n. lia. }
  apply nth_ext with (d := d) (d' := d).
  - rewrite length_map, length_seq, length_app, Hls, Hlf. fold n in Hr. lia.
  - intros j Hj. rewrite length_map, length_seq in Hj.
    rewrite (nth_indep _ d ((fun j => nth ((r + j) mod n) l d) 0%nat))
      by (rewrite length_map, length_seq; exact Hj).
    rewrite (map_nth (fun j => nth ((r + j) mod n) l d)).
    rewrite seq_nth by exact Hj. simpl (0 + j)%nat.
    destruct (Nat.lt_ge_cases (r + j) n) as [Hlt|Hge].
    + rewrite Nat.mod_small by exact Hlt.
      rewrite app_nth1 by (rewrite Hls; lia).
      rewrite nth_skipn. reflexivity.
    + assert (E : ((r + j) mod n = r + j - n)%nat).
      { replace (r + j)%nat with ((r + j - n) + 1 * n)%nat at 1 by lia.
        rewrite Nat.Div0.mod_add. apply Nat.mod_small. fold n in Hr. lia. }
      rewrite E. rewrite app_nth2 by (rewrite Hls; lia).
      rewrite Hls. rewrite nth_firstn.
      replace (j - (n - r))%nat with (r + j - n)%nat by (fold n in Hr; lia).
      destruct (r + j - n <? r)%nat eqn:T; [reflexivity|].
      apply Nat.ltb_ge in T. fold n in Hr. lia.
Qed.

Lemma nextAddr_step (w : World) :
  1 < len (addrs_of (w_hc w)) < 2 ^ 32 ->
  fst (nextAddr w)
  = nth (Z.to_nat (addrIdx (w_hc w) mod len (addrs_of (w_hc w))))
        (addrs_of (w_hc w)) EmptyString
  /\ addrs_of (w_hc (snd (nextAddr w))) = addrs_of (w_hc w)
  /\ addrs (w_hc (snd (nextAddr w))) = addrs_of (w_hc w)
  /\ addrIdx (w_hc (snd (nextAddr w))) = uint32 (addrIdx (w_hc w) + 1).
Proof.
  intros Hn. unfold nextAddr. fold (addrs_of (w_hc w)).
  destruct (1 <? len (addrs_of (w_hc w))) eqn:E; [|apply Z.ltb_ge in E; lia].
  assert (Hu : uint32 (len (addrs_of (w_hc w))) = len (addrs_of (w_hc w))).
  { unfold uint32. apply Z.mod_small. lia. }
  rewrite Hu. cbn [fst snd w_hc].
  destruct (addrs_of (w_hc w)) as [|a l] eqn:L; [unfold len in Hn; simpl in Hn; lia|].
  destruct (w_hc w); unfold addrs_of, set_addrs; simpl. auto.
Qed.

Lemma nextAddrs_spec (k : nat) :
  forall w,
    1 < len (addrs_of (w_hc w)) < 2 ^ 32 ->
    0 <= addrIdx (w_hc w) < 2 ^ 32 ->
    fst (nextAddrs k w)
    = map (fun j => nth (Z.to_nat (uint32 (addrIdx (w_hc w) + Z.of_nat j)
                                   mod len (addrs_of (w_hc w))))
                        (addrs_of (w_hc w)) EmptyString)
          (seq 0 k).
Proof.
  induction k as [|k IH]; intros w Hn Hi; [reflexivity|].
  cbn [nextAddrs]. unfold bind, ret.
  destruct (nextAddr_step w Hn) as [Ha [Hl [_ Hx]]].
  destruct (nextAddr w) as [a w1]. cbn [fst snd] in *.
  assert (Hi1 : 0 <= addrIdx (w_hc w1) < 2 ^ 32).
  { rewrite Hx. unfold uint32. apply Z.mod_pos_bound. lia. }
  assert (Hn1 : 1 < len (addrs_of (w_hc w1)) < 2 ^ 32) by (rewrite Hl; exact Hn).
  specialize (IH w1 Hn1 Hi1).
  destruct (nextAddrs k w1) as [rest w2]. cbn [fst] in *.
  cbn [seq map]. f_equal.
  - rewrite Ha. rewrite Z.add_0_r. unfold uint32.
    rewrite (Z.mod_small (addrIdx (w_hc w)) (2 ^ 32)) by exact Hi. reflexivity.
  - rewrite IH. rewrite <- seq_shift, map_map. apply map_ext. intros j.
    rewrite Hl, Hx. unfold uint32.
    rewrite Zplus_mod_idemp_l.
    replace (addrIdx (w_hc w) + 1 + Z.of_nat j)
      with (addrIdx (w_hc w) + Z.of_nat (S j)) by lia.
    reflexivity.
Qed.

(** X11. nextAddr goes round the address list: with more than one
    address, as many calls in a row as there are addresses return every
    address exactly once, in list order, starting at the one the cursor
    [addrIdx] points to (as long as the 32-bit cursor does not wrap
    during these calls). *)
Theorem nextAddr_round_robin (w : World) :
  let l := addrs_of (w_hc w) in
  let r := Z.to_nat (addrIdx (w_hc w) mod len l) in
  1 < len l ->
  0 <= addrIdx (w_hc w) ->
  addrIdx (w_hc w) + len l < 2 ^ 32 ->
  fst (nextAddrs (List.length l) w) = skipn r l ++ firstn r l.
Proof.
  intros l r Hn Hi Hw.
  assert (Hn' : 1 < len l < 2 ^ 32) by lia.
  assert (Hi' : 0 <= addrIdx (w_hc w) < 2 ^ 32) by lia.
  rewrite (nextAddrs_spec _ w Hn' Hi').
  fold l. rewrite <- (map_nth_rotate l EmptyString r).
  - apply map_ext_in. intros j Hj. apply in_seq in Hj.
    f_equal. unfold uint32, len in *.
    rewrite (Z.mod_small (addrIdx (w_hc w) + Z.of_nat j)) by lia.
    unfold r. rewrite <- Zplus_mod_idemp_l.
    rewrite Z2Nat.inj_mod.
    + rewrite Z2Nat.inj_add.
      * rewrite !Nat2Z.id. reflexivity.
      * apply Z.mod_pos_bound. lia.
      * lia.
    + assert (0 <= addrIdx (w_hc w) mod Z.of_nat (List.length l))
        by (apply Z.mod_pos_bound; lia). lia.
    + lia.
  - unfold r, len in *.
    assert (0 <= addrIdx (w_hc w) mod Z.of_nat (List.length l)
            < Z.of_nat (List.length l)) by (apply Z.mod_pos_bound; lia).
    lia.
Qed.


(** ** The time of the last use *)

Lemma acquireConn_lastUseTime (d : dial_io) (w : World) :
  hc_lastUseTime (w_hc (snd (acquireConn d w))) = hc_lastUseTime (w_hc w).
Proof.
  unfold acquireConn, acquireConn_locked, bind, get_hc, modify_hc, ret.
  destruct (pop_tail (conns (w_hc w))) as [[front cc]|]; simpl; [reflexivity|].
  destruct (connsCount (w_hc w) <? maxConns_of (w_hc w)); simpl; [|reflexivity].
  match goal with |- context [dialHostHard d ?w1] =>
    pose proof (dialHostHard_frame d w1) as F;
    destruct (dialHostHard d w1) as [[conn err] w2] end.
  destruct F as [[l [i F]] _]. simpl in *.
  destruct err; simpl.
  - rewrite F. reflexivity.
  - unfold emit.
    destruct (wrap64 (connsCount (w_hc w) + 1) =? 1); simpl; rewrite F; reflexivity.
Qed.

Lemma exchange_summary_lastUseTime (x : exchange_io) (req : Request)
    (resp : option Response) (cc : clientConn) (w1 : World) :
  hc_lastUseTime (w_hc (snd (exchange_summary x req resp cc w1)))
  = hc_lastUseTime (w_hc w1).
Proof.
  unfold exchange_summary. simpl.
  destruct (getClientName_hc_frame (w_hc w1)) as [n Hn].
  destruct (reaches_write _ && String.eqb (req_userAgent req) EmptyString);
    try rewrite Hn;
    match goal with |- context [if ?b then set_conns _ _ else _] => destruct b end;
    reflexivity.
Qed.

(** The stamp that an exchange leaves in [lastUseTime] (line 966). *)
Lemma do_lastUseTime (env : nat -> exchange_io) (req : Request)
    (resp : option Response) (w : World) :
  hc_lastUseTime (w_hc (snd (do env req resp w)))
  = uint32 (wrap64 (Unix (x_now_start (env (w_attempt w))) - startTimeUnix)).
Proof.
  rewrite do_is_summary. unfold do_summary.
  pose proof (acquireConn_lastUseTime (x_dial (env (w_attempt w)))
                (before_acquire env w)) as H.
  destruct (acquireConn _ _) as [[cc|e] w1]; cbn [snd] in H; cbv iota beta.
  - rewrite exchange_summary_lastUseTime. exact H.
  - exact H.
Qed.

(** [Do] is one exchange or two. *)
Lemma Do_exchanges (env : nat -> exchange_io) (req : Request)
    (resp : option Response) (w : World) :
  snd (Do env req resp w) = snd (do env req resp w)
  \/ exists resp1,
       snd (Do env req resp w) = snd (do env req resp1 (snd (do env req resp w))).
Proof.
  unfold Do, bind, ret.
  destruct (do env req resp w) as [[[retry err] resp1] w1]. simpl.
  destruct (is_some err && retry && isIdempotent req).
  - right. exists resp1.
    destruct (do env req resp1 w1) as [[[retry2 err2] resp2] w2]. reflexivity.
  - left. reflexivity.
Qed.

Lemma Do_last_exchange (env : nat -> exchange_io) (req : Request)
    (resp : option Response) (w : World) :
  hc_lastUseTime (w_hc (snd (Do env req resp w)))
  = uint32 (wrap64 (Unix (x_now_start
                            (env (Nat.pred (w_attempt (snd (Do env req resp w))))))
                    - startTimeUnix)).
Proof.
  destruct (Do_exchanges env req resp w) as [E|[resp1 E]]; rewrite E.
  - rewrite do_lastUseTime, do_attempt. reflexivity.
  - rewrite do_lastUseTime, !do_attempt. reflexivity.
Qed.

(** X12. LastUseTime reads back the start of the last exchange: after Do,
    whatever became of the request (also when no connection could be
    had), LastUseTime is the time at which the last exchange of the call
    started, cut to whole seconds; this needs that time to lie less than
    2^32 seconds after the start of the program, the range of the 32-bit
    stamp. *)
Theorem Do_records_LastUseTime (env : nat -> exchange_io) (req : Request)
    (resp : option Response) (w : World) :
  let w' := snd (Do env req resp w) in
  let t := x_now_start (env (Nat.pred (w_attempt w'))) in
  in_int64 (Unix t) ->
  0 <= Unix t - startTimeUnix < 2 ^ 32 ->
  LastUseTime (w_hc w') = Unix t * Second
  /\ LastUseTime (w_hc w') <= t < LastUseTime (w_hc w') + Second.
Proof.
  intros w' t Hu Hr.
  assert (E : LastUseTime (w_hc w') = Unix t * Second).
  { unfold LastUseTime, w'. rewrite Do_last_exchange. fold w'. fold t.
    rewrite (wrap64_id (Unix t - startTimeUnix))
      by (unfold in_int64, minInt64, maxInt64; lia).
    unfold uint32. rewrite Z.mod_small by exact Hr.
    replace (startTimeUnix + (Unix t - startTimeUnix)) with (Unix t) by lia.
    rewrite wrap64_id by exact Hu. reflexivity. }
  split; [exact E|]. rewrite E. unfold Unix, Second.
  pose proof (Z.div_mod t 1000000000 ltac:(lia)) as Hd.
  pose proof (Z.mod_pos_bound t 1000000000 ltac:(lia)) as Hm.
  lia.
Qed.


(** ** Exchanges that get no connection *)

Lemma acquireConn_failure_trace (d : dial_io) (w w' : World) (e : error) :
  acquireConn d w = (inr e, w') ->
  exists tried, w_trace w' = rev (map EvDial tried) ++ w_trace w.
Proof.
  unfold acquireConn, acquireConn_locked, bind, get_hc, modify_hc, ret.
  destruct (pop_tail (conns (w_hc w))) as [[front cc]|]; simpl;
    [intros H; inversion H|].
  destruct (connsCount (w_hc w) <? maxConns_of (w_hc w)); simpl.
  - unfold dialHostHard, bind, get_hc.
    match goal with
    | |- context [dialHostHard_loop d ?dl ?n 0 None ?w1] =>
        destruct (dialHostHard_loop_spec d dl n 0%nat None w1) as [tried [T _]];
        destruct (dialHostHard_loop d dl n 0 None w1) as [[conn err] w2]
    end.
    simpl in T. simpl. destruct err as [e0|]; simpl.
    + intros H. inversion H; subst. simpl. exists tried. exact T.
    + unfold emit. destruct (wrap64 (connsCount (w_hc w) + 1) =? 1); simpl;
        intros H; inversion H.
  - intros H. inversion H; subst. exists []. reflexivity.
Qed.

(** X13. Do does not retry when no connection can be had: if acquireConn
    fails in the first exchange (the cap is reached, or the dial fails),
    Do ends after this one exchange, also for an idempotent request; it
    returns that error (ErrConnectionClosed in place of io.EOF), leaves
    the caller's response alone, does nothing but the dials, and the pool
    is as it was before. *)
Theorem Do_gives_up_without_connection (env : nat -> exchange_io)
    (req : Request) (resp : option Response) (w w1 : World) (e : error) :
  in_int64 (connsCount (w_hc w)) ->
  in_int64 (MaxConns (w_hc w)) ->
  acquireConn (x_dial (env (w_attempt w))) (before_acquire env w) = (inr e, w1) ->
  Do env req resp w
  = ((if error_eqb e io_EOF then Some ErrConnectionClosed else Some e), resp, w1)
  /\ w_attempt w1 = S (w_attempt w)
  /\ conns (w_hc w1) = conns (w_hc w)
  /\ connsCount (w_hc w1) = connsCount (w_hc w)
  /\ (exists tried, w_trace w1 = rev (map EvDial tried) ++ w_trace w).
Proof.
  intros Hn Hm Ha.
  assert (Hdo : do env req resp w = (false, Some e, resp, w1)).
  { rewrite do_is_summary. unfold do_summary. rewrite Ha. reflexivity. }
  split.
  { unfold Do, bind, ret. rewrite Hdo. reflexivity. }
  pose proof (acquireConn_attempt (x_dial (env (w_attempt w)))
                (before_acquire env w)) as Hat.
  rewrite Ha in Hat. simpl in Hat.
  split; [exact Hat|].
  pose proof (acquireConn_failure_trace _ _ _ _ Ha) as Ht. simpl in Ht.
  apply acquireConn_pool in Ha. simpl in Ha.
  destruct Ha as [_ [Hc [Hk|[_ [Hlt Hk]]]]].
  - auto.
  - split; [exact Hc|]. split; [|exact Ht]. rewrite Hk.
    pose proof (maxConns_of_range _ Hm) as Hr.
    assert (Hmx : maxConns_of (set_lastUseTime (w_hc w)
               (uint32 (wrap64 (Unix (x_now_start (env (w_attempt w)))
                                - startTimeUnix))))
                  = maxConns_of (w_hc w)) by reflexivity.
    rewrite Hmx in Hlt.
    unfold in_int64, minInt64, maxInt64 in *.
    rewrite (wrap64_id (connsCount (w_hc w) + 1))
      by (unfold in_int64, minInt64, maxInt64; lia).
    rewrite wrap64_id by (unfold in_int64, minInt64, maxInt64; lia).
    lia.
Qed.


(** ** Keep-alive *)

Lemma pop_tail_snoc {A : Type} (l : list A) (y : A) :
  pop_tail (l ++ [y]) = Some (l, y).
Proof.
  induction l as [|a l IH]; simpl; [reflexivity|]. rewrite IH. reflexivity.
Qed.

(** acquireConn with an idle slot at hand. *)
Lemma acquireConn_idle (d : dial_io) (w : World) (l : list clientConn)
    (cc : clientConn) :
  conns (w_hc w) = l ++ [cc] ->
  acquireConn d w
  = (inl cc, mkWorld (set_conns (w_hc w) l) (w_trace w) (w_attempt w)).
Proof.
  intros H. unfold acquireConn, acquireConn_locked, bind, get_hc, modify_hc, ret.
  rewrite H, pop_tail_snoc. reflexivity.
Qed.

(** X14. Keep-alive: when an exchange ends without error and neither
    resetConnection nor a Connection: close of the request or of the
    response asks for closing, the next exchange is given the very
    connection of this one, with its creation time and with the release
    time as its last use, and does not dial; the idle list and connsCount
    are then as they were while the first exchange held the connection. *)
Theorem do_connection_serves_next_exchange (env : nat -> exchange_io)
    (req : Request) (resp : option Response) (w w1 : World) (cc : clientConn) :
  let x := env (w_attempt w) in
  acquireConn (x_dial x) (before_acquire env w) = (inl cc, w1) ->
  snd (fst (fst (do env req resp w))) = None ->
  mustClose (w_hc w1) cc x req resp = false ->
  let w' := snd (do env req resp w) in
  let r := acquireConn (x_dial (env (w_attempt w'))) (before_acquire env w') in
  fst r = inl (mkClientConn (cc_c cc) (createdTime cc) (x_now_release x))
  /\ w_trace (snd r) = w_trace w'
  /\ conns (w_hc (snd r)) = conns (w_hc w1)
  /\ connsCount (w_hc (snd r)) = connsCount (w_hc w1).
Proof.
  intros x Hacq Herr Hm w' r.
  assert (Hsum : do env req resp w = exchange_summary x req resp cc w1).
  { rewrite do_is_summary. unfold do_summary. fold x. rewrite Hacq. reflexivity. }
  assert (Ho : outcome_of (w_hc w1) x req resp = Clean).
  { rewrite Hsum in Herr. simpl in Herr.
    destruct (outcome_of (w_hc w1) x req resp); simpl in Herr;
      try discriminate. reflexivity. }
  pose proof (exchange_summary_pool x req resp cc w1) as Hpool.
  cbv zeta in Hpool. rewrite Ho, Hm in Hpool. destruct Hpool as [Hrel _].
  specialize (Hrel eq_refl). rewrite <- Hsum in Hrel. fold w' in Hrel.
  destruct Hrel as [Hc Hn].
  assert (Hb : conns (w_hc (before_acquire env w'))
               = conns (w_hc w1)
                 ++ [mkClientConn (cc_c cc) (createdTime cc) (x_now_release x)])
    by exact Hc.
  unfold r. rewrite (acquireConn_idle _ _ _ _ Hb). simpl.
  split; [reflexivity|]. split; [reflexivity|]. split; [reflexivity|]. exact Hn.
Qed.


(** ** The back-off of the deadline harness *)

Lemma Sub_range (t u : Time) : in_int64 (Sub t u).
Proof.
  unfold Sub, in_int64, minInt64, maxInt64.
  destruct (t - u <? - 2 ^ 63) eqn:E1; [lia|].
  destruct (2 ^ 63 - 1 <? t - u) eqn:E2; [lia|].
  apply Z.ltb_ge in E1. apply Z.ltb_ge in E2. lia.
Qed.

Lemma wrap64_over (z : Z) :
  maxInt64 < z < 2 ^ 64 -> wrap64 z = z - 2 ^ 64.
Proof.
  unfold wrap64, maxInt64. intros H.
  replace (z + 2 ^ 63) with ((z + 2 ^ 63 - 2 ^ 64) + 1 * 2 ^ 64) by lia.
  rewrite Z_mod_plus_full. rewrite Z.mod_small by lia. lia.
Qed.

(** X15. The sleep between two rounds of clientDoDeadline: it is never
    negative and never ends more than 10 ms after the deadline; far from
    the deadline it is twice the previous sleep, and the first one lies
    between 10 and 50 ms.  (The previous sleep is below 2^62 ns, so that
    doubling it does not overflow.) *)
Theorem updateSleepTime_bounds (h : deadline_io) (prevTime : Duration)
    (deadline : Time) :
  0 <= prevTime < 2 ^ 62 ->
  0 <= h_rand h < 40 ->
  let sleepTime := updateSleepTime h prevTime deadline in
  let remainingTime := Sub deadline (h_now_sleep h) in
  0 <= sleepTime <= Z.max remainingTime 0 + 10 * Millisecond
  /\ (0 < prevTime -> 2 * prevTime < remainingTime -> sleepTime = 2 * prevTime)
  /\ (prevTime = 0 -> 50 * Millisecond <= remainingTime ->
      10 * Millisecond <= sleepTime < 50 * Millisecond).
Proof.
  intros Hp Hr sleepTime remainingTime.
  pose proof (Sub_range deadline (h_now_sleep h)) as HS.
  fold remainingTime in HS.
  unfold sleepTime, updateSleepTime. fold remainingTime.
  unfold in_int64, minInt64, maxInt64, Millisecond in *.
  rewrite (wrap64_id (prevTime * 2))
    by (unfold in_int64, minInt64, maxInt64; lia).
  rewrite (wrap64_id ((10 + h_rand h) * 1000000))
    by (unfold in_int64, minInt64, maxInt64; lia).
  set (s0 := if prevTime * 2 =? 0 then (10 + h_rand h) * 1000000
             else prevTime * 2).
  assert (Hs0 : 0 < s0 < 2 ^ 63 - 1
                /\ (0 < prevTime -> s0 = 2 * prevTime)
                /\ (prevTime = 0 -> 10 * 1000000 <= s0 < 50 * 1000000)).
  { unfold s0. destruct (prevTime * 2 =? 0) eqn:E.
    - apply Z.eqb_eq in E. lia.
    - apply Z.eqb_neq in E. lia. }
  destruct Hs0 as [Hs0 [Hd Hf]].
  destruct (remainingTime <=? s0) eqn:E.
  - apply Z.leb_le in E.
    destruct (Z_le_gt_dec (remainingTime + 10 * 1000000) (2 ^ 63 - 1)) as [Hle|Hgt].
    + rewrite (wrap64_id (remainingTime + 10 * 1000000))
        by (unfold in_int64, minInt64, maxInt64; lia).
      destruct (remainingTime + 10 * 1000000 <? 0) eqn:E2.
      * apply Z.ltb_lt in E2. lia.
      * apply Z.ltb_ge in E2. lia.
    + rewrite (wrap64_over (remainingTime + 10 * 1000000))
        by (unfold maxInt64; lia).
      destruct (remainingTime + 10 * 1000000 - 2 ^ 64 <? 0) eqn:E2.
      * lia.
      * apply Z.ltb_ge in E2. lia.
  - apply Z.leb_gt in E. lia.
Qed.


(** ** The cost of following redirects *)

Section FollowerCost.

Context {C : Type} {D : clientDoer C}.

Variable cost : C -> nat.
Variable idem : bool.
Variable lo k : nat.

Hypothesis Do_cost :
  forall (req : Request) (resp : option Response) (s : C),
    isIdempotent req = idem ->
    (cost s + lo <= cost (snd (doer_Do req resp s)) <= cost s + k)%nat.

Lemma follow_loop_cost (fuel : nat) :
  forall (req : Request) (resp : Response) (url : string)
         (statusCode redirectsCount : Z) (s : C),
    isIdempotent req = idem ->
    0 <= redirectsCount <= maxRedirectsCount ->
    (Z.to_nat (maxRedirectsCount + 1 - redirectsCount) <= fuel)%nat ->
    exists r,
      follow_loop fuel req resp url statusCode redirectsCount s = Some r
      /\ (cost s + lo <= cost (fr_doer r)
          <= cost s + k * Z.to_nat (maxRedirectsCount + 1 - redirectsCount))%nat.
Proof using Do_cost.
  unfold maxRedirectsCount.
  induction fuel as [|fuel IH]; intros req resp url st rc s Hi Hrc Hf; [lia|].
  cbn [follow_loop].
  assert (Hi1 : isIdempotent (SetRequestURI_fresh req url) = idem) by exact Hi.
  pose proof (Do_cost (SetRequestURI_fresh req url) (Some resp) s Hi1) as Hc.
  destruct (doer_Do (SetRequestURI_fresh req url) (Some resp) s)
    as [[err respOut] s1].
  cbn [snd] in Hc.
  assert (Hone : (cost s + lo <= cost s1
                  <= cost s + k * Z.to_nat (16 + 1 - rc))%nat).
  { assert (1 <= Z.to_nat (16 + 1 - rc))%nat by lia. nia. }
  destruct err as [e|].
  { eexists. split; [reflexivity | exact Hone]. }
  match goal with |- context [if ?b then _ else _] => destruct b end.
  { eexists. split; [reflexivity | exact Hone]. }
  unfold maxRedirectsCount.
  assert (Hw : wrap64 (rc + 1) = rc + 1)
    by (apply wrap64_id; unfold in_int64, minInt64, maxInt64; lia).
  rewrite Hw.
  destruct (16 <? rc + 1) eqn:E.
  { eexists. split; [reflexivity | exact Hone]. }
  apply Z.ltb_ge in E.
  match goal with |- context [if ?b then _ else _] => destruct b end.
  { eexists. split; [reflexivity | exact Hone]. }
  match goal with
  | |- context [follow_loop fuel ?rq ?rs ?u ?st' (rc + 1) s1] =>
      destruct (IH rq rs u st' (rc + 1) s1 Hi1 ltac:(lia) ltac:(lia))
        as [r [Hr Hb]]
  end.
  exists r. split; [exact Hr|].
  replace (Z.to_nat (16 + 1 - rc)) with (S (Z.to_nat (16 + 1 - (rc + 1)))) by lia.
  cbn [fr_doer] in *. nia.
Qed.

End FollowerCost.

(** [Do] is one exchange, or two for an idempotent request. *)
Lemma Do_attempt (env : nat -> exchange_io) (req : Request)
    (resp : option Response) (w : World) :
  (w_attempt w < w_attempt (snd (Do env req resp w))
   <= w_attempt w + (if isIdempotent req then 2 else 1))%nat.
Proof.
  unfold Do, bind, ret.
  pose proof (do_attempt env req resp w) as H1.
  destruct (do env req resp w) as [[[retry err] resp1] w1]. cbn [snd] in H1.
  cbn beta iota.
  destruct (isIdempotent req).
  - rewrite andb_true_r. destruct (is_some err && retry).
    + pose proof (do_attempt env req resp1 w1) as H2.
      destruct (do env req resp1 w1) as [[[retry2 err2] resp2] w2].
      cbn [snd] in H2 |- *. lia.
    + cbn [snd]. lia.
  - rewrite andb_false_r. cbn [snd]. lia.
Qed.

(** X16. Following redirects over a HostClient always comes to an end, and
    costs at least one exchange and at most 34: at most 17 calls of Do,
    each of one exchange or, when an idempotent request is retried, two;
    for a request that is not idempotent the bound is 17. *)
Theorem follow_redirects_exchanges (env : nat -> exchange_io) (req : Request)
    (dst url : string) (w : World) :
  exists st body err w',
    doRequestFollowRedirects (D := HostClient_doer env) req dst url w
    = Some (st, body, err, w')
    /\ (w_attempt w < w_attempt w'
        <= w_attempt w + (if isIdempotent req then 34 else 17))%nat.
Proof.
  unfold doRequestFollowRedirects.
  destruct (follow_loop_cost (D := HostClient_doer env) w_attempt
              (isIdempotent req) 1%nat (if isIdempotent req then 2 else 1)%nat)
    with (fuel := S (Z.to_nat maxRedirectsCount)) (req := req)
         (resp := set_resp_body emptyResponse dst) (url := url)
         (statusCode := 0) (redirectsCount := 0) (s := w)
    as [r [Hr Hb]].
  - intros rq rs s E. cbn [doer_Do HostClient_doer].
    pose proof (Do_attempt env rq rs s) as H. rewrite E in H.
    destruct (Do env rq rs s) as [[e r1] s1]. cbn [snd] in *. lia.
  - reflexivity.
  - unfold maxRedirectsCount. lia.
  - unfold maxRedirectsCount. simpl. lia.
  - rewrite Hr. do 4 eexists. split; [reflexivity|].
    unfold maxRedirectsCount in Hb.
    change (Z.to_nat (16 + 1 - 0)) with 17%nat in Hb.
    destruct (isIdempotent req); lia.
Qed.


(** ** The client for many hosts *)

Lemma m_lookup_none (k : string) (m : hostMap) :
  m_lookup k m = None -> ~ In k (map fst m).
Proof.
  induction m as [|[k' id] m IH]; simpl; intros H; [intros []|].
  destruct (String.eqb k k') eqn:E; [discriminate|].
  apply String.eqb_neq in E. intros [F|F]; [congruence | exact (IH H F)].
Qed.

Lemma m_lookup_some (k : string) (id : nat) (m : hostMap) :
  m_lookup k m = Some id -> In (k, id) m.
Proof.
  induction m as [|[k' id'] m IH]; simpl; intros H; [discriminate|].
  destruct (String.eqb k k') eqn:E.
  - apply String.eqb_eq in E. inversion H; subst. left. reflexivity.
  - right. exact (IH H).
Qed.

Lemma set_map_same (b : bool) (m : hostMap) (n : nat) (cw : ClientWorld) :
  cw_map b (set_map b m n cw) = m
  /\ cw_cleaners b (set_map b m n cw) = n
  /\ cw_map (negb b) (set_map b m n cw) = cw_map (negb b) cw
  /\ cw_cleaners (negb b) (set_map b m n cw) = cw_cleaners (negb b) cw
  /\ cw_store (set_map b m n cw) = cw_store cw.
Proof. destruct b; simpl; auto. Qed.

Lemma store_update_length (id : nat) (hc : HostClient) (s : list HostClient) :
  List.length (store_update id hc s) = List.length s.
Proof.
  revert id. induction s as [|a s IH]; intros id; simpl; [reflexivity|].
  destruct id; simpl; [reflexivity | rewrite IH; reflexivity].
Qed.

Lemma store_update_nth (id : nat) (hc : HostClient) (s : list HostClient) :
  (id < List.length s)%nat -> nth_error (store_update id hc s) id = Some hc.
Proof.
  revert id. induction s as [|a s IH]; intros id H; simpl in *; [lia|].
  destruct id; simpl; [reflexivity | apply IH; lia].
Qed.

Lemma store_update_other (id j : nat) (hc : HostClient) (s : list HostClient) :
  j <> id -> nth_error (store_update id hc s) j = nth_error s j.
Proof.
  revert id j. induction s as [|a s IH]; intros id j H; simpl; [reflexivity|].
  destruct id, j; simpl; try reflexivity; try congruence.
  apply IH. congruence.
Qed.

Lemma filter_keys_NoDup (f : string * nat -> bool) (m : hostMap) :
  NoDup (map fst m) -> NoDup (map fst (filter f m)).
Proof.
  induction m as [|kv m IH]; simpl; intros H; [constructor|].
  inversion H as [|? ? Hn Hd]; subst.
  destruct (f kv); simpl; [|apply IH; exact Hd].
  constructor; [|apply IH; exact Hd].
  intros F. apply Hn. apply in_map_iff in F. destruct F as [x [E F]].
  apply filter_In in F. apply in_map_iff. exists x. split; [exact E | apply F].
Qed.

Lemma map_inv_other (b : bool) (m : hostMap) (n : nat) (cw : ClientWorld) :
  map_inv (negb b) cw -> map_inv (negb b) (set_map b m n cw).
Proof.
  unfold map_inv. destruct (set_map_same b m n cw) as [_ [_ [E1 [E2 E3]]]].
  rewrite E1, E2, E3. auto.
Qed.

Lemma map_inv_store (b : bool) (s : list HostClient) (cw : ClientWorld) :
  (List.length (cw_store cw) <= List.length s)%nat ->
  map_inv b cw -> map_inv b (set_store s cw).
Proof.
  unfold map_inv. intros Hl [H1 [H2 H3]].
  destruct b; simpl in *; (split; [exact H1|]); (split; [exact H2|]);
    (eapply Forall_impl; [|exact H3]); simpl; intros; lia.
Qed.

Lemma route_to_inv (cl : Client) (host : string) (isTLS : bool)
    (cw : ClientWorld) :
  router_inv cw -> router_inv (snd (route_to cl host isTLS cw)).
Proof.
  intros Hinv. unfold route_to.
  destruct (m_lookup host (cw_map isTLS cw)) eqn:El; [exact Hinv|].
  cbn [snd].
  set (s1 := cw_store cw ++ [newHostClient cl host isTLS]).
  assert (Hlen : List.length s1 = S (List.length (cw_store cw))).
  { unfold s1. rewrite length_app. simpl. lia. }
  assert (Hst : forall b, map_inv b cw -> map_inv b (set_store s1 cw)).
  { intros b. apply map_inv_store. lia. }
  assert (Hmap : forall b, cw_map b (set_store s1 cw) = cw_map b cw)
    by (intros []; reflexivity).
  assert (Hcl : forall b, cw_cleaners b (set_store s1 cw) = cw_cleaners b cw)
    by (intros []; reflexivity).
  set (m1 := (host, List.length (cw_store cw)) :: cw_map isTLS cw).
  set (n1 := if len m1 =? 1 then S (cw_cleaners isTLS cw)
             else cw_cleaners isTLS cw).
  assert (Hthis : map_inv isTLS (set_map isTLS m1 n1 (set_store s1 cw))).
  { assert (Hi : map_inv isTLS cw) by (destruct isTLS; apply Hinv).
    destruct Hi as [H1 [H2 H3]].
    unfold map_inv.
    destruct (set_map_same isTLS m1 n1 (set_store s1 cw)) as [E1 [E2 [_ [_ E3]]]].
    rewrite E1, E2, E3. split; [|split].
    - assert (L : len m1 = len (cw_map isTLS cw) + 1).
      { unfold m1, len. cbn [List.length]. lia. }
      pose proof (len_nonneg (cw_map isTLS cw)) as L0.
      unfold n1.
      destruct (len m1 =? 0) eqn:A; [apply Z.eqb_eq in A; lia|].
      destruct (len m1 =? 1) eqn:B.
      + apply Z.eqb_eq in B.
        destruct (len (cw_map isTLS cw) =? 0) eqn:C;
          [rewrite H1; reflexivity | apply Z.eqb_neq in C; lia].
      + apply Z.eqb_neq in B.
        destruct (len (cw_map isTLS cw) =? 0) eqn:C;
          [apply Z.eqb_eq in C; lia | exact H1].
    - unfold m1. simpl. constructor; [apply m_lookup_none; exact El | exact H2].
    - unfold m1. simpl. constructor; [simpl; lia|].
      eapply Forall_impl; [|exact H3]. simpl. intros. lia. }
  assert (Hother : map_inv (negb isTLS) (set_map isTLS m1 n1 (set_store s1 cw))).
  { apply map_inv_other. apply Hst. destruct isTLS; apply Hinv. }
  unfold router_inv. destruct isTLS; simpl in Hother; split; assumption.
Qed.

Lemma Client_Do_locked_inv (cl : Client) (req : Request) (cw : ClientWorld) :
  router_inv cw -> router_inv (snd (Client_Do_locked cl req cw)).
Proof.
  intros H. unfold Client_Do_locked.
  destruct (String.eqb (uri_scheme req) "https"); [apply route_to_inv; exact H|].
  destruct (negb (String.eqb (uri_scheme req) "http")); [exact H|].
  apply route_to_inv. exact H.
Qed.

Lemma Do_at_maps (env : nat -> exchange_io) (id : nat) (req : Request)
    (resp : option Response) (cw : ClientWorld)
    (r : option error * option Response * ClientWorld) :
  Do_at env id req resp cw = Some r ->
  cw_m (snd r) = cw_m cw /\ cw_ms (snd r) = cw_ms cw
  /\ cw_cleaners_m (snd r) = cw_cleaners_m cw
  /\ cw_cleaners_ms (snd r) = cw_cleaners_ms cw
  /\ List.length (cw_store (snd r)) = List.length (cw_store cw).
Proof.
  unfold Do_at. destruct (nth_error (cw_store cw) id) as [hc|]; [|discriminate].
  destruct (Do env req resp _) as [[err resp1] w1].
  intros H. inversion H; subst. simpl.
  rewrite store_update_length. auto.
Qed.

Lemma Do_at_inv (env : nat -> exchange_io) (id : nat) (req : Request)
    (resp : option Response) (cw : ClientWorld)
    (r : option error * option Response * ClientWorld) :
  Do_at env id req resp cw = Some r -> router_inv cw -> router_inv (snd r).
Proof.
  intros H. apply Do_at_maps in H. destruct H as [E1 [E2 [E3 [E4 E5]]]].
  unfold router_inv, map_inv. simpl. rewrite E1, E2, E3, E4, E5. auto.
Qed.

Lemma mCleaner_cycle_inv (isTLS : bool) (t : Time) (cw : ClientWorld)
    (r : bool * ClientWorld) :
  mCleaner_cycle isTLS t cw = Some r -> router_inv cw -> router_inv (snd r).
Proof.
  unfold mCleaner_cycle, mCleaner_locked. intros H Hinv.
  assert (Hi : map_inv isTLS cw) by (destruct isTLS; apply Hinv).
  assert (Ho : map_inv (negb isTLS) cw) by (destruct isTLS; apply Hinv).
  destruct (cw_cleaners isTLS cw) as [|n] eqn:En; [discriminate|].
  inversion H; subst; clear H. cbn [snd].
  set (m1 := filter (fun kv => negb (stale t (cw_store cw) kv)) (cw_map isTLS cw)).
  set (n1 := if len m1 =? 0 then n else S n).
  assert (Hthis : map_inv isTLS (set_map isTLS m1 n1 cw)).
  { destruct Hi as [H1 [H2 H3]]. unfold map_inv.
    destruct (set_map_same isTLS m1 n1 cw) as [E1 [E2 [_ [_ E3]]]].
    rewrite E1, E2, E3. split; [|split].
    - rewrite En in H1. unfold n1.
      destruct (len (cw_map isTLS cw) =? 0); [discriminate|].
      inversion H1; subst. destruct (len m1 =? 0); reflexivity.
    - apply filter_keys_NoDup. exact H2.
    - apply Forall_forall. intros kv Hin. apply filter_In in Hin.
      rewrite Forall_forall in H3. apply H3. apply Hin. }
  assert (Hother : map_inv (negb isTLS) (set_map isTLS m1 n1 cw))
    by (apply map_inv_other; exact Ho).
  unfold router_inv. destruct isTLS; simpl in Hother; split; assumption.
Qed.

Lemma run_client_ops_inv (cl : Client) (ops : list client_op) :
  forall cw cw',
    router_inv cw -> run_client_ops cl ops cw = Some cw' -> router_inv cw'.
Proof.
  induction ops as [|o ops IH]; simpl; intros cw cw' Hinv H.
  - inversion H; subst. exact Hinv.
  - destruct (run_client_op cl o cw) as [cw1|] eqn:E; [|discriminate].
    apply (IH cw1 cw'); [|exact H].
    destruct o as [req|env id req resp|isTLS t]; simpl in E.
    + inversion E; subst. apply Client_Do_locked_inv. exact Hinv.
    + destruct (Do_at env id req resp cw) as [r|] eqn:Er; [|discriminate].
      inversion E; subst. eapply Do_at_inv; eassumption.
    + destruct (mCleaner_cycle isTLS t cw) as [r|] eqn:Er; [|discriminate].
      inversion E; subst. eapply mCleaner_cycle_inv; eassumption.
Qed.

(** X17. One cleaner per map, while the map has entries: however the
    routing of requests, the exchanges on the host clients and the rounds
    of the cleaners follow each other from the start of a Client, on each
    of the two maps exactly one mCleaner runs when the map has an entry
    and none when it is empty; no host is twice in a map, and every entry
    points to a client. *)
Theorem Client_one_cleaner_per_map (cl : Client) (ops : list client_op)
    (cw : ClientWorld) :
  run_client_ops cl ops emptyClientWorld = Some cw ->
  forall isTLS,
    cw_cleaners isTLS cw = (if len (cw_map isTLS cw) =? 0 then 0%nat else 1%nat)
    /\ NoDup (map fst (cw_map isTLS cw))
    /\ Forall (fun kv => nth_error (cw_store cw) (snd kv) <> None)
              (cw_map isTLS cw).
Proof.
  intros H isTLS.
  assert (H0 : router_inv emptyClientWorld).
  { unfold router_inv, map_inv. simpl. repeat split; constructor. }
  pose proof (run_client_ops_inv cl ops _ _ H0 H) as [Hf Ht].
  assert (Hi : map_inv isTLS cw) by (destruct isTLS; assumption).
  destruct Hi as [H1 [H2 H3]]. split; [exact H1|]. split; [exact H2|].
  eapply Forall_impl; [|exact H3]. simpl. intros kv Hlt.
  apply nth_error_Some. exact Hlt.
Qed.


Lemma m_lookup_filter_none (f : string * nat -> bool) (k : string) (m : hostMap) :
  ~ In k (map fst m) -> m_lookup k (filter f m) = None.
Proof.
  induction m as [|[k' id] m IH]; simpl; intros H; [reflexivity|].
  assert (Hk : String.eqb k k' = false).
  { apply String.eqb_neq. intros E. apply H. left. symmetry. exact E. }
  destruct (f (k', id)); simpl; [rewrite Hk|]; apply IH; intros F; apply H;
    right; exact F.
Qed.

(** Where a supported request is routed: to the client its host has in
    the map, or to a new one at the end of the store. *)
Lemma route_to_spec (cl : Client) (host : string) (isTLS : bool)
    (cw : ClientWorld) :
  map_inv isTLS cw ->
  exists id sc,
    route_to cl host isTLS cw = (Routed id sc, snd (route_to cl host isTLS cw))
    /\ m_lookup host (cw_map isTLS (snd (route_to cl host isTLS cw))) = Some id
    /\ (id < List.length (cw_store (snd (route_to cl host isTLS cw))))%nat.
Proof.
  intros [_ [_ Hv]]. unfold route_to.
  destruct (m_lookup host (cw_map isTLS cw)) as [id|] eqn:El.
  - exists id, false. cbn [snd]. split; [reflexivity|]. split; [exact El|].
    apply m_lookup_some in El. rewrite Forall_forall in Hv.
    apply (Hv _ El).
  - eexists. eexists. cbn [snd]. split; [reflexivity|].
    match goal with |- context [set_map isTLS ?m ?n ?c] =>
      destruct (set_map_same isTLS m n c) as [E1 [_ [_ [_ E3]]]] end.
    rewrite E1, E3. split.
    + simpl. rewrite String.eqb_refl. reflexivity.
    + simpl. rewrite length_app. simpl. lia.
Qed.

Lemma route_to_found (cl : Client) (host : string) (isTLS : bool)
    (cw : ClientWorld) (id : nat) :
  m_lookup host (cw_map isTLS cw) = Some id ->
  route_to cl host isTLS cw = (Routed id false, cw).
Proof. intros H. unfold route_to. rewrite H. reflexivity. Qed.

(** X18. One HostClient per host and scheme: in a Client as it can come
    to be, a request with scheme http or https is carried out (Client.Do
    returns), and a request to the same host and scheme that is routed
    next gets the same HostClient; no client is made for it and no
    cleaner is started. *)
Theorem Client_Do_same_host_same_client (cl : Client) (ops : list client_op)
    (env : nat -> exchange_io) (req req2 : Request) (resp : option Response)
    (cw : ClientWorld) :
  run_client_ops cl ops emptyClientWorld = Some cw ->
  uri_scheme req = "http"%string \/ uri_scheme req = "https"%string ->
  uri_host req2 = uri_host req ->
  uri_scheme req2 = uri_scheme req ->
  exists id sc cw1 err resp1 cw2,
    Client_Do_locked cl req cw = (Routed id sc, cw1)
    /\ Client_Do cl env req resp cw = Some (err, resp1, cw2)
    /\ Client_Do_locked cl req2 cw2 = (Routed id false, cw2).
Proof.
  intros Hrun Hs Hh2 Hs2.
  assert (H0 : router_inv emptyClientWorld).
  { unfold router_inv, map_inv. simpl. repeat split; constructor. }
  pose proof (run_client_ops_inv cl ops _ _ H0 Hrun) as Hinv.
  set (isTLS := String.eqb (uri_scheme req) "https").
  assert (Hroute : forall rq c, uri_scheme rq = uri_scheme req ->
            Client_Do_locked cl rq c = route_to cl (uri_host rq) isTLS c).
  { intros rq c E. unfold Client_Do_locked, isTLS. rewrite E.
    destruct Hs as [Hs|Hs]; rewrite Hs; reflexivity. }
  assert (Hi : map_inv isTLS cw) by (destruct isTLS; apply Hinv).
  destruct (route_to_spec cl (uri_host req) isTLS cw Hi) as [id [sc [Hr [Hl Hv]]]].
  set (cw1 := snd (route_to cl (uri_host req) isTLS cw)) in *.
  assert (Hd : exists r, Do_at env id req resp cw1 = Some r).
  { unfold Do_at. destruct (nth_error (cw_store cw1) id) as [hc|] eqn:En.
    - destruct (Do env req resp _) as [[e r1] w1]. eexists. reflexivity.
    - apply nth_error_None in En. lia. }
  destruct Hd as [[[e r1] cw2] Hd].
  exists id, sc, cw1, (option_map ErrOfHost e), r1, cw2.
  split; [rewrite Hroute by reflexivity; exact Hr|].
  split.
  { unfold Client_Do. rewrite Hroute by reflexivity. rewrite Hr, Hd. reflexivity. }
  rewrite Hroute by exact Hs2. rewrite Hh2.
  apply route_to_found.
  apply Do_at_maps in Hd. cbn [snd] in Hd. destruct Hd as [E1 [E2 _]].
  unfold cw_map in *. destruct isTLS; [rewrite E2 | rewrite E1]; exact Hl.
Qed.

(** The time that a stamp of [lastUseTime] stands for. *)
Lemma LastUseTime_stamp (c : HostClient) (t : Time) :
  hc_lastUseTime c = uint32 (wrap64 (Unix t - startTimeUnix)) ->
  in_int64 (Unix t) ->
  0 <= Unix t - startTimeUnix < 2 ^ 32 ->
  LastUseTime c = Unix t * Second.
Proof.
  intros H Hu Hr. unfold LastUseTime. rewrite H.
  rewrite (wrap64_id (Unix t - startTimeUnix))
    by (unfold in_int64, minInt64, maxInt64; lia).
  unfold uint32. rewrite Z.mod_small by exact Hr.
  replace (startTimeUnix + (Unix t - startTimeUnix)) with (Unix t) by lia.
  rewrite wrap64_id by exact Hu. reflexivity.
Qed.

(** X19. mCleaner spares a client in use: a host client whose last
    exchange started, in whole seconds, no more than a minute before a
    round of mCleaner keeps its place in the map, and the cleaner goes
    on. *)
Theorem mCleaner_keeps_recent_client (env : nat -> exchange_io) (id : nat)
    (req : Request) (resp : option Response) (cw cw1 cw2 : ClientWorld)
    (err : option error) (resp1 : option Response)
    (isTLS mustStop : bool) (t : Time) (host : string) :
  Do_at env id req resp cw = Some (err, resp1, cw1) ->
  let t0 := x_now_start (env (Nat.pred (cw_attempt cw1))) in
  in_int64 (Unix t0) ->
  0 <= Unix t0 - startTimeUnix < 2 ^ 32 ->
  Sub t (Unix t0 * Second) <= Minute ->
  In (host, id) (cw_map isTLS cw1) ->
  mCleaner_cycle isTLS t cw1 = Some (mustStop, cw2) ->
  In (host, id) (cw_map isTLS cw2) /\ mustStop = false.
Proof.
  intros Hd t0 Hu Hr Hs Hin Hc.
  assert (Hlast : exists hc, nth_error (cw_store cw1) id = Some hc
                             /\ LastUseTime hc = Unix t0 * Second).
  { unfold Do_at in Hd.
    destruct (nth_error (cw_store cw) id) as [hc|] eqn:En; [|discriminate].
    pose proof (Do_last_exchange env req resp
                  (mkWorld hc (cw_trace cw) (cw_attempt cw))) as Hl.
    destruct (Do env req resp _) as [[e r1] w1]. cbn [snd] in Hl.
    inversion Hd; subst. cbn [cw_store cw_attempt] in *.
    exists (w_hc w1). split.
    - apply store_update_nth. apply nth_error_Some. congruence.
    - apply LastUseTime_stamp; assumption. }
  destruct Hlast as [hc [Hn Hl]].
  unfold mCleaner_cycle, mCleaner_locked in Hc.
  destruct (cw_cleaners isTLS cw1) as [|n]; [discriminate|].
  inversion Hc; subst; clear Hc.
  set (m1 := filter (fun kv => negb (stale t (cw_store cw1) kv)) (cw_map isTLS cw1)).
  assert (Hin1 : In (host, id) m1).
  { unfold m1. apply filter_In. split; [exact Hin|].
    unfold stale. cbn [snd]. rewrite Hn, Hl.
    destruct (Minute <? Sub t (Unix t0 * Second)) eqn:E; [|reflexivity].
    apply Z.ltb_lt in E. lia. }
  split.
  - destruct (set_map_same isTLS m1 (if len m1 =? 0 then n else S n) cw1)
      as [E1 _]. rewrite E1. exact Hin1.
  - destruct (len m1 =? 0) eqn:E; [|reflexivity].
    apply Z.eqb_eq in E. unfold len in E.
    destruct m1; [destruct Hin1 | simpl in E; lia].
Qed.

(** X20. A new client is exposed to the cleaner until its first exchange
    starts: it is made with the stamp 0, the start of the program.  If
    that lies more than a minute back and a round of mCleaner comes
    between the routing of the first request to a host and its exchange,
    the round takes the new client out of the map; the caller still
    holds it, and the next request to the same host is given another
    client. *)
Theorem mCleaner_drops_client_before_first_exchange (cl : Client)
    (req : Request) (cw cw2 : ClientWorld) (mustStop : bool) (t : Time) :
  let isTLS := String.eqb (uri_scheme req) "https" in
  let id := List.length (cw_store cw) in
  let cw1 := snd (Client_Do_locked cl req cw) in
  uri_scheme req = "http"%string \/ uri_scheme req = "https"%string ->
  m_lookup (uri_host req) (cw_map isTLS cw) = None ->
  in_int64 startTimeUnix ->
  Minute < Sub t (startTimeUnix * Second) ->
  mCleaner_cycle isTLS t cw1 = Some (mustStop, cw2) ->
  (exists sc, Client_Do_locked cl req cw = (Routed id sc, cw1))
  /\ nth_error (cw_store cw2) id
     = Some (newHostClient cl (uri_host req) isTLS)
  /\ m_lookup (uri_host req) (cw_map isTLS cw2) = None
  /\ exists sc' cw3,
       Client_Do_locked cl req cw2 = (Routed (S id) sc', cw3).
Proof.
  intros isTLS id cw1 Hs Hl Hst Ht Hc.
  assert (Hroute : forall c,
            Client_Do_locked cl req c = route_to cl (uri_host req) isTLS c).
  { intros c. unfold Client_Do_locked, isTLS.
    destruct Hs as [Hs|Hs]; rewrite Hs; reflexivity. }
  assert (Hr : exists sc m n,
            route_to cl (uri_host req) isTLS cw
            = (Routed id sc,
               set_map isTLS ((uri_host req, id) :: cw_map isTLS cw) n
                 (set_store (cw_store cw ++ [newHostClient cl (uri_host req) isTLS])
                    cw))
            /\ m = cw_map isTLS cw).
  { unfold route_to. rewrite Hl. do 3 eexists. split; reflexivity. }
  destruct Hr as [sc [m [n [Hr Hm]]]].
  unfold cw1 in *. rewrite Hroute in *. rewrite Hr in *. cbn [snd] in *.
  split; [exists sc; reflexivity|].
  set (s1 := cw_store cw ++ [newHostClient cl (uri_host req) isTLS]) in *.
  set (c1 := set_map isTLS ((uri_host req, id) :: cw_map isTLS cw) n
               (set_store s1 cw)) in *.
  destruct (set_map_same isTLS ((uri_host req, id) :: cw_map isTLS cw) n
              (set_store s1 cw)) as [E1 [_ [_ [_ E3]]]].
  fold c1 in E1, E3.
  assert (Es : cw_store c1 = s1) by (rewrite E3; reflexivity).
  assert (Hn : nth_error s1 id = Some (newHostClient cl (uri_host req) isTLS)).
  { unfold s1, id. rewrite nth_error_app2 by lia.
    rewrite Nat.sub_diag. reflexivity. }
  assert (Hstale : stale t s1 (uri_host req, id) = true).
  { unfold stale. cbn [snd]. rewrite Hn.
    unfold LastUseTime. cbn [hc_lastUseTime newHostClient].
    rewrite Z.add_0_r, wrap64_id by exact Hst.
    apply Z.ltb_lt. exact Ht. }
  unfold mCleaner_cycle, mCleaner_locked in Hc.
  destruct (cw_cleaners isTLS c1) as [|k]; [discriminate|].
  rewrite E1, Es in Hc. cbn [filter] in Hc. rewrite Hstale in Hc. cbn [negb] in Hc.
  inversion Hc; subst; clear Hc.
  match goal with |- context [set_map isTLS ?mm ?nn c1] =>
    destruct (set_map_same isTLS mm nn c1) as [F1 [_ [_ [_ F3]]]];
    set (c2 := set_map isTLS mm nn c1) in *
  end.
  assert (Hl2 : m_lookup (uri_host req) (cw_map isTLS c2) = None).
  { rewrite F1. apply m_lookup_filter_none. apply m_lookup_none. exact Hl. }
  split; [rewrite F3, Es; exact Hn|].
  split; [exact Hl2|].
  rewrite Hroute. unfold route_to. rewrite Hl2.
  do 2 eexists. rewrite F3, Es.
  replace (List.length s1) with (S id)
    by (unfold s1, id; rewrite length_app; simpl; lia).
  reflexivity.
Qed.


(** ** Get and Post by URL *)

Section URLProperties.

Context {C : Type} {D : clientDoer C}.

(** The follower never runs out of rounds, whatever the doer answers. *)
Lemma doRequestFollowRedirects_returns (req : Request) (dst url : string)
    (s : C) :
  exists r, doRequestFollowRedirects req dst url s = Some r.
Proof.
  unfold doRequestFollowRedirects.
  destruct (follow_loop_cost (fun _ : C => 0%nat) (isIdempotent req) 0%nat 0%nat)
    with (fuel := S (Z.to_nat maxRedirectsCount)) (req := req)
         (resp := set_resp_body emptyResponse dst) (url := url)
         (statusCode := 0) (redirectsCount := 0) (s := s)
    as [r [Hr _]].
  - intros. lia.
  - reflexivity.
  - unfold maxRedirectsCount. lia.
  - unfold maxRedirectsCount. simpl. lia.
  - rewrite Hr. eexists. reflexivity.
Qed.

Lemma clientGetURLDeadlineFreeConn_returns (h : deadline_io) (dst url : string)
    (deadline : Time) (s : C) :
  exists r, clientGetURLDeadlineFreeConn h dst url deadline s = Some r.
Proof.
  unfold clientGetURLDeadlineFreeConn.
  destruct (wrap64 (- Since (h_now_check h) deadline) <=? 0);
    [eexists; reflexivity|].
  destruct (doRequestFollowRedirects_returns freshRequest dst url s)
    as [[[[st body] err] s1] Hr].
  rewrite Hr. destruct (h_timer_wins h); eexists; reflexivity.
Qed.

Lemma clientGetURLDeadlineFreeConn_expired (h : deadline_io) (dst url : string)
    (deadline : Time) (s : C) :
  deadline <= h_now_check h ->
  clientGetURLDeadlineFreeConn h dst url deadline s
  = Some (mkURLResult 0 dst (Some ErrTimeout) s []).
Proof.
  intros H. unfold clientGetURLDeadlineFreeConn.
  pose proof (Since_nonneg _ _ H) as Hs.
  rewrite wrap64_id by (unfold in_int64, minInt64, maxInt64 in *; lia).
  destruct (- Since (h_now_check h) deadline <=? 0) eqn:E;
    [reflexivity | apply Z.leb_gt in E; lia].
Qed.

Lemma clientGetURLDeadline_loop_err (hio : nat -> deadline_io)
    (dst url : string) (deadline : Time) (fuel : nat) :
  forall i sleepTime s tr r,
    clientGetURLDeadline_loop hio fuel i sleepTime dst url deadline s tr = Some r ->
    ur_err r <> Some ErrNoFreeConns.
Proof.
  induction fuel as [|fuel IH]; simpl; intros i sl s tr r H; [discriminate|].
  destruct (clientGetURLDeadlineFreeConn (hio i) dst url deadline s) as [r0|];
    [|discriminate].
  destruct (negb (err_is (ur_err r0) ErrNoFreeConns)) eqn:E.
  - inversion H; subst; simpl. intros He. apply err_is_eq in He.
    rewrite He in E. discriminate.
  - eapply IH. exact H.
Qed.

Lemma clientGetURLDeadline_loop_ends (hio : nat -> deadline_io)
    (dst url : string) (deadline : Time) (n : nat) :
  forall fuel i sleepTime s tr,
    deadline <= h_now_check (hio (i + n)%nat) ->
    (n < fuel)%nat ->
    exists r,
      clientGetURLDeadline_loop hio fuel i sleepTime dst url deadline s tr = Some r.
Proof.
  induction n as [|n IH]; intros fuel i sl s tr Hd Hf;
    (destruct fuel as [|fuel]; [lia|]); simpl.
  - replace (i + 0)%nat with i in Hd by lia.
    rewrite (clientGetURLDeadlineFreeConn_expired _ _ _ _ _ Hd). simpl.
    eexists. reflexivity.
  - destruct (clientGetURLDeadlineFreeConn_returns (hio i) dst url deadline s)
      as [r0 Hr0].
    rewrite Hr0.
    destruct (negb (err_is (ur_err r0) ErrNoFreeConns)).
    + eexists. reflexivity.
    + apply IH; [|lia]. replace (S i + n)%nat with (i + S n)%nat by lia. exact Hd.
Qed.

(** X21. Get with a deadline, over any doer: what it returns is never
    ErrNoFreeConns (such a round is followed by a sleep and another
    round); it does return, at the latest in the first round that finds
    the deadline reached; and when the deadline is reached on entry it
    returns status 0, the caller's buffer and ErrTimeout without calling
    the doer. *)
Theorem clientGetURLDeadline_returns (hio : nat -> deadline_io)
    (dst url : string) (deadline : Time) (s : C) :
  (forall fuel r,
      clientGetURLDeadline hio fuel dst url deadline s = Some r ->
      ur_err r <> Some ErrNoFreeConns)
  /\ (forall fuel now timeout r,
        clientGetURLTimeout hio fuel now dst url timeout s = Some r ->
        ur_err r <> Some ErrNoFreeConns)
  /\ (forall n fuel,
        deadline <= h_now_check (hio n) -> (n < fuel)%nat ->
        exists r, clientGetURLDeadline hio fuel dst url deadline s = Some r)
  /\ (forall fuel,
        deadline <= h_now_check (hio 0%nat) ->
        clientGetURLDeadline hio (S fuel) dst url deadline s
        = Some (mkURLResult 0 dst (Some ErrTimeout) s [])).
Proof.
  split; [intros fuel r H; eapply clientGetURLDeadline_loop_err; exact H|].
  split; [intros fuel now timeout r H; eapply clientGetURLDeadline_loop_err;
          exact H|].
  split.
  - intros n fuel Hd Hf.
    apply clientGetURLDeadline_loop_ends with (n := n); assumption.
  - intros fuel Hd. unfold clientGetURLDeadline. simpl.
    rewrite (clientGetURLDeadlineFreeConn_expired _ _ _ _ _ Hd). reflexivity.
Qed.

End URLProperties.

(** X22. Post by URL over a HostClient comes to an end after at least one
    and at most 17 exchanges: POST is not idempotent, so no call of Do in
    the chain of redirects is retried. *)
Theorem clientPostURL_exchanges (env : nat -> exchange_io) (dst url : string)
    (postArgs : option string) (w : World) :
  exists st body err w',
    clientPostURL (D := HostClient_doer env) dst url postArgs w
    = Some (st, body, err, w')
    /\ (w_attempt w < w_attempt w' <= w_attempt w + 17)%nat.
Proof.
  unfold clientPostURL, doRequestFollowRedirects.
  match goal with
  | |- context [follow_loop ?f ?rq ?rs url 0 0 w] =>
      destruct (follow_loop_cost (D := HostClient_doer env) w_attempt false
                  1%nat 1%nat)
        with (fuel := f) (req := rq) (resp := rs) (url := url)
             (statusCode := 0) (redirectsCount := 0) (s := w)
        as [r [Hr Hb]]
  end.
  - intros rq rs s E. cbn [doer_Do HostClient_doer].
    pose proof (Do_attempt env rq rs s) as H. rewrite E in H.
    destruct (Do env rq rs s) as [[e r1] s1]. cbn [snd] in *. lia.
  - destruct postArgs; reflexivity.
  - unfold maxRedirectsCount. lia.
  - unfold maxRedirectsCount. simpl. lia.
  - rewrite Hr. do 4 eexists. split; [reflexivity|].
    unfold maxRedirectsCount in Hb.
    change (Z.to_nat (16 + 1 - 0)) with 17%nat in Hb. lia.
Qed.


(** ** The pool between two calls *)

Lemma exchange_summary_MaxConns (x : exchange_io) (req : Request)
    (resp : option Response) (cc : clientConn) (w1 : World) :
  MaxConns (w_hc (snd (exchange_summary x req resp cc w1))) = MaxConns (w_hc w1).
Proof.
  unfold exchange_summary. simpl.
  destruct (getClientName_hc_frame (w_hc w1)) as [n Hn].
  destruct (reaches_write _ && String.eqb (req_userAgent req) EmptyString);
    try rewrite Hn;
    match goal with |- context [if ?b then set_conns _ _ else _] => destruct b end;
    reflexivity.
Qed.

(** With no slot in use before an exchange, none is in use after it. *)
Lemma do_pool_balanced (env : nat -> exchange_io) (req : Request)
    (resp : option Response) (w : World) :
  in_int64 (MaxConns (w_hc w)) ->
  connsCount (w_hc w) = len (conns (w_hc w)) ->
  connsCount (w_hc w) <= maxConns_of (w_hc w) ->
  let c' := w_hc (snd (do env req resp w)) in
  MaxConns c' = MaxConns (w_hc w)
  /\ connsCount c' = len (conns c')
  /\ connsCount c' <= maxConns_of (w_hc w)
  /\ len (conns c') <= Z.max (len (conns (w_hc w))) 1.
Proof.
  intros Hm Hb Hc c'. unfold c'. clear c'.
  rewrite do_is_summary. unfold do_summary.
  set (x := env (w_attempt w)).
  pose proof (maxConns_of_range _ Hm) as Hr.
  pose proof (len_nonneg (conns (w_hc w))) as Hl.
  assert (B1 : conns (w_hc (before_acquire env w)) = conns (w_hc w)) by reflexivity.
  assert (B2 : connsCount (w_hc (before_acquire env w)) = connsCount (w_hc w))
    by reflexivity.
  assert (B3 : MaxConns (w_hc (before_acquire env w)) = MaxConns (w_hc w))
    by reflexivity.
  assert (B4 : maxConns_of (w_hc (before_acquire env w)) = maxConns_of (w_hc w))
    by reflexivity.
  destruct (acquireConn (x_dial x) (before_acquire env w)) as [[cc|e] w1] eqn:Ha;
    apply acquireConn_pool in Ha; cbv zeta in Ha;
    rewrite B1, B2, B3, ?B4 in Ha; destruct Ha as [Hmx Ha].
  - cbv iota beta.
    rewrite exchange_summary_MaxConns.
    pose proof (exchange_summary_pool x req resp cc w1) as Hp. cbv zeta in Hp.
    set (rel := match outcome_of (w_hc w1) x req resp with
                | Clean => negb (mustClose (w_hc w1) cc x req resp)
                | _ => false
                end) in Hp.
    destruct Hp as [Hrel Hcl].
    assert (W : forall z, 0 <= z <= maxInt64 -> wrap64 z = z).
    { intros z Hz. apply wrap64_id.
      unfold in_int64, minInt64, maxInt64 in *. lia. }
    unfold maxInt64 in *.
    destruct Ha as [[Hcs Hn]|[Hcs [Hcs1 [Hlt Hn]]]].
    + rewrite Hcs, len_app in Hb, Hl |- *.
      change (len [cc]) with 1 in *.
      pose proof (len_nonneg (conns (w_hc w1))) as Hl1.
      destruct rel.
      * destruct (Hrel eq_refl) as [Hc' Hn']. rewrite Hc', Hn', len_app.
        change (len [_]) with 1. split; [exact Hmx|]. lia.
      * destruct (Hcl eq_refl) as [Hc' Hn']. rewrite Hc', Hn', Hn.
        rewrite W by (unfold maxInt64; lia). split; [exact Hmx|]. lia.
    + rewrite Hcs in *. change (len []) with 0 in *. rewrite Hb in Hn.
      rewrite (W (0 + 1)) in Hn by (unfold maxInt64; lia).
      destruct rel.
      * destruct (Hrel eq_refl) as [Hc' Hn']. rewrite Hc', Hn', Hcs1, Hn.
        change (len ([] ++ [_])) with 1. split; [exact Hmx|]. lia.
      * destruct (Hcl eq_refl) as [Hc' Hn']. rewrite Hc', Hn', Hcs1, Hn.
        rewrite W by (unfold maxInt64; lia).
        change (len []) with 0. split; [exact Hmx|]. lia.
  - cbv iota beta. cbn [snd].
    destruct Ha as [Hcs Hn]. rewrite Hcs. split; [exact Hmx|].
    assert (Hn' : connsCount (w_hc w1) = connsCount (w_hc w)).
    { destruct Hn as [Hn|[_ [Hlt Hn]]]; [exact Hn|]. rewrite Hn.
      unfold maxInt64 in *.
      rewrite (wrap64_id (connsCount (w_hc w) + 1))
        by (unfold in_int64, minInt64, maxInt64; lia).
      rewrite wrap64_id by (unfold in_int64, minInt64, maxInt64; lia).
      lia. }
    rewrite Hn'. lia.
Qed.

(** X23. Do gives back what it takes: if no connection is in use before
    the call (connsCount counts the idle ones only) and the cap is kept,
    the same holds after Do, also when the call fails or retries; the
    idle list has then at most as many connections as before, or one. *)
Theorem Do_keeps_pool_balanced (env : nat -> exchange_io) (req : Request)
    (resp : option Response) (w : World) :
  in_int64 (MaxConns (w_hc w)) ->
  connsCount (w_hc w) = len (conns (w_hc w)) ->
  connsCount (w_hc w) <= maxConns_of (w_hc w) ->
  let c' := w_hc (snd (Do env req resp w)) in
  connsCount c' = len (conns c')
  /\ connsCount c' <= maxConns_of c'
  /\ len (conns c') <= Z.max (len (conns (w_hc w))) 1.
Proof.
  intros Hm Hb Hc c'. unfold c'. clear c'.
  pose proof (do_pool_balanced env req resp w Hm Hb Hc) as H1. cbv zeta in H1.
  destruct H1 as [M1 [B1 [C1 L1]]].
  destruct (Do_exchanges env req resp w) as [E|[resp1 E]]; rewrite E.
  - rewrite (maxConns_of_ext _ _ M1). auto.
  - set (w1 := snd (do env req resp w)) in *.
    assert (Hm1 : in_int64 (MaxConns (w_hc w1))) by (rewrite M1; exact Hm).
    assert (C1' : connsCount (w_hc w1) <= maxConns_of (w_hc w1))
      by (rewrite (maxConns_of_ext _ _ M1); exact C1).
    pose proof (do_pool_balanced env req resp1 w1 Hm1 B1 C1') as H2.
    cbv zeta in H2. destruct H2 as [M2 [B2 [C2 L2]]].
    split; [exact B2|]. split.
    + rewrite (maxConns_of_ext _ _ M2). exact C2.
    + lia.
Qed.


(** ** The User-Agent of a request *)

Lemma exchange_events_write (c : HostClient) (cc : clientConn) (x : exchange_io)
    (req : Request) (resp : option Response) (ua : string)
    (conn : net_Conn) (b : bool) (ua' : string) :
  In (EvWrite conn b ua') (exchange_events c cc x req resp ua) ->
  ua' = ua /\ reaches_write (outcome_of c x req resp) = true.
Proof.
  unfold exchange_events.
  destruct (outcome_of c x req resp), (negb (is_some resp)),
    (0 <? ReadTimeout c), (0 <? WriteTimeout c);
    try destruct (mustClose c cc x req resp);
    simpl; intros H;
    repeat match goal with
           | H : _ \/ _ |- _ => destruct H as [H|H]
           | H : False |- _ => destruct H
           | H : _ = EvWrite _ _ _ |- _ => inversion H; clear H
           end; split; reflexivity.
Qed.

(** What acquireConn does to the outside world: dials, and the start of
    the reaper. *)
Lemma acquireConn_trace_kinds (d : dial_io) (w : World) :
  exists evs, w_trace (snd (acquireConn d w)) = evs ++ w_trace w
              /\ forall ev, In ev evs ->
                   ev = EvStartCleaner \/ exists a, ev = EvDial a.
Proof.
  unfold acquireConn, acquireConn_locked, bind, get_hc, modify_hc, ret.
  destruct (pop_tail (conns (w_hc w))) as [[front cc]|]; simpl.
  - exists []. split; [reflexivity | intros ev []].
  - destruct (connsCount (w_hc w) <? maxConns_of (w_hc w)); simpl.
    + unfold dialHostHard, bind, get_hc.
      match goal with
      | |- context [dialHostHard_loop d ?dl ?n 0 None ?w1] =>
          destruct (dialHostHard_loop_spec d dl n 0%nat None w1) as [tried [T _]];
          destruct (dialHostHard_loop d dl n 0 None w1) as [[conn err] w2]
      end.
      simpl in T. simpl.
      assert (P : forall ev, In ev (rev (map EvDial tried)) ->
                    ev = EvStartCleaner \/ exists a, ev = EvDial a).
      { intros ev Hin. right. apply in_rev in Hin. apply in_map_iff in Hin.
        destruct Hin as [a [E _]]. exists a. symmetry. exact E. }
      destruct err as [e0|]; simpl.
      * exists (rev (map EvDial tried)). split; [exact T | exact P].
      * unfold emit. destruct (wrap64 (connsCount (w_hc w) + 1) =? 1); simpl.
        -- exists (EvStartCleaner :: rev (map EvDial tried)).
           split; [rewrite T; reflexivity|].
           intros ev [<-|Hin]; [left; reflexivity | apply P; exact Hin].
        -- exists (rev (map EvDial tried)). split; [exact T | exact P].
    + exists []. split; [reflexivity | intros ev []].
Qed.

Lemma acquireConn_clientName (d : dial_io) (w : World) :
  getClientName_hc (w_hc (snd (acquireConn d w)))
  = (fst (getClientName_hc (w_hc w)),
     snd (getClientName_hc (w_hc (snd (acquireConn d w))))) .
Proof.
  assert (H : clientName (w_hc (snd (acquireConn d w))) = clientName (w_hc w)
              /\ Name (w_hc (snd (acquireConn d w))) = Name (w_hc w)).
  { unfold acquireConn, acquireConn_locked, bind, get_hc, modify_hc, ret.
    destruct (pop_tail (conns (w_hc w))) as [[front cc]|]; simpl; [auto|].
    destruct (connsCount (w_hc w) <? maxConns_of (w_hc w)); simpl; [|auto].
    match goal with |- context [dialHostHard d ?w1] =>
      pose proof (dialHostHard_frame d w1) as F;
      destruct (dialHostHard d w1) as [[conn err] w2] end.
    destruct F as [[l [i F]] _]. simpl in *.
    destruct err; simpl.
    - rewrite F. auto.
    - unfold emit.
      destruct (wrap64 (connsCount (w_hc w) + 1) =? 1); simpl; rewrite F; auto. }
  destruct H as [H1 H2]. unfold getClientName_hc. rewrite H1, H2.
  destruct (clientName (w_hc w)); reflexivity.
Qed.

(** X24. Every request that an exchange writes carries a User-Agent: its
    own if it has one; otherwise the name of the client, which is the one
    remembered from an earlier exchange, or Name, or the default when
    Name is empty; and that name is remembered from then on. *)
Theorem do_sends_User_Agent (env : nat -> exchange_io) (req : Request)
    (resp : option Response) (w : World) (evs : list event)
    (conn : net_Conn) (b : bool) (ua : string) :
  let w' := snd (do env req resp w) in
  let name := match clientName (w_hc w) with
              | Some n => n
              | None => if String.eqb (Name (w_hc w)) EmptyString
                        then defaultUserAgent else Name (w_hc w)
              end in
  w_trace w' = evs ++ w_trace w ->
  In (EvWrite conn b ua) evs ->
  ua = (if String.eqb (req_userAgent req) EmptyString then name
        else req_userAgent req)
  /\ (req_userAgent req = EmptyString -> clientName (w_hc w') = Some name).
Proof.
  intros w' name Ht Hin.
  assert (Hname : fst (getClientName_hc (w_hc w)) = name).
  { unfold getClientName_hc, name. destruct (clientName (w_hc w)); reflexivity. }
  unfold w' in *. clear w'. rewrite do_is_summary in *. unfold do_summary in *.
  set (x := env (w_attempt w)) in *.
  destruct (acquireConn_trace_kinds (x_dial x) (before_acquire env w))
    as [evs0 [T0 K0]].
  pose proof (acquireConn_clientName (x_dial x) (before_acquire env w)) as Hn.
  change (w_hc (before_acquire env w))
    with (set_lastUseTime (w_hc w)
            (uint32 (wrap64 (Unix (x_now_start x) - startTimeUnix)))) in Hn.
  assert (Hn0 : fst (getClientName_hc (set_lastUseTime (w_hc w)
                  (uint32 (wrap64 (Unix (x_now_start x) - startTimeUnix)))))
                = name).
  { rewrite <- Hname. unfold getClientName_hc. simpl.
    destruct (clientName (w_hc w)); reflexivity. }
  rewrite Hn0 in Hn. clear Hn0.
  change (w_trace (before_acquire env w)) with (w_trace w) in T0.
  destruct (acquireConn (x_dial x) (before_acquire env w)) as [[cc|e] w1];
    cbn [snd] in T0, Hn; cbv iota beta in Ht |- *.
  - unfold exchange_summary in Ht |- *. cbn [snd w_trace w_hc] in Ht |- *.
    rewrite T0, app_assoc in Ht. apply app_inv_tail in Ht. subst evs.
    apply in_app_or in Hin. destruct Hin as [Hin|Hin].
    + apply exchange_events_write in Hin. destruct Hin as [Hu Hr].
      rewrite Hr in *. cbn [andb] in *.
      rewrite Hn in Hu. cbn [fst] in Hu.
      split; [exact Hu|].
      intros He. rewrite He. cbn [String.eqb andb].
      assert (Hc : clientName (snd (getClientName_hc (w_hc w1))) = Some name).
      { assert (E : fst (getClientName_hc (w_hc w1)) = name)
          by (rewrite Hn; reflexivity).
        revert E. unfold getClientName_hc.
        destruct (clientName (w_hc w1)) as [n|] eqn:Ec; simpl.
        - intros <-. exact Ec.
        - intros <-. reflexivity. }
      match goal with |- context [if ?r then set_conns _ _ else _] =>
        destruct r end; simpl; exact Hc.
    + destruct (K0 _ Hin) as [E|[a E]]; discriminate.
  - cbn [snd] in Ht. rewrite T0 in Ht. apply app_inv_tail in Ht. subst evs.
    destruct (K0 _ Hin) as [E|[a E]]; discriminate.
Qed.

End Client.

(** * Examples *)

(** C1 at work: with MaxConns = 1 and the only slot in use, the next
    acquireConn is refused and changes nothing. *)
Lemma pool_never_exceeds_cap_witness :
  connsCount (w_hc ex_busy) <= 1
  /\ acquireConn (3 * Second) ex_dial ex_busy = (inr ErrNoFreeConns, ex_busy).
Proof.
  pose proof (pool_never_exceeds_cap (3 * Second) ex_world ex_busy
                [OpAcquire ex_dial] [ex_cc]) as H.
  destruct H as [H1 [_ [_ H4]]].
  - unfold in_int64, minInt64, maxInt64. simpl. lia.
  - reflexivity.
  - reflexivity.
  - vm_compute. reflexivity.
  - split; [exact H1|]. apply H4; reflexivity.
Defined.

(** C3 at work: a clean keep-alive exchange releases its slot. *)
Lemma do_connection_disposition_witness :
  slot_released 4 ex_cc ex_holding
    (snd (do (3 * Second) "fasthttp" 1 ex_env ex_get None ex_world)).
Proof.
  pose proof (do_connection_disposition (3 * Second) "fasthttp" 1 ex_env ex_get
                None ex_world ex_holding ex_cc) as H.
  cbv zeta in H. destruct H as [_ [_ H]].
  - vm_compute. reflexivity.
  - apply H; vm_compute; reflexivity.
Defined.

(** C9 at work: the response of a HEAD request is read with SkipBody set. *)
Lemma do_head_sets_SkipBody_witness :
  SkipBody (receiver (w_hc ex_holding) ex_head None) = true
  /\ In (EvReadLimitBody (Some 7%nat) true 0)
        [EvReleaseResponse; EvReadLimitBody (Some 7%nat) true 0;
         EvAcquireResponse; EvFlush (Some 7%nat);
         EvWrite (Some 7%nat) false "fasthttp"].
Proof.
  pose proof (do_head_sets_SkipBody (3 * Second) "fasthttp" 1 ex_env ex_head
                None ex_world ex_holding ex_cc) as H.
  cbv zeta in H. destruct H as [_ [_ [H3 H4]]].
  - reflexivity.
  - vm_compute. reflexivity.
  - split; [exact H3|].
    apply H4; [vm_compute; reflexivity | left; vm_compute; reflexivity].
Defined.

(** C10 at work: a nil response and a fresh response give the same
    outcome and leave the same client. *)
Lemma do_nil_response_witness :
  fst (fst (do (3 * Second) "fasthttp" 1 ex_env ex_get None ex_world))
  = fst (fst (do (3 * Second) "fasthttp" 1 ex_env ex_get (Some emptyResponse) ex_world))
  /\ w_hc (snd (do (3 * Second) "fasthttp" 1 ex_env ex_get None ex_world))
     = w_hc (snd (do (3 * Second) "fasthttp" 1 ex_env ex_get (Some emptyResponse) ex_world)).
Proof.
  pose proof (do_nil_response (3 * Second) "fasthttp" 1 ex_env ex_get
                emptyResponse ex_world) as H.
  cbv zeta in H. destruct H as [H1 [_ [H3 _]]].
  - reflexivity.
  - split; [exact H1 | exact H3].
Defined.

(** C10 as stated fails: with a response in which SkipBody is still set,
    a GET is read without its body and goes through, while the same GET
    with a nil response reads the body and fails; the outcomes and the
    pools differ. *)
Lemma do_nil_response_counterexample :
  fst (fst (do (3 * Second) "fasthttp" 1 cx_env ex_get None ex_world))
  <> fst (fst (do (3 * Second) "fasthttp" 1 cx_env ex_get (Some cx_stale) ex_world))
  /\ conns (w_hc (snd (do (3 * Second) "fasthttp" 1 cx_env ex_get None ex_world)))
     <> conns (w_hc (snd (do (3 * Second) "fasthttp" 1 cx_env ex_get (Some cx_stale) ex_world))).
Proof.
  split; vm_compute; discriminate.
Qed.

(** C8 as stated fails: with ReadTimeout = -1ns and WriteTimeout = 0 the
    timeouts are not both zero, and still the dial deadline falls back to
    DefaultDialTimeout. *)
Lemma dialHostHard_fallback_counterexample :
  ~ (ReadTimeout cx_client = 0 /\ WriteTimeout cx_client = 0)
  /\ dialTimeout (3 * Second) cx_client = 3 * Second
  /\ dialTimeout (3 * Second) cx_client
     <> ReadTimeout cx_client + WriteTimeout cx_client.
Proof.
  split; [intros [H _]; discriminate H|].
  split; [reflexivity | vm_compute; discriminate].
Qed.

(** C5 at work, on a HostClient: the server answers 16 redirects and then
    200; the follower returns the 200. *)
Lemma follow_redirects_bounded_witness :
  exists w',
    doRequestFollowRedirects
      (D := HostClient_doer (3 * Second) "fasthttp" 1
              (ex_server (repeat ex_redirect 16 ++ [ex_ok])))
      (fun _ l => l) ex_get "" "/" ex_world
    = Some (200, "OK"%string, None, w').
Proof.
  eexists.
  refine (proj1 (follow_redirects_bounded
                   (D := HostClient_doer (3 * Second) "fasthttp" 1
                           (ex_server (repeat ex_redirect 16 ++ [ex_ok])))
                   (fun _ l => l) ex_get "" "/" ex_world _
                   (repeat ex_redirect 16) ex_ok _ _ _) _).
  - repeat constructor; discriminate.
  - reflexivity.
  - simpl repeat. simpl app.
    repeat (eapply follows_cons; [vm_compute; reflexivity|]).
    apply follows_nil.
  - simpl. lia.
Defined.

(** C6 at work, on a HostClient: the second response in a row is a
    redirect without Location, and the follower ends with
    errMissingLocation. *)
Lemma follow_redirect_classification_witness :
  exists w',
    doRequestFollowRedirects
      (D := HostClient_doer (3 * Second) "fasthttp" 1
              (ex_server [ex_redirect; ex_redirect_nowhere]))
      (fun _ l => l) ex_get "" "/" ex_world
    = Some (302, EmptyString, Some errMissingLocation, w').
Proof.
  eexists.
  pose proof (follow_redirect_classification
                (D := HostClient_doer (3 * Second) "fasthttp" 1
                        (ex_server [ex_redirect; ex_redirect_nowhere]))
                (fun _ l => l) ex_get "" "/" ex_world
                (snd (Do (3 * Second) "fasthttp" 1
                        (ex_server [ex_redirect; ex_redirect_nowhere])
                        (SetRequestURI_fresh (SetRequestURI_fresh ex_get "/") "/next")
                        (Some ex_redirect)
                        (snd (Do (3 * Second) "fasthttp" 1
                                (ex_server [ex_redirect; ex_redirect_nowhere])
                                (SetRequestURI_fresh ex_get "/")
                                (Some (set_resp_body emptyResponse ""))
                                ex_world))))
                [ex_redirect] ex_redirect_nowhere) as H.
  cbv zeta in H. destruct H as [_ [_ [_ [_ [_ H]]]]].
  - repeat constructor; discriminate.
  - eapply follows_cons; [vm_compute; reflexivity|].
    eapply follows_cons; [vm_compute; reflexivity|].
    apply follows_nil.
  - simpl. lia.
  - apply H; [reflexivity | simpl; lia | reflexivity].
Defined.

(** C6 as stated fails: the 17th redirect in a row has no Location, and
    the follower ends with errTooManyRedirects, not errMissingLocation. *)
Lemma follow_redirect_classification_counterexample :
  is_redirect (resp_statusCode ex_redirect_nowhere) = true
  /\ resp_location ex_redirect_nowhere = EmptyString
  /\ doRequestFollowRedirects (D := scripted_doer) (fun _ l => l) ex_get "" "/"
       (script (repeat ex_redirect 16 ++ [ex_redirect_nowhere]))
     = Some (302, EmptyString, Some errTooManyRedirects, [])
  /\ Some errTooManyRedirects <> Some errMissingLocation.
Proof.
  split; [reflexivity|]. split; [reflexivity|].
  split; [vm_compute; reflexivity | discriminate].
Qed.

(** ** The further properties at work *)

(** X1 at work: at 20 s the reaper evicts the slot idle since 0 s and
    keeps the one used at 15 s. *)
Lemma connsCleaner_cycle_evicts_witness :
  exists evicted : list clientConn,
    [ex_idle_old; ex_idle_new]
    = evicted ++ conns (w_hc (snd (connsCleaner_cycle (20 * Second) ex_idle)))
    /\ Forall (expired (20 * Second) (10 * Second)) evicted
    /\ match conns (w_hc (snd (connsCleaner_cycle (20 * Second) ex_idle))) with
       | [] => True
       | cc :: _ => ~ expired (20 * Second) (10 * Second) cc
       end
    /\ w_trace (snd (connsCleaner_cycle (20 * Second) ex_idle))
       = rev (map (fun cc => EvConnClose (cc_c cc)) evicted) ++ []
    /\ connsCount (w_hc (snd (connsCleaner_cycle (20 * Second) ex_idle)))
       = 2 - len evicted.
Proof.
  apply (connsCleaner_cycle_evicts (20 * Second) ex_idle).
  vm_compute. split; discriminate.
Defined.

(** X2 at work: what the reaper leaves of [ex_idle] is in order and not
    expired. *)
Lemma connsCleaner_cycle_sorted_witness :
  sorted_by_lastUse (conns (w_hc (snd (connsCleaner_cycle (20 * Second) ex_idle))))
  /\ Forall (fun cc => Sub (20 * Second) (lastUseTime cc) <= 10 * Second)
       (conns (w_hc (snd (connsCleaner_cycle (20 * Second) ex_idle)))).
Proof.
  apply (connsCleaner_cycle_sorted (20 * Second) ex_idle).
  simpl. split.
  - intros cc' [<-|[]]. simpl. unfold Second. lia.
  - split; [intros cc' []| exact I].
Defined.

(** X3 at work: with one slot left the reaper goes on. *)
Lemma connsCleaner_cycle_stops_witness :
  fst (connsCleaner_cycle (20 * Second) ex_idle) = false
  /\ 0 < connsCount (w_hc (snd (connsCleaner_cycle (20 * Second) ex_idle))).
Proof.
  pose proof (connsCleaner_cycle_stops (20 * Second) ex_idle) as H.
  cbv zeta in H. destruct H as [_ [_ H]].
  - vm_compute. split; discriminate.
  - split; [reflexivity | apply H; reflexivity].
Defined.

(** X4 at work: the only slot of [ex_stale] is expired at 20 s, and the
    reaper ends in its first round. *)
Lemma connsCleaner_stops_on_idle_pool_witness :
  exists k, (0 < k <= 1)%nat
    /\ fst (connsCleaner (fun _ => 20 * Second) 1 0 ex_stale) = Some k
    /\ conns (w_hc (snd (connsCleaner (fun _ => 20 * Second) 1 0 ex_stale))) = []
    /\ connsCount (w_hc (snd (connsCleaner (fun _ => 20 * Second) 1 0 ex_stale))) = 0.
Proof.
  apply (connsCleaner_stops_on_idle_pool (fun _ => 20 * Second) 0 ex_stale).
  - reflexivity.
  - vm_compute. discriminate.
  - constructor; [|constructor]. unfold expired. vm_compute. reflexivity.
Defined.

(** X5 at work: two slots are taken, and released at times 5 and 8; the
    idle list has them in this order. *)
Lemma pool_keeps_last_use_order_witness :
  sorted_by_lastUse
    [mkClientConn (Some 7%nat) 102 5; mkClientConn (Some 8%nat) 102 8].
Proof.
  apply (pool_keeps_last_use_order (3 * Second) ex_pool2
           (snd (releaseConn 8 ex_cc8
                   (snd (releaseConn 5 ex_cc
                           (snd (acquireConn (3 * Second) ex_dial_second
                                   (snd (acquireConn (3 * Second) ex_dial
                                           ex_pool2))))))))
           [OpAcquire ex_dial; OpAcquire ex_dial_second;
            OpRelease 5 ex_cc; OpRelease 8 ex_cc8] []).
  - reflexivity.
  - simpl. split; [intros t' [<-|[]]; lia|].
    split; [intros t' [] | exact I].
  - vm_compute. reflexivity.
Defined.

(** X7 at work: the dial fails, and the pool of [ex_world] is as before. *)
Lemma acquireConn_failure_keeps_pool_witness :
  conns (w_hc (snd (acquireConn (3 * Second) ex_dial_fails ex_world))) = []
  /\ connsCount (w_hc (snd (acquireConn (3 * Second) ex_dial_fails ex_world))) = 0
  /\ w_attempt (snd (acquireConn (3 * Second) ex_dial_fails ex_world)) = 0%nat.
Proof.
  apply (acquireConn_failure_keeps_pool (3 * Second) ex_dial_fails ex_world
           (snd (acquireConn (3 * Second) ex_dial_fails ex_world)) (ErrExternal 9)).
  - vm_compute. split; discriminate.
  - vm_compute. split; discriminate.
  - vm_compute. reflexivity.
Defined.

(** X8 at work: the reaper has decided to stop over [ex_stale] when a
    request dials; one connection is left, and no reaper. *)
Lemma reaper_stops_before_late_connection_witness :
  snd (fst (connsCleaner_locked (20 * Second) (w_hc ex_stale))) = true
  /\ connsCount
       (w_hc (snd (closeConns [ex_idle_old]
                (snd (acquireConn (3 * Second) ex_dial
                        (mkWorld (snd (connsCleaner_locked (20 * Second)
                                         (w_hc ex_stale))) [] 0)))))) = 1.
Proof.
  pose proof (reaper_stops_before_late_connection (3 * Second) (20 * Second)
                ex_dial ex_stale) as H.
  cbv zeta in H. destruct H as [H1 [H2 [_ [_ [H5 _]]]]].
  - discriminate.
  - reflexivity.
  - vm_compute. reflexivity.
  - vm_compute. split; discriminate.
  - constructor; [|constructor]. unfold expired. vm_compute. reflexivity.
  - intros i addr. eexists. reflexivity.
  - split; [exact H1|]. rewrite H2 in H5. exact H5.
Defined.

(** X10 at work: the address "a" is dialed as "a:80". *)
Lemma acquireConn_dials_with_port_witness :
  has_colon "a:80" = true.
Proof.
  apply (acquireConn_dials_with_port (3 * Second) ex_dial ex_world eq_refl
           [EvStartCleaner; EvDial "a:80"] "a:80").
  - vm_compute. reflexivity.
  - right. left. reflexivity.
Defined.

(** X11 at work: with the cursor at 1, two calls give "b", then "a". *)
Lemma nextAddr_round_robin_witness :
  fst (nextAddrs 2 ex_busy) = ["b"; "a"]%string.
Proof.
  apply (nextAddr_round_robin ex_busy); vm_compute; try reflexivity;
    discriminate.
Defined.

(** X12 at work: the exchange starts 5 s after the epoch, the program
    started at 1 s; LastUseTime gives the 5 s back. *)
Lemma Do_records_LastUseTime_witness :
  LastUseTime 1 (w_hc (snd (Do (3 * Second) "fasthttp" 1 ex_env ex_get None ex_world)))
  = 5 * Second.
Proof.
  pose proof (Do_records_LastUseTime (3 * Second) "fasthttp" 1 ex_env ex_get
                None ex_world) as H.
  cbv zeta in H. destruct H as [H _].
  - vm_compute. split; discriminate.
  - vm_compute. split; [discriminate | reflexivity].
  - rewrite H. vm_compute. reflexivity.
Defined.

(** X13 at work: the dial fails; Do returns the dial error after one
    exchange, although GET is idempotent. *)
Lemma Do_gives_up_without_connection_witness :
  fst (fst (Do (3 * Second) "fasthttp" 1 ex_fail_env ex_get None ex_world))
  = Some (ErrExternal 9)
  /\ w_attempt (snd (Do (3 * Second) "fasthttp" 1 ex_fail_env ex_get None ex_world))
     = 1%nat.
Proof.
  pose proof (Do_gives_up_without_connection (3 * Second) "fasthttp" 1
                ex_fail_env ex_get None ex_world
                (snd (acquireConn (3 * Second) ex_dial_fails
                        (before_acquire 1 ex_fail_env ex_world)))
                (ErrExternal 9)) as H.
  destruct H as [H1 [H2 _]].
  - vm_compute. split; discriminate.
  - vm_compute. split; discriminate.
  - vm_compute. reflexivity.
  - rewrite H1. split; [reflexivity | exact H2].
Defined.

(** X14 at work: after a clean keep-alive exchange the next one gets the
    same connection, released at time 4. *)
Lemma do_connection_serves_next_exchange_witness :
  fst (acquireConn (3 * Second) ex_dial
         (before_acquire 1 ex_env
            (snd (do (3 * Second) "fasthttp" 1 ex_env ex_get None ex_world))))
  = inl (mkClientConn (Some 7%nat) 102 4).
Proof.
  pose proof (do_connection_serves_next_exchange (3 * Second) "fasthttp" 1
                ex_env ex_get None ex_world ex_holding ex_cc) as H.
  cbv zeta in H. destruct H as [H _].
  - vm_compute. reflexivity.
  - vm_compute. reflexivity.
  - vm_compute. reflexivity.
  - exact H.
Defined.

(** X15 at work: the first sleep, far from the deadline, is between 10
    and 50 ms. *)
Lemma updateSleepTime_bounds_witness :
  10 * Millisecond <= updateSleepTime (ex_hio 0) 0 Second < 50 * Millisecond.
Proof.
  pose proof (updateSleepTime_bounds (ex_hio 0) 0 Second) as H.
  cbv zeta in H. destruct H as [_ [_ H]].
  - lia.
  - simpl. lia.
  - apply H; [reflexivity | vm_compute; discriminate].
Defined.

(** X17 at work: a request is routed and carried out at 5 s; the round
    of the cleaner at 70 s finds its client unused for over a minute,
    empties the map and ends. *)
Lemma Client_one_cleaner_per_map_witness :
  run_client_ops (3 * Second) "fasthttp" 1 ex_uri_host ex_uri_scheme ex_cl
    [OpRoute ex_req_host; OpExchange ex_env 0 ex_req_host None;
     OpClean false (70 * Second)] emptyClientWorld
  <> None
  /\ forall cw,
       run_client_ops (3 * Second) "fasthttp" 1 ex_uri_host ex_uri_scheme ex_cl
         [OpRoute ex_req_host; OpExchange ex_env 0 ex_req_host None;
          OpClean false (70 * Second)] emptyClientWorld = Some cw ->
       cw_cleaners false cw = (if len (cw_map false cw) =? 0 then 0%nat else 1%nat).
Proof.
  split; [vm_compute; discriminate|].
  intros cw H.
  apply (Client_one_cleaner_per_map (3 * Second) "fasthttp" 1 ex_uri_host
           ex_uri_scheme ex_cl _ cw H false).
Defined.

(** X18 at work: the first request to example.com makes its client; the
    next one to that host is routed to the same client. *)
Lemma Client_Do_same_host_same_client_witness :
  exists id sc cw1 err resp1 cw2,
    Client_Do_locked ex_uri_host ex_uri_scheme ex_cl ex_req_host emptyClientWorld
    = (Routed id sc, cw1)
    /\ Client_Do (3 * Second) "fasthttp" 1 ex_uri_host ex_uri_scheme ex_cl
         ex_env ex_req_host None emptyClientWorld
       = Some (err, resp1, cw2)
    /\ Client_Do_locked ex_uri_host ex_uri_scheme ex_cl ex_req_host cw2
       = (Routed id false, cw2).
Proof.
  apply (Client_Do_same_host_same_client (3 * Second) "fasthttp" 1 ex_uri_host
           ex_uri_scheme ex_cl [] ex_env ex_req_host ex_req_host None
           emptyClientWorld);
    [reflexivity | left; reflexivity | reflexivity | reflexivity].
Defined.

(** X19 at work: the client was used at 5 s; the round of the cleaner at
    60 s leaves it in the map. *)
Lemma mCleaner_keeps_recent_client_witness :
  In ("example.com"%string, 0%nat) (cw_map false ex_exchanged) /\ false = false.
Proof.
  apply (mCleaner_keeps_recent_client (3 * Second) "fasthttp" 1 ex_env 0
           ex_req_host None ex_routed ex_exchanged ex_exchanged None None
           false false (60 * Second) "example.com").
  - vm_compute. reflexivity.
  - vm_compute. split; discriminate.
  - vm_compute. split; [discriminate | reflexivity].
  - vm_compute. discriminate.
  - left. reflexivity.
  - vm_compute. reflexivity.
Defined.

(** X20 at work: the program started at 1 s; a round of the cleaner at
    70 s, before the first exchange, drops the new client, and the host
    gets a second one. *)
Lemma mCleaner_drops_client_before_first_exchange_witness :
  m_lookup "example.com" (cw_map false ex_dropped) = None
  /\ exists sc' cw3,
       Client_Do_locked ex_uri_host ex_uri_scheme ex_cl ex_req_host ex_dropped
       = (Routed 1 sc', cw3).
Proof.
  pose proof (mCleaner_drops_client_before_first_exchange 1 ex_uri_host
                ex_uri_scheme ex_cl ex_req_host emptyClientWorld ex_dropped
                true (70 * Second)) as H.
  cbv zeta in H. destruct H as [_ [_ [H3 H4]]].
  - left. reflexivity.
  - reflexivity.
  - vm_compute. split; discriminate.
  - vm_compute. reflexivity.
  - vm_compute. reflexivity.
  - split; [exact H3 | exact H4].
Defined.

(** X23 at work: after Do on the fresh [ex_world] the one connection is
    idle and counted. *)
Lemma Do_keeps_pool_balanced_witness :
  connsCount (w_hc (snd (Do (3 * Second) "fasthttp" 1 ex_env ex_get None ex_world)))
  = len (conns (w_hc (snd (Do (3 * Second) "fasthttp" 1 ex_env ex_get None
                              ex_world)))).
Proof.
  pose proof (Do_keeps_pool_balanced (3 * Second) "fasthttp" 1 ex_env ex_get
                None ex_world) as H.
  cbv zeta in H. destruct H as [H _].
  - vm_compute. split; discriminate.
  - reflexivity.
  - vm_compute. discriminate.
  - exact H.
Defined.

(** X24 at work: the request has no User-Agent and the client no name;
    the default goes out and is remembered. *)
Lemma do_sends_User_Agent_witness :
  clientName (w_hc (snd (do (3 * Second) "fasthttp" 1 ex_env ex_get None ex_world)))
  = Some "fasthttp"%string.
Proof.
  pose proof (do_sends_User_Agent (3 * Second) "fasthttp" 1 ex_env ex_get None
                ex_world
                [EvReleaseResponse; EvReadLimitBody (Some 7%nat) false 0;
                 EvAcquireResponse; EvFlush (Some 7%nat);
                 EvWrite (Some 7%nat) false "fasthttp"; EvStartCleaner;
                 EvDial "a:80"]
                (Some 7%nat) false "fasthttp") as H.
  cbv zeta in H. destruct H as [_ H].
  - vm_compute. reflexivity.
  - do 4 right. left. reflexivity.
  - apply H. reflexivity.
Defined.

(** ** The code on concrete inputs *)

(** A GET whose first connection is dropped is sent again and succeeds. *)
Example Do_get_is_retried :
  let r := Do (3 * Second) "fasthttp" 1 ex_flaky_env ex_get None ex_world in
  fst (fst r) = None /\ w_attempt (snd r) = 2%nat.
Proof. vm_compute. split; reflexivity. Qed.

(** The same with POST is not sent again and fails with ErrConnectionClosed. *)
Example Do_post_is_not_retried :
  let r := Do (3 * Second) "fasthttp" 1 ex_flaky_env ex_post None ex_world in
  fst (fst r) = Some ErrConnectionClosed /\ w_attempt (snd r) = 1%nat.
Proof. vm_compute. split; reflexivity. Qed.

(** With the address list not yet split, dialHostHard tries one address
    only; afterwards it goes on to the second one. *)
Example dialHostHard_first_call :
  fst (dialHostHard (3 * Second) ex_dial_second ex_world)
  = (None, Some (ErrExternal 9))
  /\ w_trace (snd (dialHostHard (3 * Second) ex_dial_second ex_world))
     = [EvDial "a:80"].
Proof. vm_compute. split; reflexivity. Qed.

Example dialHostHard_second_address :
  fst (dialHostHard (3 * Second) ex_dial_second ex_world_addrs)
  = (Some 8%nat, None)
  /\ w_trace (snd (dialHostHard (3 * Second) ex_dial_second ex_world_addrs))
     = [EvDial "b:80"; EvDial "a:80"].
Proof. vm_compute. split; reflexivity. Qed.

(** A doer that has no free connection at first is asked again after a
    sleep, and its answer then is what the harness returns. *)
Example clientDoDeadline_polls :
  clientDoDeadline (D := scripted_doer) ex_hio 3 ex_get emptyResponse Second
    [(Some ErrNoFreeConns, emptyResponse); (None, ex_ok)]
  = Some (mkHarnessResult None (set_req_body ex_get "") ex_ok []
            [HSpawn; HSleep (15 * Millisecond); HSpawn]).
Proof. vm_compute. reflexivity. Qed.

(** A client whose only slot stays in use: DoDeadline polls until the
    deadline is reached and returns ErrTimeout, not ErrNoFreeConns. *)
Example DoDeadline_on_a_saturated_client :
  option_map (fun r => (hr_err r, hr_events r))
    (DoDeadline (3 * Second) "fasthttp" 1 ex_env ex_hio 3 ex_get emptyResponse
       (20 * Millisecond) ex_busy)
  = Some (Some ErrTimeout,
          [HSpawn; HSleep (15 * Millisecond); HSpawn; HSleep (13 * Millisecond)]).
Proof. vm_compute. reflexivity. Qed.
